(** * CARLA camera sessions: frame decoding, traffic spawning, display loop
      and teardown

    A shallow embedding of the three scripts of the repository

      - [spwnSpcfcLocCamOk.py]   : one vehicle, one camera, display loop;
      - [addingTraffic.py]       : the same plus ten traffic cars;
      - [basicEgentFirstTime.py] : the same plus an endpoint marker, the
                                   traffic lights and a navigation agent.

    The simulator, pygame and numpy are external.  Every call the scripts
    make to them is recorded, in program order, in a trace; what the
    outside world answers (a spawn that is refused, a call that raises, the
    events of a tick, the frames the camera delivers) is given by an
    environment.  Console output ([print]) is not modelled. *)

From Stdlib Require Import String Strings.Byte QArith.
From Stdlib Require Import List Arith PeanoNat Bool Lia Permutation.
Import ListNotations.

Local Open Scope nat_scope.
Local Open Scope list_scope.

(* ================================================================== *)
(** * Exceptions and results *)

(** The Python exceptions the scripts can meet: [ValueError] from
    [ndarray.reshape], [ZeroDivisionError] from [%], and [RuntimeError],
    which is what the simulator client raises (time-outs, failed spawns of
    [spawn_actor], missing blueprints are folded into it).  All of them
    are instances of [Exception]; [KeyboardInterrupt] and [SystemExit],
    which [except Exception] does not catch, are not modelled. *)
Inductive exn : Type :=
  | ValueError
  | ZeroDivisionError
  | RuntimeError.

Inductive result (A : Type) : Type :=
  | Ok (a : A)
  | Raise (e : exn).
Arguments Ok {A} a.
Arguments Raise {A} e.

(* ================================================================== *)
(** * Frame decoder: [carla_image_to_pygame] *)

Module Decoder.

(** [carla.Image] as the decoder reads it: [width], [height] and the
    buffer [raw_data] of B,G,R,A bytes. *)
Record Image : Type := {
  width : nat;
  height : nat;
  raw_data : list byte
}.

(** A [numpy] array of rank three of [uint8]: rows, then pixels of a row,
    then the channels of a pixel. *)
Definition ndarray3 : Type := list (list (list byte)).

(** [np.frombuffer(buf, dtype=np.uint8)]: the flat array over the bytes. *)
Definition frombuffer (buf : list byte) : list byte := buf.

(** The [k]-th block of [n] consecutive elements of a flat array. *)
Definition block {A : Type} (n k : nat) (a : list A) : list A :=
  firstn n (skipn (k * n) a).

(** [a.reshape((h, w, c))] on a flat array, in row-major (C) order; numpy
    raises [ValueError] unless the size of [a] is [h * w * c]. *)
Definition reshape (a : list byte) (h w c : nat) : result ndarray3 :=
  if length a =? h * w * c
  then Ok (map (fun r => map (fun k => block c k (block (w * c) r a))
                             (seq 0 w))
               (seq 0 h))
  else Raise ValueError.

(** [a[:, :, :3]] *)
Definition take_channels (n : nat) (a : ndarray3) : ndarray3 :=
  map (map (firstn n)) a.

(** [a[:, :, ::-1]] *)
Definition reverse_channels (a : ndarray3) : ndarray3 :=
  map (map (@rev byte)) a.

(** [carla_image_to_pygame(image)], the same in the three files. *)
Definition carla_image_to_pygame (image : Image) : result ndarray3 :=
  let array := frombuffer (raw_data image) in
  match reshape array (height image) (width image) 4 with
  | Raise e => Raise e
  | Ok array =>
      let array := take_channels 3 array in
      let array := reverse_channels array in
      Ok array
  end.

(** [a.swapaxes(0, 1)] on a rectangular array with [w] columns. *)
Definition swapaxes01 (w : nat) (a : ndarray3) : ndarray3 :=
  map (fun c => map (fun row => nth c row []) a) (seq 0 w).

(** A buffer of [n] pixels, all of the colour [b, g, r, a]. *)
Definition constant_buffer (b g r a : byte) (n : nat) : list byte :=
  concat (repeat [b; g; r; a] n).

(** The pixels of an array, row after row. *)
Definition pixels (a : ndarray3) : list (list byte) := concat a.

End Decoder.

(* ================================================================== *)
(** * The outside world: simulator, pygame, and what they answer *)

Import Decoder.

(** An actor handle.  The simulator gives every actor it creates a new
    identifier; here it is the position, in the trace, of the call that
    created it, which is new by construction. *)
Definition Actor : Type := nat.

(** [carla.Location], [carla.Rotation], [carla.Transform]: floating-point
    coordinates, idealised as rationals.  The rounding to single
    precision that [carla.Location] makes of the two sums of the endpoint
    is not modelled: no theorem below speaks of the value of these sums,
    and in the sample sessions they are small integers, which single
    precision holds exactly. *)
Record Location : Type := { loc_x : Q; loc_y : Q; loc_z : Q }.
Record Rotation : Type := { rot_pitch : Q; rot_yaw : Q; rot_roll : Q }.
Record Transform : Type := { location : Location; rotation : Rotation }.

Definition Rotation0 : Rotation :=
  {| rot_pitch := 0; rot_yaw := 0; rot_roll := 0 |}.

(** [carla.ActorBlueprint]: its id and the attributes set on it. *)
Record Blueprint : Type := {
  bp_id : string;
  bp_attributes : list (string * string)
}.

Definition set_attribute (bp : Blueprint) (k v : string) : Blueprint :=
  {| bp_id := bp_id bp; bp_attributes := bp_attributes bp ++ [(k, v)] |}.

Inductive TrafficLightState : Type := Red | Yellow | Green | Off | Unknown.

(** Types of pygame events: the scripts only look for [pygame.QUIT]. *)
Inductive EventType : Type := QUIT | OtherEvent (code : nat).

Definition is_quit (e : EventType) : bool :=
  match e with QUIT => true | OtherEvent _ => false end.

(** [carla.VehicleControl], as returned by the agent: opaque. *)
Definition Control : Type := nat.

(** The calls the scripts make to pygame, numpy's generator and the
    simulator client. *)
Inductive Call : Type :=
  | PygameInit
  | SetMode (w h : nat)
  | SetCaption (title : string)
  | NewClock
  | EventGet (evs : list EventType)
  | MakeSurface (a : ndarray3)
  | Blit
  | Flip
  | ClockTick (fps : nat)
  | PygameQuit
  | RandomChoice
  | NewClient (host : string) (port : nat)
  | SetTimeout (seconds : Q)
  | LoadWorld (town : string)
  | GetWorld
  | Sleep (seconds : nat)
  | GetBlueprintLibrary
  | Filter (pattern : string)
  | Find (id : string)
  | GetSpawnPoints
  | TrySpawnActor (bp : Blueprint) (t : Transform)
  | SpawnActor (bp : Blueprint) (t : Transform) (attach_to : Actor)
  | Listen (sensor : Actor)
  | SetAutopilot (a : Actor) (enabled : bool)
  | Destroy (a : Actor)
  | GetActors (pattern : string)
  | SetState (light : Actor) (st : TrafficLightState)
  | SetGreenTime (light : Actor) (seconds : Q)
  | SetRedTime (light : Actor) (seconds : Q)
  | GetTransform (a : Actor)
  | NewBasicAgent (a : Actor)
  | SetDestination (l : Location)
  | RunStep
  | ApplyControl (a : Actor) (c : Control).

(** What the outside world answers.  Positions are positions in the trace
    of calls. *)
Record Env : Type := {
  (** [world.get_map().get_spawn_points()] *)
  spawn_points : list Transform;
  (** [world.get_actors().filter('traffic.traffic_light')] *)
  traffic_lights : list Actor;
  (** the call [c] issued at position [n] raises *)
  raises : nat -> Call -> bool;
  (** the creation request at position [n] is refused (pose occupied):
      [try_spawn_actor] then returns [None], [spawn_actor] raises *)
  refuses : nat -> bool;
  (** [destroy] at position [n] finds the actor already destroyed and
      returns [False] *)
  already_dead : nat -> bool;
  (** the draw of [np.random.choice] at position [n] *)
  random : nat -> nat;
  (** the control [agent.run_step()] returns at position [n] *)
  next_control : nat -> Control
}.

(** One turn of the display loop, seen from outside: the frames the camera
    callback received since the previous turn, in order, and the events
    [pygame.event.get()] then returns. *)
Record Tick : Type := {
  frames : list Image;
  events : list EventType
}.

(* ================================================================== *)
(** * Program state and the monad of the scripts *)

(** The trace of calls and the variables of [main] that its [finally]
    block and the frame callback read.  [None] is an unbound name or
    Python's [None]: the [finally] blocks treat both alike. *)
Record State : Type := {
  trace : list Call;
  latest_image : option Image;
  camera : option Actor;
  vehicle : option Actor;
  bus : option Actor;
  traffic_cars : list Actor
}.

Definition initial : State :=
  {| trace := []; latest_image := None; camera := None; vehicle := None;
     bus := None; traffic_cars := [] |}.

(** The state after the calls [l] have been made. *)
Definition add_calls (l : list Call) (s : State) : State :=
  {| trace := trace s ++ l; latest_image := latest_image s;
     camera := camera s; vehicle := vehicle s; bus := bus s;
     traffic_cars := traffic_cars s |}.

Definition log (c : Call) (s : State) : State := add_calls [c] s.

Definition set_latest_image (i : option Image) (s : State) : State :=
  {| trace := trace s; latest_image := i;
     camera := camera s; vehicle := vehicle s; bus := bus s;
     traffic_cars := traffic_cars s |}.

Definition set_camera (a : option Actor) (s : State) : State :=
  {| trace := trace s; latest_image := latest_image s;
     camera := a; vehicle := vehicle s; bus := bus s;
     traffic_cars := traffic_cars s |}.

Definition set_vehicle (a : option Actor) (s : State) : State :=
  {| trace := trace s; latest_image := latest_image s;
     camera := camera s; vehicle := a; bus := bus s;
     traffic_cars := traffic_cars s |}.

Definition set_bus (a : option Actor) (s : State) : State :=
  {| trace := trace s; latest_image := latest_image s;
     camera := camera s; vehicle := vehicle s; bus := a;
     traffic_cars := traffic_cars s |}.

Definition set_traffic_cars (l : list Actor) (s : State) : State :=
  {| trace := trace s; latest_image := latest_image s;
     camera := camera s; vehicle := vehicle s; bus := bus s;
     traffic_cars := l |}.

(** How a piece of [main] ends: with a value, by [return], by an
    exception, or not yet ([Pending]: the ticks given were all played and
    the loop is still running). *)
Inductive outcome (A : Type) : Type :=
  | Val (a : A)
  | Return
  | Exc (e : exn)
  | Pending.
Arguments Val {A} a.
Arguments Return {A}.
Arguments Exc {A} e.
Arguments Pending {A}.

Definition M (A : Type) : Type := State -> outcome A * State.

Definition ret {A : Type} (a : A) : M A := fun s => (Val a, s).

Definition bind {A B : Type} (m : M A) (k : A -> M B) : M B :=
  fun s =>
    match m s with
    | (Val a, s') => k a s'
    | (Return, s') => (Return, s')
    | (Exc e, s') => (Exc e, s')
    | (Pending, s') => (Pending, s')
    end.

Declare Scope script_scope.
Delimit Scope script_scope with script.
Notation "x <- m ;; k" := (bind m (fun x => k))
  (at level 61, m at next level, right associativity) : script_scope.
Notation "m ;; k" := (bind m (fun _ => k))
  (at level 61, right associativity) : script_scope.
Local Open Scope script_scope.

(** Python's [return] in [main], [raise], and the end of the script of
    ticks. *)
Definition return_ {A : Type} : M A := fun s => (Return, s).
Definition raise {A : Type} (e : exn) : M A := fun s => (Exc e, s).
Definition pending {A : Type} : M A := fun s => (Pending, s).

(** [x = m]: the value of [m], when it has one, is bound to the variable
    written by [set]. *)
Definition store {A : Type} (set : A -> State -> State) (m : M A) : M A :=
  fun s =>
    match m s with
    | (Val a, s') => (Val a, set a s')
    | r => r
    end.

(** Reading a variable. *)
Definition read {A : Type} (get : State -> A) : M A := fun s => (Val (get s), s).

(** A pure computation that may raise. *)
Definition lift {A : Type} (r : result A) : M A :=
  match r with
  | Ok a => ret a
  | Raise e => raise e
  end.

(** [for x in l: body(x)] *)
Fixpoint for_each {A : Type} (l : list A) (body : A -> M unit) : M unit :=
  match l with
  | [] => ret tt
  | x :: rest => body x ;; for_each rest body
  end.

(** [except Exception as e: print(...)]: every exception of the block is
    caught and printed; the script goes on after the [try].  (Every
    exception of [exn] is an instance of [Exception].) *)
Definition except_print (body : M unit) : M unit :=
  fun s =>
    match body s with
    | (Exc _, s') => (Val tt, s')
    | r => r
    end.

(** [try: body finally: final].  The [finally] block runs however [body]
    ended; an exception raised in it replaces what [body] ended with.
    When the script of ticks ran out, the process is still in [body]. *)
Definition finally (body final : M unit) : M unit :=
  fun s =>
    match body s with
    | (Pending, s') => (Pending, s')
    | (o, s') =>
        match final s' with
        | (Val _, s'') => (o, s'')
        | r => r
        end
    end.

Section World.

Variable env : Env.

(** A call that returns nothing of interest, or raises. *)
Definition call (c : Call) : M unit :=
  fun s =>
    if raises env (length (trace s)) c
    then (Exc RuntimeError, log c s)
    else (Val tt, log c s).

(** [blueprint_library.find(id)] *)
Definition find (id : string) : M Blueprint :=
  call (Find id) ;; ret {| bp_id := id; bp_attributes := [] |}.

(** [world.get_map().get_spawn_points()] *)
Definition get_spawn_points : M (list Transform) :=
  call GetSpawnPoints ;; ret (spawn_points env).

(** [world.try_spawn_actor(bp, t)]: the new actor, or [None]. *)
Definition try_spawn_actor (bp : Blueprint) (t : Transform) : M (option Actor) :=
  fun s =>
    let n := length (trace s) in
    match call (TrySpawnActor bp t) s with
    | (Val _, s') => (Val (if refuses env n then None else Some n), s')
    | (Return, s') => (Return, s')
    | (Exc e, s') => (Exc e, s')
    | (Pending, s') => (Pending, s')
    end.

(** [world.spawn_actor(bp, t, attach_to=parent)]: the new actor; a
    refused spawn raises. *)
Definition spawn_actor (bp : Blueprint) (t : Transform) (parent : Actor) : M Actor :=
  fun s =>
    let n := length (trace s) in
    match call (SpawnActor bp t parent) s with
    | (Val _, s') =>
        if refuses env n then (Exc RuntimeError, s') else (Val n, s')
    | (Return, s') => (Return, s')
    | (Exc e, s') => (Exc e, s')
    | (Pending, s') => (Pending, s')
    end.

(** [actor.destroy()]: [True], or [False] for an actor already destroyed. *)
Definition destroy (a : Actor) : M bool :=
  fun s =>
    let n := length (trace s) in
    match call (Destroy a) s with
    | (Val _, s') => (Val (negb (already_dead env n)), s')
    | (Return, s') => (Return, s')
    | (Exc e, s') => (Exc e, s')
    | (Pending, s') => (Pending, s')
    end.

(** [np.random.choice(l)] *)
Definition random_choice (l : list string) : M string :=
  fun s =>
    let n := length (trace s) in
    match call RandomChoice s with
    | (Val _, s') => (Val (nth (random env n mod length l) l EmptyString), s')
    | (Return, s') => (Return, s')
    | (Exc e, s') => (Exc e, s')
    | (Pending, s') => (Pending, s')
    end.

(** [agent.run_step()] *)
Definition run_step : M Control :=
  fun s =>
    let n := length (trace s) in
    match call RunStep s with
    | (Val _, s') => (Val (next_control env n), s')
    | (Return, s') => (Return, s')
    | (Exc e, s') => (Exc e, s')
    | (Pending, s') => (Pending, s')
    end.

(** [pygame.event.get()]: the events of the tick. *)
Definition event_get (t : Tick) : M (list EventType) :=
  fun s => (Val (events t), log (EventGet (events t)) s).

(** [i % n] on non-negative integers. *)
Definition py_mod (i n : nat) : result nat :=
  match n with
  | 0 => Raise ZeroDivisionError
  | S _ => Ok (i mod n)
  end.

(** [l[k]] for [0 <= k]; out of range, Python raises [IndexError], which
    for the scripts is one more run-time error. *)
Definition py_index {A : Type} (l : list A) (k : nat) : result A :=
  match nth_error l k with
  | Some x => Ok x
  | None => Raise RuntimeError
  end.

(* ------------------------------------------------------------------ *)
(** ** What the three files share *)

(** [process_image(image)]: [nonlocal latest_image; latest_image = image] *)
Definition process_image (image : Image) : M unit :=
  fun s => (Val tt, set_latest_image (Some image) s).

(** The camera thread calls the callback once for each frame. *)
Definition deliver (fs : list Image) : M unit := for_each fs process_image.

(** [for event in pygame.event.get(): if event.type == pygame.QUIT: return] *)
Fixpoint poll_quit (evs : list EventType) : M unit :=
  match evs with
  | [] => ret tt
  | e :: rest => if is_quit e then return_ else poll_quit rest
  end.

(** Truth value of a [carla.Image]: the class has [__len__] (its number
    of pixels) and no [__bool__], so an image without pixels is false. *)
Definition image_truth (image : Image) : bool :=
  negb (length (raw_data image) / 4 =? 0).

(** [if latest_image: ... display.blit(surface, (0, 0))] *)
Definition render_latest : M unit :=
  latest <- read latest_image ;;
  match latest with
  | Some image =>
      if image_truth image then
        image_array <- lift (carla_image_to_pygame image) ;;
        call (MakeSurface (swapaxes01 (width image) image_array)) ;;
        call Blit
      else ret tt
  | None => ret tt
  end.

(** [while True: body], played on the ticks given; before each turn the
    callback has stored the frames that arrived. *)
Fixpoint while_true (body : Tick -> M unit) (ticks : list Tick) : M unit :=
  match ticks with
  | [] => pending
  | t :: rest => deliver (frames t) ;; body t ;; while_true body rest
  end.

(** [x = v] *)
Definition assign {A : Type} (set : A -> State -> State) (v : A) : M unit :=
  fun s => (Val tt, set v s).

(** [if x is not None: x.destroy()] *)
Definition destroy_if_set (get : State -> option Actor) : M unit :=
  x <- read get ;;
  match x with
  | Some a => destroy a ;; ret tt
  | None => ret tt
  end.

(** [for traffic_car in traffic_cars: traffic_car.destroy()] *)
Definition destroy_traffic : M unit :=
  cars <- read traffic_cars ;;
  for_each cars (fun traffic_car => destroy traffic_car ;; ret tt).

(** The four pygame calls before the [try] of every [main]. *)
Definition pygame_setup : M unit :=
  call PygameInit ;;
  call (SetMode 1000 800) ;;
  call (SetCaption "CARLA Simulation") ;;
  call NewClock.

(** Connecting and loading the town, first lines of every [try]. *)
Definition connect : M unit :=
  call (NewClient "ce-gpu.informatik.tu-chemnitz.de" 2110) ;;
  call (SetTimeout 10) ;;
  call (LoadWorld "Town03") ;;
  call GetWorld ;;
  call (Sleep 2).

End World.

(** The handle a variable holds, if any. *)
Definition opt_list {A : Type} (o : option A) : list A :=
  match o with
  | Some a => [a]
  | None => []
  end.

(** [for a in l: a.destroy()], the shape of every [finally] block. *)
Definition release_list (env : Env) (l : list Actor) : M unit :=
  for_each l (fun a => destroy env a ;; ret tt).

(* ================================================================== *)
(** * spwnSpcfcLocCamOk.py *)

Module SpwnSpcfcLocCamOk.
Section Main.

Variable env : Env.

Definition camera_transform : Transform :=
  {| location := {| loc_x := -6; loc_y := 0; loc_z := 3 |};
     rotation := {| rot_pitch := -15; rot_yaw := 0; rot_roll := 0 |} |}.

(** One turn of [while True]. *)
Definition tick (t : Tick) : M unit :=
  evs <- event_get t ;;
  poll_quit evs ;;
  render_latest env ;;
  call env Flip ;;
  call env (ClockTick 30).

(** The [try] block of [main]. *)
Definition body (ticks : list Tick) : M unit :=
  connect env ;;
  call env GetBlueprintLibrary ;;
  call env (Filter "vehicle.*") ;;
  vehicle_bp <- find env "vehicle.tesla.model3" ;;
  spawn_points <- get_spawn_points env ;;
  match spawn_points with
  | [] => return_
  | spawn_point :: _ =>
      vehicle <- store set_vehicle (try_spawn_actor env vehicle_bp spawn_point) ;;
      match vehicle with
      | None => return_
      | Some vehicle =>
          camera_bp <- find env "sensor.camera.rgb" ;;
          let camera_bp := set_attribute camera_bp "image_size_x" "1000" in
          let camera_bp := set_attribute camera_bp "image_size_y" "800" in
          let camera_bp := set_attribute camera_bp "fov" "110" in
          camera <- store (fun c => set_camera (Some c))
                      (spawn_actor env camera_bp camera_transform vehicle) ;;
          assign set_latest_image None ;;
          call env (Listen camera) ;;
          while_true tick ticks
      end
  end.

(** The [finally] block of [main]. *)
Definition teardown : M unit :=
  call env PygameQuit ;;
  destroy_if_set env camera ;;
  destroy_if_set env vehicle.

Definition main (ticks : list Tick) : M unit :=
  pygame_setup env ;;
  finally (except_print (body ticks)) teardown.

End Main.

(** The handles [main] holds, in the order in which [teardown] releases
    them, and in the order in which [body] creates them. *)
Definition release_order (s : State) : list Actor :=
  opt_list (camera s) ++ opt_list (vehicle s).

Definition creation_order (s : State) : list Actor :=
  opt_list (vehicle s) ++ opt_list (camera s).

End SpwnSpcfcLocCamOk.

(* ================================================================== *)
(** * addingTraffic.py *)

Module AddingTraffic.
Section Main.

Variable env : Env.

(** The body of [for i in range(num_cars)], on the units still to do;
    [traffic_cars] is the list of [spawn_traffic_cars], not that of
    [main]. *)
Fixpoint spawn_loop (spawn_points : list Transform) (units : list nat)
    (traffic_cars : list Actor) : M (list Actor) :=
  match units with
  | [] => ret traffic_cars
  | i :: rest =>
      k <- lift (py_mod i (length spawn_points)) ;;
      spawn_point <- lift (py_index spawn_points k) ;;
      vehicle_bp <- find env "vehicle.tesla.model3" ;;
      vehicle <- try_spawn_actor env vehicle_bp spawn_point ;;
      match vehicle with
      | Some vehicle =>
          let traffic_cars := traffic_cars ++ [vehicle] in
          call env (SetAutopilot vehicle true) ;;
          spawn_loop spawn_points rest traffic_cars
      | None => spawn_loop spawn_points rest traffic_cars
      end
  end.

Definition spawn_traffic_cars (num_cars : nat) : M (list Actor) :=
  spawn_points <- get_spawn_points env ;;
  spawn_loop spawn_points (seq 0 num_cars) [].

Definition camera_transform : Transform :=
  {| location := {| loc_x := -6; loc_y := 0; loc_z := 3 |};
     rotation := {| rot_pitch := -15; rot_yaw := 0; rot_roll := 0 |} |}.

Definition tick (t : Tick) : M unit :=
  evs <- event_get t ;;
  poll_quit evs ;;
  render_latest env ;;
  call env Flip ;;
  call env (ClockTick 30).

Definition body (ticks : list Tick) : M unit :=
  connect env ;;
  call env GetBlueprintLibrary ;;
  call env (Filter "vehicle.*") ;;
  vehicle_bp <- find env "vehicle.tesla.model3" ;;
  spawn_points <- get_spawn_points env ;;
  match spawn_points with
  | [] => return_
  | spawn_point :: _ =>
      vehicle <- store set_vehicle (try_spawn_actor env vehicle_bp spawn_point) ;;
      match vehicle with
      | None => return_
      | Some vehicle =>
          camera_bp <- find env "sensor.camera.rgb" ;;
          let camera_bp := set_attribute camera_bp "image_size_x" "1000" in
          let camera_bp := set_attribute camera_bp "image_size_y" "800" in
          let camera_bp := set_attribute camera_bp "fov" "110" in
          camera <- store (fun c => set_camera (Some c))
                      (spawn_actor env camera_bp camera_transform vehicle) ;;
          assign set_latest_image None ;;
          call env (Listen camera) ;;
          store set_traffic_cars (spawn_traffic_cars 10) ;;
          while_true tick ticks
      end
  end.

Definition teardown : M unit :=
  call env PygameQuit ;;
  destroy_if_set env camera ;;
  destroy_if_set env vehicle ;;
  destroy_traffic env.

(** [traffic_cars = []] comes before the [try]. *)
Definition main (ticks : list Tick) : M unit :=
  pygame_setup env ;;
  assign set_traffic_cars [] ;;
  finally (except_print (body ticks)) teardown.

End Main.

(** The handles [main] holds, in the order in which [teardown] releases
    them, and in the order in which [body] creates them. *)
Definition release_order (s : State) : list Actor :=
  opt_list (camera s) ++ opt_list (vehicle s) ++ traffic_cars s.

Definition creation_order (s : State) : list Actor :=
  opt_list (vehicle s) ++ opt_list (camera s) ++ traffic_cars s.

End AddingTraffic.

(* ================================================================== *)
(** * basicEgentFirstTime.py *)

Module BasicEgentFirstTime.
Section Main.

Variable env : Env.

Definition vehicle_types : list string :=
  [ "vehicle.audi.tt"; "vehicle.tesla.model3"; "vehicle.carlamotors.carlacola";
    "vehicle.mini.cooper_s"; "vehicle.dodge.charger_police";
    "vehicle.harley-davidson.low_rider" ]%string.

Fixpoint spawn_loop (spawn_points : list Transform) (units : list nat)
    (traffic_cars : list Actor) : M (list Actor) :=
  match units with
  | [] => ret traffic_cars
  | i :: rest =>
      k <- lift (py_mod i (length spawn_points)) ;;
      spawn_point <- lift (py_index spawn_points k) ;;
      vehicle_type <- random_choice env vehicle_types ;;
      vehicle_bp <- find env vehicle_type ;;
      vehicle <- try_spawn_actor env vehicle_bp spawn_point ;;
      match vehicle with
      | Some vehicle =>
          let traffic_cars := traffic_cars ++ [vehicle] in
          call env (SetAutopilot vehicle true) ;;
          spawn_loop spawn_points rest traffic_cars
      | None => spawn_loop spawn_points rest traffic_cars
      end
  end.

Definition spawn_traffic_cars (num_cars : nat) : M (list Actor) :=
  spawn_points <- get_spawn_points env ;;
  spawn_loop spawn_points (seq 0 num_cars) [].

(** The body of [for light in ...] of [setup_traffic_lights]; the last
    call is the one inside the [print]. *)
Fixpoint lights_loop (lights : list Actor) (traffic_lights : list Actor)
    : M (list Actor) :=
  match lights with
  | [] => ret traffic_lights
  | light :: rest =>
      call env (SetState light Red) ;;
      call env (SetGreenTime light 5) ;;
      call env (SetRedTime light 5) ;;
      let traffic_lights := traffic_lights ++ [light] in
      call env (GetTransform light) ;;
      lights_loop rest traffic_lights
  end.

Definition setup_traffic_lights : M (list Actor) :=
  call env (GetActors "traffic.traffic_light") ;;
  lights_loop (traffic_lights env) [].

Definition camera_transform : Transform :=
  {| location := {| loc_x := 130; loc_y := -65; loc_z := 210 |};
     rotation := {| rot_pitch := -90; rot_yaw := 0; rot_roll := 0 |} |}.

Definition tick (vehicle : Actor) (t : Tick) : M unit :=
  evs <- event_get t ;;
  poll_quit evs ;;
  control <- run_step env ;;
  call env (ApplyControl vehicle control) ;;
  render_latest env ;;
  call env Flip ;;
  call env (ClockTick 30).

Definition body (ticks : list Tick) : M unit :=
  connect env ;;
  spawn_points <- get_spawn_points env ;;
  match spawn_points with
  | [] => return_
  | start_point :: _ =>
      let endpoint_location :=
        {| loc_x := loc_x (location start_point) + 115;
           loc_y := loc_y (location start_point) + 135;
           loc_z := loc_z (location start_point) |} in
      call env GetBlueprintLibrary ;;
      vehicle_bp <- find env "vehicle.tesla.model3" ;;
      vehicle <- store set_vehicle (try_spawn_actor env vehicle_bp start_point) ;;
      match vehicle with
      | None => return_
      | Some vehicle =>
          camera_bp <- find env "sensor.camera.rgb" ;;
          let camera_bp := set_attribute camera_bp "image_size_x" "1000" in
          let camera_bp := set_attribute camera_bp "image_size_y" "800" in
          let camera_bp := set_attribute camera_bp "fov" "90" in
          camera <- store (fun c => set_camera (Some c))
                      (spawn_actor env camera_bp camera_transform vehicle) ;;
          assign set_latest_image None ;;
          call env (Listen camera) ;;
          bus_bp <- find env "vehicle.carlamotors.carlacola" ;;
          let bus_transform :=
            {| location := endpoint_location; rotation := Rotation0 |} in
          store set_bus (try_spawn_actor env bus_bp bus_transform) ;;
          setup_traffic_lights ;;
          store set_traffic_cars (spawn_traffic_cars 10) ;;
          call env (NewBasicAgent vehicle) ;;
          call env (SetDestination endpoint_location) ;;
          while_true (tick vehicle) ticks
      end
  end.

Definition teardown : M unit :=
  call env PygameQuit ;;
  destroy_if_set env camera ;;
  destroy_if_set env vehicle ;;
  destroy_if_set env bus ;;
  destroy_traffic env.

(** [traffic_cars = []], [camera = None], [vehicle = None] and
    [bus = None] come before the [try]. *)
Definition main (ticks : list Tick) : M unit :=
  pygame_setup env ;;
  assign set_traffic_cars [] ;;
  assign set_camera None ;;
  assign set_vehicle None ;;
  assign set_bus None ;;
  finally (except_print (body ticks)) teardown.

End Main.

(** The handles [main] holds, in the order in which [teardown] releases
    them, and in the order in which [body] creates them. *)
Definition release_order (s : State) : list Actor :=
  opt_list (camera s) ++ opt_list (vehicle s) ++ opt_list (bus s)
  ++ traffic_cars s.

Definition creation_order (s : State) : list Actor :=
  opt_list (vehicle s) ++ opt_list (camera s) ++ opt_list (bus s)
  ++ traffic_cars s.

End BasicEgentFirstTime.

(* ================================================================== *)
(** * Reading traces *)

(** The calls a piece of script makes when started in [s]. *)
Definition calls_of {A : Type} (m : M A) (s : State) : list Call :=
  skipn (length (trace s)) (trace (snd (m s))).

(** The handles released, in the order of the [destroy] calls. *)
Definition released (tr : list Call) : list Actor :=
  flat_map (fun c => match c with Destroy a => [a] | _ => [] end) tr.

(** The call [c] at position [n] hands a new actor to the script. *)
Definition creates (env : Env) (n : nat) (c : Call) : bool :=
  match c with
  | TrySpawnActor _ _ | SpawnActor _ _ _ =>
      negb (raises env n c) && negb (refuses env n)
  | _ => false
  end.

(** The handles acquired by the calls [tr], the first of which stands at
    position [n], in the order of their creation. *)
Fixpoint acquired_from (env : Env) (n : nat) (tr : list Call) : list Actor :=
  match tr with
  | [] => []
  | c :: rest =>
      (if creates env n c then [n] else []) ++ acquired_from env (S n) rest
  end.

Definition acquired (env : Env) (tr : list Call) : list Actor :=
  acquired_from env 0 tr.

(** The poses of the creation requests made with [try_spawn_actor]. *)
Definition requested_poses (tr : list Call) : list Transform :=
  flat_map (fun c => match c with TrySpawnActor _ t => [t] | _ => [] end) tr.

(** The actors on which [set_autopilot(True)] was called. *)
Definition autopilot_enabled (tr : list Call) : list Actor :=
  flat_map (fun c => match c with SetAutopilot a true => [a] | _ => [] end) tr.

(** The calls of [spawn_traffic_cars]. *)
Definition spawner_call (c : Call) : bool :=
  match c with
  | GetSpawnPoints | RandomChoice | Find _ | TrySpawnActor _ _
  | SetAutopilot _ _ => true
  | _ => false
  end.

(** None of the calls of [spawn_traffic_cars] raises. *)
Definition spawner_quiet (env : Env) : Prop :=
  forall n c, spawner_call c = true -> raises env n c = false.

(** The calls of the [finally] blocks. *)
Definition teardown_call (c : Call) : bool :=
  match c with
  | PygameQuit | Destroy _ => true
  | _ => false
  end.

(** None of the calls of the [finally] blocks raises. *)
Definition teardown_quiet (env : Env) : Prop :=
  forall n c, teardown_call c = true -> raises env n c = false.

(** Rendering calls and control calls of the display loop. *)
Definition is_render (c : Call) : bool :=
  match c with
  | MakeSurface _ | Blit | Flip => true
  | _ => false
  end.

Definition is_control (c : Call) : bool :=
  match c with
  | RunStep | ApplyControl _ _ => true
  | _ => false
  end.

(** What a run of the spawner's loop over [units] without an exception
    amounts to, [added] being the calls made from [s]: one creation
    request for each unit, at the pose the unit's number selects;
    autopilot enabled on the actors created, and on no other. *)
Definition spawned (env : Env) (sp : list Transform) (units : list nat)
    (s : State) (added : list Call) : Prop :=
  map Some (requested_poses added)
    = map (fun i => nth_error sp (i mod length sp)) units /\
  autopilot_enabled added = acquired_from env (length (trace s)) added /\
  released added = [] /\
  Forall (fun c => spawner_call c = true) added.

(** What [spawn_traffic_cars(num_cars)] has done when it returns [cars],
    [added] being the calls it made from [s]. *)
Definition spawner_report (env : Env) (num_cars : nat) (s : State)
    (cars : list Actor) (added : list Call) : Prop :=
  length (requested_poses added) = num_cars /\
  cars = acquired_from env (length (trace s)) added /\
  autopilot_enabled added = cars /\
  length cars <= num_cars.

(* ================================================================== *)
(** * Specifications of pieces of script *)

(** The ways a piece of script stops without a value. *)
Inductive stop : Type :=
  | ByReturn
  | ByExc (e : exn)
  | ByPending.

(** [triple P m Q E]: started in a state where [P] holds, [m] either
    yields a value [a] in a state where [Q a] holds, or stops in the way
    [w] in a state where [E w] holds. *)
Definition post {A : Type} (Q : A -> State -> Prop) (E : stop -> State -> Prop)
    (o : outcome A) (s : State) : Prop :=
  match o with
  | Val a => Q a s
  | Return => E ByReturn s
  | Exc e => E (ByExc e) s
  | Pending => E ByPending s
  end.

Definition triple {A : Type} (P : State -> Prop) (m : M A)
    (Q : A -> State -> Prop) (E : stop -> State -> Prop) : Prop :=
  forall s, P s -> post Q E (fst (m s)) (snd (m s)).

(** [I] is kept by the call [c]. *)
Definition stable (I : State -> Prop) (c : Call) : Prop :=
  forall s, I s -> I (log c s).

(** [I] does not depend on the variable written by [set]. *)
Definition blind {A : Type} (I : State -> Prop) (set : A -> State -> State)
    : Prop :=
  forall a s, I s -> I (set a s).

(** The calls of the display loops, and the calls made before them. *)
Definition loop_call (c : Call) : bool :=
  match c with
  | EventGet _ | MakeSurface _ | Blit | Flip | ClockTick _ | RunStep
  | ApplyControl _ _ => true
  | _ => false
  end.

Definition setup_call (c : Call) : bool :=
  negb (loop_call c) && negb (teardown_call c).

(** No [destroy] call has been made yet. *)
Definition none_released (s : State) : Prop := released (trace s) = [].

(** The outcome that goes with a way of stopping. *)
Definition stopped (w : stop) : outcome unit :=
  match w with
  | ByReturn => Return
  | ByExc e => Exc e
  | ByPending => Pending
  end.

(** The process has left [main]. *)
Definition exited {A : Type} (o : outcome A) : Prop := o <> Pending.

(** What the [finally] block has done when [main] is left in state [s]
    with outcome [o], for the handles [order s] that [main] holds: the
    handles released are the first ones of [order s], in this order, and
    they are all of them when no call of the block can raise. *)
Definition released_in_order (env : Env) (order : State -> list Actor)
    (o : outcome unit) (s : State) : Prop :=
  (exists rest, order s = released (trace s) ++ rest) /\
  (teardown_quiet env -> exited o -> released (trace s) = order s).

(* ================================================================== *)
(** * Sample worlds and sessions *)

Definition pose_at (x y : Q) : Transform :=
  {| location := {| loc_x := x; loc_y := y; loc_z := 0 |};
     rotation := Rotation0 |}.

(** A world with three spawn points and two traffic lights, in which no
    call raises and no spawn is refused. *)
Definition calm : Env :=
  {| spawn_points := [pose_at 0 0; pose_at 10 0; pose_at 20 0];
     traffic_lights := [100; 101];
     raises := fun _ _ => false;
     refuses := fun _ => false;
     already_dead := fun _ => false;
     random := fun n => n;
     next_control := fun n => n |}.


(** The same world, where every other spawn is refused and every actor
    is reported as already destroyed when it is released. *)
Definition crowded : Env :=
  {| spawn_points := spawn_points calm;
     traffic_lights := traffic_lights calm;
     raises := raises calm;
     refuses := fun n => (20 <? n) && Nat.even n;
     already_dead := fun _ => true;
     random := random calm;
     next_control := next_control calm |}.

(** The same world without spawn points. *)
Definition nowhere : Env :=
  {| spawn_points := [];
     traffic_lights := traffic_lights calm;
     raises := raises calm;
     refuses := refuses calm;
     already_dead := already_dead calm;
     random := random calm;
     next_control := next_control calm |}.

(** A frame of two pixels by one; the same with a buffer of five bytes. *)
Definition good_frame : Image :=
  {| width := 2; height := 1;
     raw_data := [x01; x02; x03; xff; x04; x05; x06; xff] |}.

Definition bad_frame : Image :=
  {| width := 2; height := 1; raw_data := [x01; x02; x03; xff; x04] |}.

(** Turns of the display loop: nothing happens; a frame arrives; a
    malformed frame arrives; the window is closed. *)
Definition idle_tick : Tick := {| frames := []; events := [] |}.
Definition frame_tick : Tick := {| frames := [good_frame]; events := [OtherEvent 4] |}.
Definition bad_frame_tick : Tick := {| frames := [bad_frame]; events := [] |}.
Definition quit_tick : Tick := {| frames := []; events := [OtherEvent 4; QUIT] |}.

(** Some [pygame.event.get()] of the trace returned a quit event. *)
Definition observes_quit (c : Call) : bool :=
  match c with
  | EventGet evs => existsb is_quit evs
  | _ => false
  end.

Definition quit_seen (tr : list Call) : bool := existsb observes_quit tr.

(** No quit event has been observed yet. *)
Definition no_quit_yet (s : State) : Prop := quit_seen (trace s) = false.

(** The quit event has just been observed: it came with the last call. *)
Definition quit_just_seen (s : State) : Prop :=
  exists tr evs,
    trace s = tr ++ [EventGet evs] /\ quit_seen tr = false
    /\ existsb is_quit evs = true.

(** How a block that contains the display loop stops. *)
Definition stops_on_quit (w : stop) (s : State) : Prop :=
  no_quit_yet s \/ (w = ByReturn /\ quit_just_seen s).

(** How [main] ends: either no quit event was observed, or [main] is left
    and every call after the first observation of a quit event is a call
    of the [finally] block. *)
Definition stopped_on_quit (o : outcome unit) (s : State) : Prop :=
  no_quit_yet s \/
  (exited o /\
   exists tr evs tcalls,
     trace s = tr ++ EventGet evs :: tcalls /\ quit_seen tr = false /\
     Forall (fun c => teardown_call c = true) tcalls).

(** [pygame.event.get()], the first call of every turn of a display
    loop. *)
Definition is_poll (c : Call) : bool :=
  match c with
  | EventGet _ => true
  | _ => false
  end.

(** The display loop has not started. *)
Definition no_poll_yet (s : State) : Prop :=
  Forall (fun c => is_poll c = false) (trace s).

(** The calls [tr] set the light [l] to red, and its green and red times
    to five seconds. *)
Definition light_set (tr : list Call) (l : Actor) : Prop :=
  In (SetState l Red) tr /\ In (SetGreenTime l 5) tr /\ In (SetRedTime l 5) tr.

Definition lights_set (ls : list Actor) (tr : list Call) : Prop :=
  forall l, In l ls -> light_set tr l.

(** The calls of [setup_traffic_lights] on the lights [ls]. *)
Definition light_calls (ls : list Actor) : list Call :=
  flat_map (fun l => [SetState l Red; SetGreenTime l 5; SetRedTime l 5;
                      GetTransform l]) ls.

(** All the lights of the world were set before the display loop
    started, if it has. *)
Definition lights_ready (env : Env) (s : State) : Prop :=
  exists pre post,
    trace s = pre ++ post /\ lights_set (traffic_lights env) pre
    /\ Forall (fun c => is_poll c = false) pre.

(** Either the loop has not started, or the lights were set before. *)
Definition lights_ok (env : Env) (s : State) : Prop :=
  no_poll_yet s \/ lights_ready env s.

Definition lights_before_loop (env : Env) (tr : list Call) : Prop :=
  forall pre evs post,
    tr = pre ++ EventGet evs :: post -> lights_set (traffic_lights env) pre.

(** None of the calls of [setup_traffic_lights] raises. *)
Definition lights_quiet (env : Env) : Prop :=
  forall n c,
    match c with
    | GetActors _ | SetState _ _ | SetGreenTime _ _ | SetRedTime _ _
    | GetTransform _ => raises env n c = false
    | _ => True
    end.

(** Every handle [main] holds was acquired, and none was released yet. *)
Definition holds_acquired (env : Env) (s : State) : Prop :=
  none_released s /\
  incl (opt_list (camera s) ++ opt_list (vehicle s) ++ opt_list (bus s)
        ++ traffic_cars s)
       (acquired env (trace s)).

(** The handles [main] holds are exactly those acquired, and none was
    released yet. *)
Definition holds_all (env : Env) (s : State) : Prop :=
  none_released s /\
  acquired env (trace s)
  = opt_list (vehicle s) ++ opt_list (camera s) ++ opt_list (bus s)
    ++ traffic_cars s.

(** On the way to the spawner: [main] holds exactly the handles acquired,
    which are those of [vo], [co] and [bo], and no traffic car yet. *)
Definition holds_so_far (env : Env) (vo co bo : option Actor) (s : State)
    : Prop :=
  none_released s /\
  acquired env (trace s) = opt_list vo ++ opt_list co ++ opt_list bo /\
  vehicle s = vo /\ camera s = co /\ bus s = bo /\ traffic_cars s = [].

(** Every acquired handle was released exactly once. *)
Definition all_released_once (env : Env) (tr : list Call) : Prop :=
  forall a, In a (acquired env tr) -> count_occ Nat.eq_dec (released tr) a = 1.

(** No handle was released that was not acquired. *)
Definition only_acquired_released (env : Env) (tr : list Call) : Prop :=
  forall a, In a (released tr) -> In a (acquired env tr).

(** Calls that neither create nor release an actor. *)
Definition plain_call (c : Call) : bool :=
  match c with
  | TrySpawnActor _ _ | SpawnActor _ _ _ | Destroy _ => false
  | _ => true
  end.

(** The calm world, where [set_autopilot] raises on the actor [a]. *)
Definition autopilot_raises_on (a : Actor) : Env :=
  {| spawn_points := spawn_points calm;
     traffic_lights := traffic_lights calm;
     raises := fun _ c =>
       match c with SetAutopilot b _ => b =? a | _ => false end;
     refuses := refuses calm;
     already_dead := already_dead calm;
     random := random calm;
     next_control := next_control calm |}.

(** The position of the first call of [tr] that satisfies [p]. *)
Fixpoint position (p : Call -> bool) (tr : list Call) : nat :=
  match tr with
  | [] => 0
  | c :: rest => if p c then 0 else S (position p rest)
  end.

(* ================================================================== *)
(** * The calls of the spawner, where [main] makes them *)

(** From the position [n0] of the trace on, none of the calls of
    [spawn_traffic_cars] raises. *)
Definition spawner_quiet_from (env : Env) (n0 : nat) : Prop :=
  forall n c, n0 <= n -> spawner_call c = true -> raises env n c = false.

(** None of the calls [added], the first of which stands at position
    [n0], raised. *)
Definition none_raised (env : Env) (n0 : nat) (added : list Call) : Prop :=
  forall i c, nth_error added i = Some c -> raises env (n0 + i) c = false.

(** In the trace [tr], none of the calls for which [p] holds and that
    stand at the position [n0] or after it raised. *)
Definition calls_quiet (env : Env) (p : Call -> bool) (n0 : nat)
    (tr : list Call) : Prop :=
  forall n c, nth_error tr n = Some c -> n0 <= n -> p c = true ->
              raises env n c = false.

(** The same as a check, [n] being the position of the first call of
    [tr]. *)
Fixpoint calls_quietb (env : Env) (p : Call -> bool) (n0 n : nat)
    (tr : list Call) : bool :=
  match tr with
  | [] => true
  | c :: rest =>
      negb ((n0 <=? n) && p c && raises env n c)
      && calls_quietb env p n0 (S n) rest
  end.

(** In the trace [tr], one of the calls for which [p] holds and that
    stand at the position [n0] or after it raised. *)
Definition raised_in (env : Env) (p : Call -> bool) (n0 : nat)
    (tr : list Call) : Prop :=
  exists n c, nth_error tr n = Some c /\ n0 <= n /\ p c = true /\
              raises env n c = true.

(** When [main] of [addingTraffic.py] calls [spawn_traffic_cars], it has
    made seventeen calls: the four of pygame, the five of the connection,
    [get_blueprint_library], [filter], [find], [get_spawn_points],
    [try_spawn_actor], [find], [spawn_actor] and [listen].  The calls of
    the spawner stand at the positions from 17 on; the calls [main] makes
    once it has returned (display loop, [finally] block) are of none of
    the spawner's kinds. *)
Definition AddingTraffic_spawner_start : nat := 17.

(** When [main] of [basicEgentFirstTime.py] calls [spawn_traffic_cars], it
    has made the four calls of pygame, the five of the connection,
    [get_spawn_points], [get_blueprint_library], [find],
    [try_spawn_actor], [find], [spawn_actor], [listen], [find] and
    [try_spawn_actor] for the marker, [get_actors], and four calls for
    each traffic light. *)
Definition BasicEgentFirstTime_spawner_start (env : Env) : nat :=
  19 + 4 * length (traffic_lights env).

(** The trace holds [k] calls. *)
Definition calls_made (k : nat) (s : State) : Prop := length (trace s) = k.

(* ================================================================== *)
(** * Scripts that wait for the next turn *)

(** The script never stops for want of a turn to play. *)
Definition never_pending {A : Type} (m : M A) : Prop :=
  forall s, fst (m s) <> Pending.

(** The script [w] goes on where a script that was waiting for the next
    turn of the display loop had stopped. *)
Definition resume (r : outcome unit * State) (w : M unit) : outcome unit * State :=
  match r with
  | (Pending, s) => w s
  | _ => r
  end.

(* ================================================================== *)
(** * More sample worlds and frames *)

(** The calm world, where the creation requests made at the positions
    2, 7, 12, ... of the trace are refused. *)
Definition picky : Env :=
  {| spawn_points := spawn_points calm;
     traffic_lights := traffic_lights calm;
     raises := raises calm;
     refuses := fun n => n mod 5 =? 2;
     already_dead := already_dead calm;
     random := random calm;
     next_control := next_control calm |}.

(** The calm world, where the creation request made at position [n]
    raises. *)
Definition spawn_raises_at (n : nat) : Env :=
  {| spawn_points := spawn_points calm;
     traffic_lights := traffic_lights calm;
     raises := fun m c =>
       match c with TrySpawnActor _ _ => m =? n | _ => false end;
     refuses := refuses calm;
     already_dead := already_dead calm;
     random := random calm;
     next_control := next_control calm |}.

(** The calm world, where the blueprint looked up at position [n] is
    missing. *)
Definition find_raises_at (n : nat) : Env :=
  {| spawn_points := spawn_points calm;
     traffic_lights := traffic_lights calm;
     raises := fun m c => match c with Find _ => m =? n | _ => false end;
     refuses := refuses calm;
     already_dead := already_dead calm;
     random := random calm;
     next_control := next_control calm |}.


(** A frame of one pixel with a buffer of three bytes: malformed, and
    without a whole pixel. *)
Definition tiny_frame : Image :=
  {| width := 1; height := 1; raw_data := [x01; x02; x03] |}.

Definition tiny_frame_tick : Tick := {| frames := [tiny_frame]; events := [] |}.

(* ================================================================== *)
(** * More sample worlds *)

(** The calm world, where the simulator refuses the attachment of the
    camera: [spawn_actor] raises. *)
Definition camera_refused : Env :=
  {| spawn_points := spawn_points calm;
     traffic_lights := traffic_lights calm;
     raises := raises calm;
     refuses := fun n => (13 <? n) && (n <? 16);
     already_dead := already_dead calm;
     random := random calm;
     next_control := next_control calm |}.

(** The calm world without a simulator to connect to. *)
Definition unreachable : Env :=
  {| spawn_points := spawn_points calm;
     traffic_lights := traffic_lights calm;
     raises := fun _ c => match c with NewClient _ _ => true | _ => false end;
     refuses := refuses calm;
     already_dead := already_dead calm;
     random := random calm;
     next_control := next_control calm |}.

(* ================================================================== *)
(** * More ways to read states and traces *)

(** The pygame calls that come before the [try] statement. *)
Definition pygame_setup_calls : list Call :=
  [PygameInit; SetMode 1000 800; SetCaption "CARLA Simulation"; NewClock].

(** None of them raises. *)
Definition pygame_setup_quiet (env : Env) : Prop :=
  forall n c, In c pygame_setup_calls -> raises env n c = false.

(** Nothing was requested from the simulator that creates or releases an
    actor, the display loop did not run, and [main] holds no handle. *)
Definition nothing_spawned (s : State) : Prop :=
  Forall (fun c => plain_call c = true /\ loop_call c = false) (trace s) /\
  camera s = None /\ vehicle s = None /\ bus s = None /\ traffic_cars s = [].

(** The same, for a piece of script that has stopped: it is not waiting
    for the next turn of the display loop. *)
Definition nothing_spawned_stop (w : stop) (s : State) : Prop :=
  w <> ByPending /\ nothing_spawned s.

(** The state [s'] comes from [s] by calls of the spawner only. *)
Definition spawner_calls_since (s s' : State) : Prop :=
  exists added,
    s' = add_calls added s /\ Forall (fun c => spawner_call c = true) added.

(** The blueprints of the creation requests made with
    [try_spawn_actor]. *)
Definition requested_blueprints (tr : list Call) : list Blueprint :=
  flat_map (fun c => match c with TrySpawnActor bp _ => [bp] | _ => [] end) tr.

(** Since [s], creation was only requested for blueprints that satisfy
    [good]. *)
Definition requests_since (good : Blueprint -> Prop) (s s' : State) : Prop :=
  exists added,
    s' = add_calls added s /\ Forall good (requested_blueprints added).

(** No call of a display loop has been made yet. *)
Definition setup_only (s : State) : Prop :=
  Forall (fun c => loop_call c = false) (trace s).

(** [main] holds the vehicle [v] and the camera [cam], and every control
    applied so far was applied to [v]. *)
Definition driving (v cam : Actor) (s : State) : Prop :=
  vehicle s = Some v /\ camera s = Some cam /\
  forall a ctl, In (ApplyControl a ctl) (trace s) -> a = v.

(** Either the display loop has not started, or [main] holds a vehicle
    and a camera. *)
Definition loop_ready (s : State) : Prop :=
  setup_only s \/ exists v cam, driving v cam s.

(** Every handle [main] holds was acquired. *)
Definition held_acquired (env : Env) (s : State) : Prop :=
  incl (opt_list (camera s) ++ opt_list (vehicle s) ++ opt_list (bus s)
        ++ traffic_cars s)
       (acquired env (trace s)).

(** What a trace in which the display loop has run tells: [main] holds a
    vehicle and a camera, which were acquired. *)
Definition loop_had_actors (env : Env) (s : State) : Prop :=
  existsb loop_call (trace s) = true ->
  exists v cam,
    vehicle s = Some v /\ camera s = Some cam /\
    In v (acquired env (trace s)) /\ In cam (acquired env (trace s)).

(** No call of a [finally] block has been made yet. *)
Definition no_teardown_yet (s : State) : Prop :=
  Forall (fun c => teardown_call c = false) (trace s).

(** The creation request for the marker, a bus, at the location [l]. *)
Definition marker_request (l : Location) : Call :=
  TrySpawnActor {| bp_id := "vehicle.carlamotors.carlacola";
                   bp_attributes := [] |}
                {| location := l; rotation := Rotation0 |}.

Definition is_destination (c : Call) : bool :=
  match c with
  | SetDestination _ => true
  | _ => false
  end.

(** The agent was given no destination yet. *)
Definition no_destination (s : State) : Prop :=
  Forall (fun c => is_destination c = false) (trace s).

(** Every destination given to the agent is a location at which the
    creation of the marker was requested. *)
Definition heads_for_marker (s : State) : Prop :=
  forall l, In (SetDestination l) (trace s) ->
            In (marker_request l) (trace s).

(* ================================================================== *)
(** * Properties *)

(** ** The decoder *)

Section Blocks.
Context {A : Type}.
Variable px : list A.
Variable c : nat.
Hypothesis px_len : length px = c.

Lemma skipn_repeat_blocks (k n : nat) :
  skipn (k * c) (concat (repeat px n)) = concat (repeat px (n - k)).
Proof.
  revert n; induction k as [|k IH]; intros n.
  - simpl. now rewrite Nat.sub_0_r.
  - destruct n as [|n]; simpl.
    + now rewrite skipn_nil.
    + rewrite <- IH. rewrite <- px_len at 1.
      rewrite skipn_app, Nat.add_comm.
      replace (k * c + length px - length px) with (k * c) by lia.
      rewrite (skipn_all2 px) by lia. reflexivity.
Qed.

Lemma firstn_repeat_blocks (k n : nat) :
  firstn (k * c) (concat (repeat px n)) = concat (repeat px (Nat.min k n)).
Proof.
  revert n; induction k as [|k IH]; intros n.
  - reflexivity.
  - destruct n as [|n]; simpl.
    + now rewrite firstn_nil.
    + rewrite <- IH. rewrite <- px_len at 1.
      rewrite firstn_app, Nat.add_comm.
      replace (k * c + length px - length px) with (k * c) by lia.
      rewrite (firstn_all2 px) by lia. reflexivity.
Qed.

Lemma block_repeat_blocks (w r n : nat) :
  block (w * c) r (concat (repeat px n)) = concat (repeat px (Nat.min w (n - r * w))).
Proof.
  unfold block.
  replace (r * (w * c)) with (r * w * c) by lia.
  now rewrite skipn_repeat_blocks, firstn_repeat_blocks.
Qed.

Lemma block_one_repeat_blocks (k n : nat) :
  k < n -> block c k (concat (repeat px n)) = px.
Proof.
  intros H. unfold block. rewrite skipn_repeat_blocks.
  replace c with (1 * c) at 1 by lia. rewrite firstn_repeat_blocks.
  replace (Nat.min 1 (n - k)) with 1 by lia. simpl. apply app_nil_r.
Qed.
End Blocks.

Lemma length_block {A} (n k : nat) (a : list A) :
  (k + 1) * n <= length a -> length (block n k a) = n.
Proof.
  intros H. unfold block. rewrite length_firstn, length_skipn. lia.
Qed.

Lemma length_concat_rows {A} (w : nat) (rows : list (list A)) :
  Forall (fun row => length row = w) rows ->
  length (concat rows) = length rows * w.
Proof.
  induction 1 as [|row rows Hrow _ IH]; simpl; [reflexivity|].
  rewrite length_app, IH, Hrow. reflexivity.
Qed.

Lemma Forall_concat {A} (P : A -> Prop) (rows : list (list A)) :
  Forall (Forall P) rows -> Forall P (concat rows).
Proof.
  induction 1; simpl; [constructor | apply Forall_app; split; assumption].
Qed.

(** Claim C2: for an image whose buffer holds width x height x 4 bytes,
    read row after row as pixels B, G, R, A, the decoder returns an array
    of [height] rows of [width] pixels, so width x height pixels, each of
    exactly 3 channels; and when the buffer repeats one colour
    [(b, g, r, a)], every pixel of the array is [(r, g, b)]. *)
Theorem decoder_shape_and_colour (image : Image) :
  length (raw_data image) = width image * height image * 4 ->
  exists array,
    carla_image_to_pygame image = Ok array /\
    length array = height image /\
    Forall (fun row => length row = width image) array /\
    length (pixels array) = width image * height image /\
    Forall (fun px => length px = 3) (pixels array) /\
    forall b g r a,
      raw_data image = constant_buffer b g r a (width image * height image) ->
      Forall (fun px => px = [r; g; b]) (pixels array).
Proof.
  destruct image as [w h data]; simpl. intros Hlen.
  unfold carla_image_to_pygame, reshape, frombuffer; simpl.
  replace (length data =? h * w * 4) with true
    by (symmetry; apply Nat.eqb_eq; lia).
  eexists; split; [reflexivity|].
  unfold reverse_channels, take_channels.
  rewrite !map_map.
  assert (Hrows : forall r, In r (seq 0 h) ->
            length (map (@rev byte) (map (firstn 3)
              (map (fun k => block 4 k (block (w * 4) r data)) (seq 0 w)))) = w).
  { intros r _. now rewrite !length_map, length_seq. }
  assert (Hall : Forall (fun row : list (list byte) => length row = w)
            (map (fun r => map (@rev byte) (map (firstn 3)
               (map (fun k => block 4 k (block (w * 4) r data)) (seq 0 w))))
               (seq 0 h))).
  { apply Forall_forall. intros row Hin. apply in_map_iff in Hin.
    destruct Hin as [r [<- Hr]]. now apply Hrows. }
  split; [now rewrite length_map, length_seq|].
  split; [exact Hall|].
  split.
  { unfold pixels. rewrite (length_concat_rows w) by exact Hall.
    rewrite length_map, length_seq. lia. }
  split.
  { unfold pixels. apply Forall_concat, Forall_forall.
    intros row Hin. apply in_map_iff in Hin. destruct Hin as [r [<- Hr]].
    apply in_seq in Hr. rewrite !map_map. apply Forall_forall.
    intros px Hpx. apply in_map_iff in Hpx. destruct Hpx as [k [<- Hk]].
    apply in_seq in Hk.
    rewrite length_rev, length_firstn, length_block; [lia|].
    rewrite length_block; nia. }
  intros b g r a Hdata.
  unfold pixels. apply Forall_concat, Forall_forall.
  intros row Hin. apply in_map_iff in Hin. destruct Hin as [i [<- Hi]].
  apply in_seq in Hi. rewrite !map_map. apply Forall_forall.
  intros px Hpx. apply in_map_iff in Hpx. destruct Hpx as [k [<- Hk]].
  apply in_seq in Hk. rewrite Hdata. unfold constant_buffer.
  rewrite (block_repeat_blocks [b; g; r; a] 4 eq_refl).
  replace (Nat.min w (w * h - i * w)) with w by nia.
  rewrite (block_one_repeat_blocks [b; g; r; a] 4 eq_refl) by lia.
  reflexivity.
Qed.

(* ================================================================== *)
(** * Running the scripts: equations *)

Local Open Scope script_scope.

Lemma add_calls_nil (s : State) : add_calls [] s = s.
Proof. destruct s; unfold add_calls; simpl. now rewrite app_nil_r. Qed.

Lemma add_calls_app (l1 l2 : list Call) (s : State) :
  add_calls l2 (add_calls l1 s) = add_calls (l1 ++ l2) s.
Proof. unfold add_calls; simpl. now rewrite app_assoc. Qed.

Lemma log_add_calls (c : Call) (l : list Call) (s : State) :
  add_calls l (log c s) = add_calls (c :: l) s.
Proof. unfold log. now rewrite add_calls_app. Qed.

Lemma trace_add_calls (l : list Call) (s : State) :
  trace (add_calls l s) = trace s ++ l.
Proof. reflexivity. Qed.

Lemma length_trace_log (c : Call) (s : State) :
  length (trace (log c s)) = S (length (trace s)).
Proof. unfold log; simpl. rewrite length_app; simpl. lia. Qed.

Lemma bind_val {A B : Type} (m : M A) (k : A -> M B) s a s' :
  m s = (Val a, s') -> bind m k s = k a s'.
Proof. unfold bind. now intros ->. Qed.

Lemma bind_ret {A B : Type} (a : A) (k : A -> M B) s :
  bind (ret a) k s = k a s.
Proof. reflexivity. Qed.

Lemma bind_raise {A B : Type} (e : exn) (k : A -> M B) s :
  bind (raise e) k s = (Exc e, s).
Proof. reflexivity. Qed.

Lemma bind_exc {A B : Type} (m : M A) (k : A -> M B) s e s' :
  m s = (Exc e, s') -> bind m k s = (Exc e, s').
Proof. unfold bind. now intros ->. Qed.

Lemma bind_return {A B : Type} (m : M A) (k : A -> M B) s s' :
  m s = (Return, s') -> bind m k s = (Return, s').
Proof. unfold bind. now intros ->. Qed.

Lemma bind_pending {A B : Type} (m : M A) (k : A -> M B) s s' :
  m s = (Pending, s') -> bind m k s = (Pending, s').
Proof. unfold bind. now intros ->. Qed.

Section Calls.
Variable env : Env.

Lemma call_ok (c : Call) (s : State) :
  raises env (length (trace s)) c = false -> call env c s = (Val tt, log c s).
Proof. unfold call. now intros ->. Qed.

Lemma call_raises (c : Call) (s : State) :
  raises env (length (trace s)) c = true ->
  call env c s = (Exc RuntimeError, log c s).
Proof. unfold call. now intros ->. Qed.

Lemma find_ok (id : string) (s : State) :
  raises env (length (trace s)) (Find id) = false ->
  find env id s = (Val {| bp_id := id; bp_attributes := [] |}, log (Find id) s).
Proof. intros H. unfold find. now rewrite (bind_val _ _ _ _ _ (call_ok _ _ H)). Qed.

Lemma get_spawn_points_ok (s : State) :
  raises env (length (trace s)) GetSpawnPoints = false ->
  get_spawn_points env s = (Val (spawn_points env), log GetSpawnPoints s).
Proof.
  intros H. unfold get_spawn_points.
  now rewrite (bind_val _ _ _ _ _ (call_ok _ _ H)).
Qed.

Lemma try_spawn_actor_ok (bp : Blueprint) (t : Transform) (s : State) :
  raises env (length (trace s)) (TrySpawnActor bp t) = false ->
  try_spawn_actor env bp t s =
    (Val (if refuses env (length (trace s)) then None
          else Some (length (trace s))),
     log (TrySpawnActor bp t) s).
Proof. intros H. unfold try_spawn_actor. now rewrite (call_ok _ _ H). Qed.

Lemma random_choice_ok (l : list string) (s : State) :
  raises env (length (trace s)) RandomChoice = false ->
  random_choice env l s =
    (Val (nth (random env (length (trace s)) mod length l) l EmptyString),
     log RandomChoice s).
Proof. intros H. unfold random_choice. now rewrite (call_ok _ _ H). Qed.

End Calls.

(* ================================================================== *)
(** * Reading traces: equations *)

Lemma acquired_from_app (env : Env) (l1 l2 : list Call) (n : nat) :
  acquired_from env n (l1 ++ l2) =
  acquired_from env n l1 ++ acquired_from env (n + length l1) l2.
Proof.
  revert n; induction l1 as [|c l1 IH]; intros n; simpl.
  - now rewrite Nat.add_0_r.
  - rewrite IH, <- app_assoc.
    now replace (S n + length l1) with (n + S (length l1)) by lia.
Qed.

Lemma released_app (l1 l2 : list Call) :
  released (l1 ++ l2) = released l1 ++ released l2.
Proof. apply flat_map_app. Qed.

Lemma requested_poses_app (l1 l2 : list Call) :
  requested_poses (l1 ++ l2) = requested_poses l1 ++ requested_poses l2.
Proof. apply flat_map_app. Qed.

Lemma autopilot_enabled_app (l1 l2 : list Call) :
  autopilot_enabled (l1 ++ l2) = autopilot_enabled l1 ++ autopilot_enabled l2.
Proof. apply flat_map_app. Qed.

Lemma calls_of_add_calls {A : Type} (m : M A) (s : State) o (l : list Call) :
  m s = (o, add_calls l s) -> calls_of m s = l.
Proof.
  intros H. unfold calls_of. rewrite H. simpl.
  rewrite skipn_app, skipn_all, Nat.sub_diag. reflexivity.
Qed.

(* ================================================================== *)
(** * The actor spawner *)

Lemma py_index_mod {A : Type} (l : list A) (i : nat) :
  l <> [] -> exists x, nth_error l (i mod length l) = Some x.
Proof.
  intros Hl. destruct (nth_error l (i mod length l)) as [x|] eqn:E.
  - now exists x.
  - apply nth_error_None in E.
    assert (length l <> 0) by (destruct l; simpl; congruence).
    pose proof (Nat.mod_upper_bound i (length l)). exfalso; lia.
Qed.

Lemma py_mod_ok (i n : nat) : n <> 0 -> py_mod i n = Ok (i mod n).
Proof. destruct n; [easy | reflexivity]. Qed.

Lemma length_nonempty {A : Type} (l : list A) : l <> [] -> length l <> 0.
Proof. destruct l; simpl; congruence. Qed.

Section QuietSpawner.
Variable env : Env.
Variable n0 : nat.
Hypothesis Hq : spawner_quiet_from env n0.

Lemma bind_find_quiet {B : Type} (id : string) (k : Blueprint -> M B) s :
  n0 <= length (trace s) ->
  bind (find env id) k s
  = k {| bp_id := id; bp_attributes := [] |} (log (Find id) s).
Proof. intros Hn. apply bind_val, find_ok, Hq; [exact Hn | reflexivity]. Qed.

Lemma bind_get_spawn_points_quiet {B : Type} (k : list Transform -> M B) s :
  n0 <= length (trace s) ->
  bind (get_spawn_points env) k s = k (spawn_points env) (log GetSpawnPoints s).
Proof.
  intros Hn. apply bind_val, get_spawn_points_ok, Hq; [exact Hn | reflexivity].
Qed.

Lemma bind_try_spawn_actor_quiet {B : Type} bp t (k : option Actor -> M B) s :
  n0 <= length (trace s) ->
  bind (try_spawn_actor env bp t) k s
  = k (if refuses env (length (trace s)) then None
       else Some (length (trace s)))
      (log (TrySpawnActor bp t) s).
Proof.
  intros Hn. apply bind_val, try_spawn_actor_ok, Hq; [exact Hn | reflexivity].
Qed.

Lemma bind_random_choice_quiet {B : Type} l (k : string -> M B) s :
  n0 <= length (trace s) ->
  bind (random_choice env l) k s
  = k (nth (random env (length (trace s)) mod length l) l EmptyString)
      (log RandomChoice s).
Proof.
  intros Hn. apply bind_val, random_choice_ok, Hq; [exact Hn | reflexivity].
Qed.

Lemma bind_set_autopilot_quiet {B : Type} a b (k : unit -> M B) s :
  n0 <= length (trace s) ->
  bind (call env (SetAutopilot a b)) k s = k tt (log (SetAutopilot a b) s).
Proof. intros Hn. apply bind_val, call_ok, Hq; [exact Hn | reflexivity]. Qed.

Lemma creates_try_spawn_quiet n bp t :
  n0 <= n ->
  creates env n (TrySpawnActor bp t) = negb (refuses env n).
Proof.
  intros Hn. simpl. now rewrite (Hq n (TrySpawnActor bp t) Hn eq_refl).
Qed.

Variable sp : list Transform.
Hypothesis Hsp : sp <> [].

Lemma AddingTraffic_spawn_loop_quiet :
  forall n a acc s, n0 <= length (trace s) -> exists added,
    AddingTraffic.spawn_loop env sp (seq a n) acc s
      = (Val (acc ++ acquired_from env (length (trace s)) added),
         add_calls added s)
    /\ spawned env sp (seq a n) s added.
Proof.
  induction n as [|n IH]; intros a acc s Hn.
  - exists []. simpl. rewrite app_nil_r, add_calls_nil.
    repeat split; constructor.
  - simpl seq. cbn [AddingTraffic.spawn_loop].
    destruct (py_index_mod sp a Hsp) as [p Hp].
    rewrite py_mod_ok by now apply length_nonempty.
    cbn [lift]. rewrite bind_ret.
    unfold py_index. rewrite Hp. cbn [lift]. rewrite bind_ret.
    rewrite bind_find_quiet, bind_try_spawn_actor_quiet
      by (rewrite ?length_trace_log; lia).
    rewrite !length_trace_log.
    set (L := length (trace s)).
    set (bp := {| bp_id := "vehicle.tesla.model3"; bp_attributes := [] |}).
    pose proof (creates_try_spawn_quiet (S L) bp p
                  ltac:(unfold L; lia)) as Hc.
    destruct (refuses env (S L)) eqn:Href.
    + match goal with
      | |- context [AddingTraffic.spawn_loop _ _ _ ?acc' ?s'] =>
          destruct (IH (S a) acc' s'
                      ltac:(rewrite !length_trace_log; lia))
            as [added [Hrun [Hposes [Hauto [Hrel Hcalls]]]]]
      end.
      rewrite !length_trace_log in Hrun, Hauto. fold L in Hrun, Hauto.
      exists (Find "vehicle.tesla.model3" :: TrySpawnActor bp p :: added).
      rewrite Hrun, !log_add_calls. fold L.
      cbn [acquired_from app]. rewrite Hc. cbn [creates negb app].
      split; [reflexivity|]. unfold spawned. fold L.
      cbn [requested_poses autopilot_enabled released flat_map map app
           acquired_from].
      rewrite Hc. cbn [creates negb app].
      fold (requested_poses added) (autopilot_enabled added) (released added).
      rewrite Hposes, Hp. repeat split; try assumption.
      repeat constructor. exact Hcalls.
    + cbv zeta. rewrite bind_set_autopilot_quiet
        by (rewrite !length_trace_log; lia).
      match goal with
      | |- context [AddingTraffic.spawn_loop _ _ _ ?acc' ?s'] =>
          destruct (IH (S a) acc' s'
                      ltac:(rewrite !length_trace_log; lia))
            as [added [Hrun [Hposes [Hauto [Hrel Hcalls]]]]]
      end.
      rewrite !length_trace_log in Hrun, Hauto. fold L in Hrun, Hauto.
      exists (Find "vehicle.tesla.model3" :: TrySpawnActor bp p
              :: SetAutopilot (S L) true :: added).
      rewrite Hrun, !log_add_calls. fold L.
      cbn [acquired_from app]. rewrite Hc. cbn [creates negb app].
      rewrite <- app_assoc. split; [reflexivity|]. unfold spawned. fold L.
      cbn [requested_poses autopilot_enabled released flat_map map app
           acquired_from].
      rewrite Hc. cbn [creates negb app].
      fold (requested_poses added) (autopilot_enabled added) (released added).
      rewrite Hposes, Hp, Hauto. repeat split; try assumption.
      repeat constructor. exact Hcalls.
Qed.

Lemma BasicEgentFirstTime_spawn_loop_quiet :
  forall n a acc s, n0 <= length (trace s) -> exists added,
    BasicEgentFirstTime.spawn_loop env sp (seq a n) acc s
      = (Val (acc ++ acquired_from env (length (trace s)) added),
         add_calls added s)
    /\ spawned env sp (seq a n) s added.
Proof.
  induction n as [|n IH]; intros a acc s Hn.
  - exists []. simpl. rewrite app_nil_r, add_calls_nil.
    repeat split; constructor.
  - simpl seq. cbn [BasicEgentFirstTime.spawn_loop].
    destruct (py_index_mod sp a Hsp) as [p Hp].
    rewrite py_mod_ok by now apply length_nonempty.
    cbn [lift]. rewrite bind_ret.
    unfold py_index. rewrite Hp. cbn [lift]. rewrite bind_ret.
    rewrite bind_random_choice_quiet, bind_find_quiet,
      bind_try_spawn_actor_quiet by (rewrite ?length_trace_log; lia).
    rewrite !length_trace_log.
    set (L := length (trace s)).
    set (ty := nth _ BasicEgentFirstTime.vehicle_types EmptyString).
    set (bp := {| bp_id := ty; bp_attributes := [] |}).
    pose proof (creates_try_spawn_quiet (S (S L)) bp p
                  ltac:(unfold L; lia)) as Hc.
    destruct (refuses env (S (S L))) eqn:Href.
    + match goal with
      | |- context [BasicEgentFirstTime.spawn_loop _ _ _ ?acc' ?s'] =>
          destruct (IH (S a) acc' s'
                      ltac:(rewrite !length_trace_log; lia))
            as [added [Hrun [Hposes [Hauto [Hrel Hcalls]]]]]
      end.
      rewrite !length_trace_log in Hrun, Hauto. fold L in Hrun, Hauto.
      exists (RandomChoice :: Find ty :: TrySpawnActor bp p :: added).
      rewrite Hrun, !log_add_calls. fold L.
      cbn [acquired_from app]. rewrite Hc. cbn [creates negb app].
      split; [reflexivity|]. unfold spawned. fold L.
      cbn [requested_poses autopilot_enabled released flat_map map app
           acquired_from].
      rewrite Hc. cbn [creates negb app].
      fold (requested_poses added) (autopilot_enabled added) (released added).
      rewrite Hposes, Hp. repeat split; try assumption.
      repeat constructor. exact Hcalls.
    + cbv zeta. rewrite bind_set_autopilot_quiet
        by (rewrite !length_trace_log; lia).
      match goal with
      | |- context [BasicEgentFirstTime.spawn_loop _ _ _ ?acc' ?s'] =>
          destruct (IH (S a) acc' s'
                      ltac:(rewrite !length_trace_log; lia))
            as [added [Hrun [Hposes [Hauto [Hrel Hcalls]]]]]
      end.
      rewrite !length_trace_log in Hrun, Hauto. fold L in Hrun, Hauto.
      exists (RandomChoice :: Find ty :: TrySpawnActor bp p
              :: SetAutopilot (S (S L)) true :: added).
      rewrite Hrun, !log_add_calls. fold L.
      cbn [acquired_from app]. rewrite Hc. cbn [creates negb app].
      rewrite <- app_assoc. split; [reflexivity|]. unfold spawned. fold L.
      cbn [requested_poses autopilot_enabled released flat_map map app
           acquired_from].
      rewrite Hc. cbn [creates negb app].
      fold (requested_poses added) (autopilot_enabled added) (released added).
      rewrite Hposes, Hp, Hauto. repeat split; try assumption.
      repeat constructor. exact Hcalls.
Qed.

End QuietSpawner.

Lemma spawner_quiet_from_0 (env : Env) :
  spawner_quiet env -> spawner_quiet_from env 0.
Proof. intros Hq n c _ Hc. now apply Hq. Qed.

Lemma acquired_le_requests (env : Env) (l : list Call) (n : nat) :
  Forall (fun c => spawner_call c = true) l ->
  length (acquired_from env n l) <= length (requested_poses l).
Proof.
  intros H; revert n; induction H as [|c l Hc _ IH]; intros n; simpl.
  - lia.
  - rewrite !length_app. specialize (IH (S n)).
    destruct c; simpl in *; try discriminate; try exact IH.
    match goal with |- context [if ?b then _ else _] => destruct b end;
      simpl; [apply le_n_S | apply Nat.le_le_succ_r]; exact IH.
Qed.

Lemma spawned_report (env : Env) (num_cars : nat) (s : State)
    (added : list Call) :
  spawned env (spawn_points env) (seq 0 num_cars) (log GetSpawnPoints s) added ->
  spawner_report env num_cars s
    (acquired_from env (length (trace s)) (GetSpawnPoints :: added))
    (GetSpawnPoints :: added).
Proof.
  intros [Hposes [Hauto [_ Hcalls]]].
  rewrite length_trace_log in Hauto. unfold spawner_report.
  cbn [requested_poses autopilot_enabled flat_map acquired_from creates app].
  fold (requested_poses added) (autopilot_enabled added).
  repeat split.
  - apply (f_equal (@length _)) in Hposes.
    now rewrite !length_map, length_seq in Hposes.
  - exact Hauto.
  - etransitivity; [apply acquired_le_requests, Hcalls|].
    apply (f_equal (@length _)) in Hposes.
    rewrite !length_map, length_seq in Hposes. lia.
Qed.

Lemma cyclic_requests (sp : list Transform) (reqs : list Transform)
    (num_cars i : nat) :
  map Some reqs = map (fun i => nth_error sp (i mod length sp)) (seq 0 num_cars) ->
  sp <> [] ->
  i + length sp < num_cars ->
  exists p,
    nth_error reqs i = Some p /\
    nth_error reqs (i + length sp) = Some p /\
    nth_error sp (i mod length sp) = Some p.
Proof.
  intros Hmap Hsp Hi.
  assert (Hnth : forall j, j < num_cars ->
            nth_error reqs j = nth_error sp (j mod length sp)).
  { intros j Hj.
    pose proof (f_equal (fun l => nth_error l j) Hmap) as E. cbv beta in E.
    rewrite !nth_error_map in E.
    rewrite (nth_error_nth' (seq 0 num_cars) 0) in E
      by now rewrite length_seq.
    rewrite seq_nth in E by assumption. simpl in E.
    destruct (nth_error reqs j); simpl in E; congruence. }
  destruct (py_index_mod sp i Hsp) as [p Hp].
  exists p. rewrite !Hnth by lia.
  replace ((i + length sp) mod length sp) with (i mod length sp).
  - auto.
  - pose proof (length_nonempty sp Hsp).
    rewrite <- (Nat.Div0.add_mod_idemp_r i (length sp)), Nat.Div0.mod_same.
    now rewrite Nat.add_0_r.
Qed.

(** Claim C6: with [M] poses, [0 < M < num_cars], and a simulator whose
    calls do not raise, the creation requests of units [i] and [i + M]
    carry the same pose, the one at index [i mod M] of the pose list, for
    every [i] with [i + M < num_cars]. *)
Theorem spawner_cycles_poses (env : Env) (num_cars i : nat) (s : State) :
  spawn_points env <> [] ->
  length (spawn_points env) < num_cars ->
  i + length (spawn_points env) < num_cars ->
  spawner_quiet env ->
  (exists p,
     let reqs := requested_poses
                   (calls_of (AddingTraffic.spawn_traffic_cars env num_cars) s) in
     nth_error reqs i = Some p /\
     nth_error reqs (i + length (spawn_points env)) = Some p /\
     nth_error (spawn_points env) (i mod length (spawn_points env)) = Some p) /\
  (exists p,
     let reqs := requested_poses
                   (calls_of (BasicEgentFirstTime.spawn_traffic_cars env num_cars) s) in
     nth_error reqs i = Some p /\
     nth_error reqs (i + length (spawn_points env)) = Some p /\
     nth_error (spawn_points env) (i mod length (spawn_points env)) = Some p).
Proof.
  intros Hsp _ Hi Hq. apply spawner_quiet_from_0 in Hq. split.
  - unfold calls_of, AddingTraffic.spawn_traffic_cars.
    rewrite (bind_get_spawn_points_quiet env 0 Hq) by lia.
    destruct (AddingTraffic_spawn_loop_quiet env 0 Hq _ Hsp num_cars 0 []
                (log GetSpawnPoints s) (Nat.le_0_l _))
      as [added [Hrun [Hposes _]]].
    rewrite Hrun, log_add_calls. cbn [snd trace add_calls].
    rewrite skipn_app, skipn_all, Nat.sub_diag. cbn [skipn app].
    cbn [requested_poses flat_map app]. fold (requested_poses added).
    now apply cyclic_requests with (num_cars := num_cars).
  - unfold calls_of, BasicEgentFirstTime.spawn_traffic_cars.
    rewrite (bind_get_spawn_points_quiet env 0 Hq) by lia.
    destruct (BasicEgentFirstTime_spawn_loop_quiet env 0 Hq _ Hsp num_cars 0 []
                (log GetSpawnPoints s) (Nat.le_0_l _))
      as [added [Hrun [Hposes _]]].
    rewrite Hrun, log_add_calls. cbn [snd trace add_calls].
    rewrite skipn_app, skipn_all, Nat.sub_diag. cbn [skipn app].
    cbn [requested_poses flat_map app]. fold (requested_poses added).
    now apply cyclic_requests with (num_cars := num_cars).
Qed.

(** Claim C9: when the pose list the spawner obtains is empty and at
    least one unit is requested, [spawn_traffic_cars] ends with
    [ZeroDivisionError], raised by [i % len(spawn_points)] for the first
    unit; the only call it has made is the one that fetched the pose
    list, so no creation request was attempted. *)
Theorem spawner_empty_poses_raises (env : Env) (num_cars : nat) (s : State) :
  spawn_points env = [] ->
  1 <= num_cars ->
  raises env (length (trace s)) GetSpawnPoints = false ->
  AddingTraffic.spawn_traffic_cars env num_cars s
    = (Exc ZeroDivisionError, log GetSpawnPoints s) /\
  BasicEgentFirstTime.spawn_traffic_cars env num_cars s
    = (Exc ZeroDivisionError, log GetSpawnPoints s) /\
  requested_poses
    (calls_of (AddingTraffic.spawn_traffic_cars env num_cars) s) = [] /\
  requested_poses
    (calls_of (BasicEgentFirstTime.spawn_traffic_cars env num_cars) s) = [].
Proof.
  intros Hsp Hn Hr.
  assert (HA : AddingTraffic.spawn_traffic_cars env num_cars s
               = (Exc ZeroDivisionError, log GetSpawnPoints s)).
  { unfold AddingTraffic.spawn_traffic_cars.
    rewrite (bind_val _ _ _ _ _ (get_spawn_points_ok env s Hr)), Hsp.
    destruct num_cars; [lia | reflexivity]. }
  assert (HB : BasicEgentFirstTime.spawn_traffic_cars env num_cars s
               = (Exc ZeroDivisionError, log GetSpawnPoints s)).
  { unfold BasicEgentFirstTime.spawn_traffic_cars.
    rewrite (bind_val _ _ _ _ _ (get_spawn_points_ok env s Hr)), Hsp.
    destruct num_cars; [lia | reflexivity]. }
  repeat split; try assumption.
  - now rewrite (calls_of_add_calls _ s _ [GetSpawnPoints] HA).
  - now rewrite (calls_of_add_calls _ s _ [GetSpawnPoints] HB).
Qed.

(* ================================================================== *)
(** * The latest-frame slot *)

Lemma deliver_app (fs gs : list Image) (s : State) :
  deliver (fs ++ gs) s = deliver gs (snd (deliver fs s)).
Proof.
  unfold deliver.
  revert s; induction fs as [|f fs IH]; intros s; [reflexivity|].
  cbn [app for_each]. unfold bind, process_image. simpl. apply IH.
Qed.

(* ================================================================== *)
(** * Rules for specifications *)

Section Rules.
Variable env : Env.

Lemma triple_bind {A B : Type} (P : State -> Prop) (m : M A) (k : A -> M B)
    (Q : A -> State -> Prop) (Q' : B -> State -> Prop) E :
  triple P m Q E ->
  (forall a, triple (Q a) (k a) Q' E) ->
  triple P (bind m k) Q' E.
Proof.
  intros Hm Hk s Hs. specialize (Hm s Hs). unfold bind.
  destruct (m s) as [[a| |e|] s']; simpl in *; try assumption.
  now apply Hk.
Qed.

Lemma triple_weaken {A : Type} (P P' : State -> Prop) (m : M A)
    (Q Q' : A -> State -> Prop) (E E' : stop -> State -> Prop) :
  triple P' m Q' E' ->
  (forall s, P s -> P' s) ->
  (forall a s, Q' a s -> Q a s) ->
  (forall w s, E' w s -> E w s) ->
  triple P m Q E.
Proof.
  intros Hm HP HQ HE s Hs. specialize (Hm s (HP s Hs)).
  destruct (fst (m s)); simpl in *; auto.
Qed.

Lemma triple_ret {A : Type} (P : State -> Prop) (a : A) Q E :
  (forall s, P s -> Q a s) -> triple P (ret a) Q E.
Proof. intros H s Hs. now apply H. Qed.

Lemma triple_return {A : Type} (P : State -> Prop) (Q : A -> State -> Prop) E :
  (forall s, P s -> E ByReturn s) -> triple P return_ Q E.
Proof. intros H s Hs. now apply H. Qed.

Lemma triple_raise {A : Type} (P : State -> Prop) e (Q : A -> State -> Prop) E :
  (forall s, P s -> E (ByExc e) s) -> triple P (raise e) Q E.
Proof. intros H s Hs. now apply H. Qed.

Lemma triple_pending {A : Type} (P : State -> Prop) (Q : A -> State -> Prop) E :
  (forall s, P s -> E ByPending s) -> triple P pending Q E.
Proof. intros H s Hs. now apply H. Qed.

Lemma triple_lift {A : Type} (P : State -> Prop) (r : result A) Q E :
  (forall a s, r = Ok a -> P s -> Q a s) ->
  (forall e s, r = Raise e -> P s -> E (ByExc e) s) ->
  triple P (lift r) Q E.
Proof. intros H1 H2 s Hs. destruct r; simpl; auto. Qed.

Lemma triple_read {A : Type} (P : State -> Prop) (get : State -> A) Q E :
  (forall s, P s -> Q (get s) s) -> triple P (read get) Q E.
Proof. intros H s Hs. now apply H. Qed.

Lemma triple_assign {A : Type} (P : State -> Prop)
    (set : A -> State -> State) (v : A) Q E :
  (forall s, P s -> Q tt (set v s)) -> triple P (assign set v) Q E.
Proof. intros H s Hs. now apply H. Qed.

Lemma triple_store {A : Type} (P : State -> Prop)
    (set : A -> State -> State) (m : M A) Q Q' E :
  triple P m Q' E ->
  (forall a s, Q' a s -> Q a (set a s)) ->
  triple P (store set m) Q E.
Proof.
  intros Hm H s Hs. specialize (Hm s Hs). unfold store.
  destruct (m s) as [[a| |e|] s']; simpl in *; auto.
Qed.

(** A call: the state it leaves is [log c s], whether it raises or not. *)
Lemma triple_call (P : State -> Prop) (c : Call) Q E :
  (forall s, P s -> raises env (length (trace s)) c = false -> Q tt (log c s)) ->
  (forall s, P s -> raises env (length (trace s)) c = true ->
             E (ByExc RuntimeError) (log c s)) ->
  triple P (call env c) Q E.
Proof.
  intros H1 H2 s Hs. unfold call.
  destruct (raises env (length (trace s)) c) eqn:Hr; simpl; auto.
Qed.

Lemma triple_find (P : State -> Prop) (id : string) Q E :
  (forall s, P s -> raises env (length (trace s)) (Find id) = false ->
             Q {| bp_id := id; bp_attributes := [] |} (log (Find id) s)) ->
  (forall s, P s -> raises env (length (trace s)) (Find id) = true ->
             E (ByExc RuntimeError) (log (Find id) s)) ->
  triple P (find env id) Q E.
Proof.
  intros H1 H2 s Hs. unfold find, bind, call.
  destruct (raises env (length (trace s)) (Find id)) eqn:Hr; simpl; auto.
Qed.

Lemma triple_get_spawn_points (P : State -> Prop) Q E :
  (forall s, P s -> raises env (length (trace s)) GetSpawnPoints = false ->
             Q (spawn_points env) (log GetSpawnPoints s)) ->
  (forall s, P s -> raises env (length (trace s)) GetSpawnPoints = true ->
             E (ByExc RuntimeError) (log GetSpawnPoints s)) ->
  triple P (get_spawn_points env) Q E.
Proof.
  intros H1 H2 s Hs. unfold get_spawn_points, bind, call.
  destruct (raises env (length (trace s)) GetSpawnPoints) eqn:Hr; simpl; auto.
Qed.

Lemma triple_try_spawn_actor (P : State -> Prop) bp t Q E :
  (forall s, P s ->
     raises env (length (trace s)) (TrySpawnActor bp t) = false ->
     Q (if refuses env (length (trace s)) then None
        else Some (length (trace s)))
       (log (TrySpawnActor bp t) s)) ->
  (forall s, P s ->
     raises env (length (trace s)) (TrySpawnActor bp t) = true ->
     E (ByExc RuntimeError) (log (TrySpawnActor bp t) s)) ->
  triple P (try_spawn_actor env bp t) Q E.
Proof.
  intros H1 H2 s Hs. unfold try_spawn_actor, call.
  destruct (raises env (length (trace s)) (TrySpawnActor bp t)) eqn:Hr;
    simpl; auto.
Qed.

Lemma triple_spawn_actor (P : State -> Prop) bp t parent Q E :
  (forall s, P s ->
     raises env (length (trace s)) (SpawnActor bp t parent) = false ->
     refuses env (length (trace s)) = false ->
     Q (length (trace s)) (log (SpawnActor bp t parent) s)) ->
  (forall s, P s ->
     raises env (length (trace s)) (SpawnActor bp t parent) = true \/
     refuses env (length (trace s)) = true ->
     E (ByExc RuntimeError) (log (SpawnActor bp t parent) s)) ->
  triple P (spawn_actor env bp t parent) Q E.
Proof.
  intros H1 H2 s Hs. unfold spawn_actor, call.
  destruct (raises env (length (trace s)) (SpawnActor bp t parent)) eqn:Hr;
    simpl; auto.
  destruct (refuses env (length (trace s))) eqn:Hf; simpl; auto.
Qed.

Lemma triple_destroy (P : State -> Prop) a Q E :
  (forall s, P s -> raises env (length (trace s)) (Destroy a) = false ->
             Q (negb (already_dead env (length (trace s)))) (log (Destroy a) s)) ->
  (forall s, P s -> raises env (length (trace s)) (Destroy a) = true ->
             E (ByExc RuntimeError) (log (Destroy a) s)) ->
  triple P (destroy env a) Q E.
Proof.
  intros H1 H2 s Hs. unfold destroy, call.
  destruct (raises env (length (trace s)) (Destroy a)) eqn:Hr; simpl; auto.
Qed.

Lemma triple_random_choice (P : State -> Prop) l Q E :
  (forall s, P s -> raises env (length (trace s)) RandomChoice = false ->
             Q (nth (random env (length (trace s)) mod length l) l EmptyString)
               (log RandomChoice s)) ->
  (forall s, P s -> raises env (length (trace s)) RandomChoice = true ->
             E (ByExc RuntimeError) (log RandomChoice s)) ->
  triple P (random_choice env l) Q E.
Proof.
  intros H1 H2 s Hs. unfold random_choice, call.
  destruct (raises env (length (trace s)) RandomChoice) eqn:Hr; simpl; auto.
Qed.

Lemma triple_run_step (P : State -> Prop) Q E :
  (forall s, P s -> raises env (length (trace s)) RunStep = false ->
             Q (next_control env (length (trace s))) (log RunStep s)) ->
  (forall s, P s -> raises env (length (trace s)) RunStep = true ->
             E (ByExc RuntimeError) (log RunStep s)) ->
  triple P (run_step env) Q E.
Proof.
  intros H1 H2 s Hs. unfold run_step, call.
  destruct (raises env (length (trace s)) RunStep) eqn:Hr; simpl; auto.
Qed.

Lemma triple_event_get (P : State -> Prop) (t : Tick) Q E :
  (forall s, P s -> Q (events t) (log (EventGet (events t)) s)) ->
  triple P (event_get t) Q E.
Proof. intros H s Hs. now apply H. Qed.

Lemma triple_for_each {A : Type} (I : State -> Prop) (l : list A)
    (body : A -> M unit) E :
  (forall x, In x l -> triple I (body x) (fun _ => I) E) ->
  triple I (for_each l body) (fun _ => I) E.
Proof.
  induction l as [|x l IH]; intros H.
  - now apply triple_ret.
  - cbn [for_each]. eapply triple_bind.
    + apply H. now left.
    + intros ?. apply IH. intros y Hy. apply H. now right.
Qed.

End Rules.

Lemma triple_pure {A : Type} (phi : Prop) (P : State -> Prop) (m : M A) Q E :
  (phi -> triple P m Q E) -> triple (fun s => P s /\ phi) m Q E.
Proof. intros H s [Hs Hphi]. now apply H. Qed.

(* ================================================================== *)
(** * What the spawner returns *)

(** A spawner that returns has made calls that did not raise. *)
(* ================================================================== *)
(** * Calls that raised *)

Section Raised.
Variable env : Env.
Variable p : Call -> bool.
Variable n0 : nat.


Lemma raised_in_log (c : Call) (s : State) :
  n0 <= length (trace s) -> p c = true ->
  raises env (length (trace s)) c = true ->
  raised_in env p n0 (trace (log c s)).
Proof.
  intros Hn Hp Hr. exists (length (trace s)), c.
  split; [|now repeat split].
  unfold log. rewrite trace_add_calls, nth_error_app2 by apply Nat.le_refl.
  now rewrite Nat.sub_diag.
Qed.

Lemma calls_quiet_not_raised (tr : list Call) :
  calls_quiet env p n0 tr -> raised_in env p n0 tr -> False.
Proof.
  intros Hq [n [c [Hn [Hle [Hp Hr]]]]].
  rewrite (Hq n c Hn Hle Hp) in Hr. discriminate.
Qed.

Lemma calls_quietb_from (k : nat) (tr : list Call) :
  calls_quietb env p n0 k tr = true ->
  forall n c, nth_error tr n = Some c -> n0 <= k + n -> p c = true ->
              raises env (k + n) c = false.
Proof.
  revert k; induction tr as [|c tr IH]; intros k H n c' Hn Hle Hp;
    [now destruct n|].
  cbn [calls_quietb] in H. apply andb_true_iff in H. destruct H as [H1 H2].
  destruct n as [|n]; simpl in Hn.
  - injection Hn as <-. rewrite Nat.add_0_r in *.
    apply Nat.leb_le in Hle. rewrite Hle, Hp in H1. simpl in H1.
    now apply negb_true_iff in H1.
  - rewrite Nat.add_succ_r in *. now apply (IH (S k) H2 n c').
Qed.

Lemma calls_quietb_ok (tr : list Call) :
  calls_quietb env p n0 0 tr = true -> calls_quiet env p n0 tr.
Proof. intros H n c. now apply (calls_quietb_from 0 tr H n c). Qed.

End Raised.


(** The spawner is left by an exception only when one of its calls
    raises. *)
Section RaisingSpawner.
Variable env : Env.
Variable n0 : nat.

Let J : State -> Prop := fun s => n0 <= length (trace s).
Let X : stop -> State -> Prop :=
  fun _ s => raised_in env spawner_call n0 (trace s).

Lemma J_log (c : Call) (s : State) : J s -> J (log c s).
Proof. unfold J. rewrite length_trace_log. lia. Qed.

Lemma raising_call (c : Call) :
  spawner_call c = true -> triple J (call env c) (fun _ => J) X.
Proof.
  intros Hc. apply triple_call; intros s Hs Hr;
    [now apply J_log | now apply raised_in_log].
Qed.

Lemma raising_find (id : string) : triple J (find env id) (fun _ => J) X.
Proof.
  apply triple_find; intros s Hs Hr;
    [now apply J_log | now apply raised_in_log].
Qed.

Lemma raising_try_spawn_actor bp t :
  triple J (try_spawn_actor env bp t) (fun _ => J) X.
Proof.
  apply triple_try_spawn_actor; intros s Hs Hr;
    [now apply J_log | now apply raised_in_log].
Qed.

Lemma raising_random_choice l :
  triple J (random_choice env l) (fun _ => J) X.
Proof.
  apply triple_random_choice; intros s Hs Hr;
    [now apply J_log | now apply raised_in_log].
Qed.

Lemma raising_pose (sp : list Transform) (i : nat) {A : Type}
    (k : Transform -> M A) (Q : A -> State -> Prop) :
  sp <> [] ->
  (forall spawn_point, triple J (k spawn_point) Q X) ->
  triple J (k' <- lift (py_mod i (length sp)) ;;
            spawn_point <- lift (py_index sp k') ;;
            k spawn_point)%script Q X.
Proof.
  intros Hsp Hk s Hs.
  rewrite py_mod_ok by now apply length_nonempty.
  cbn [lift]. rewrite bind_ret.
  destruct (py_index_mod sp i Hsp) as [x Hx].
  unfold py_index. rewrite Hx. cbn [lift]. rewrite bind_ret.
  now apply Hk.
Qed.

Lemma AddingTraffic_raising_spawner (num_cars : nat) :
  spawn_points env <> [] ->
  triple J (AddingTraffic.spawn_traffic_cars env num_cars) (fun _ => J) X.
Proof.
  intros Hsp. unfold AddingTraffic.spawn_traffic_cars.
  eapply triple_bind
    with (Q := fun sps s => J s /\ sps = spawn_points env).
  { apply triple_get_spawn_points; intros s Hs Hr;
      [split; [now apply J_log | reflexivity] | now apply raised_in_log]. }
  intros sps. apply triple_pure. intros ->.
  generalize (@nil Actor). generalize (seq 0 num_cars).
  induction l as [|i units IH]; intros acc; cbn [AddingTraffic.spawn_loop].
  - now apply triple_ret.
  - apply raising_pose; [exact Hsp | intros spawn_point].
    eapply triple_bind; [apply raising_find | intros bp].
    eapply triple_bind; [apply raising_try_spawn_actor | intros [v|]].
    + eapply triple_bind; [now apply raising_call | intros ?]. apply IH.
    + apply IH.
Qed.

Lemma BasicEgentFirstTime_raising_spawner (num_cars : nat) :
  spawn_points env <> [] ->
  triple J (BasicEgentFirstTime.spawn_traffic_cars env num_cars)
    (fun _ => J) X.
Proof.
  intros Hsp. unfold BasicEgentFirstTime.spawn_traffic_cars.
  eapply triple_bind
    with (Q := fun sps s => J s /\ sps = spawn_points env).
  { apply triple_get_spawn_points; intros s Hs Hr;
      [split; [now apply J_log | reflexivity] | now apply raised_in_log]. }
  intros sps. apply triple_pure. intros ->.
  generalize (@nil Actor). generalize (seq 0 num_cars).
  induction l as [|i units IH]; intros acc;
    cbn [BasicEgentFirstTime.spawn_loop].
  - now apply triple_ret.
  - apply raising_pose; [exact Hsp | intros spawn_point].
    eapply triple_bind; [apply raising_random_choice | intros ty].
    eapply triple_bind; [apply raising_find | intros bp].
    eapply triple_bind; [apply raising_try_spawn_actor | intros [v|]].
    + eapply triple_bind; [now apply raising_call | intros ?]. apply IH.
    + apply IH.
Qed.

End RaisingSpawner.

(* ------------------------------------------------------------------ *)
(** ** A spawner that returns *)

Lemma none_raised_nil (env : Env) (n : nat) : none_raised env n [].
Proof. intros i c Hi. now destruct i. Qed.

Lemma none_raised_cons (env : Env) (n : nat) (c : Call) (l : list Call) :
  raises env n c = false -> none_raised env (S n) l ->
  none_raised env n (c :: l).
Proof.
  intros Hc Hl [|i] c' Hi; simpl in Hi.
  - injection Hi as <-. now rewrite Nat.add_0_r.
  - rewrite Nat.add_succ_r. now apply Hl.
Qed.

Lemma py_mod_inv (i n k : nat) : py_mod i n = Ok k -> k = i mod n.
Proof. destruct n; [discriminate | now intros [= <-]]. Qed.

Lemma py_index_inv {A : Type} (l : list A) (k : nat) (x : A) :
  py_index l k = Ok x -> nth_error l k = Some x.
Proof.
  unfold py_index. destruct (nth_error l k); [now intros [= <-] | discriminate].
Qed.

Section Inversion.
Variable env : Env.
Context {B : Type}.

Lemma bind_lift_val {A : Type} (r : result A) (k : A -> M B) s b s' :
  bind (lift r) k s = (Val b, s') ->
  exists a, r = Ok a /\ k a s = (Val b, s').
Proof. destruct r as [a|e]; [now exists a | discriminate]. Qed.

Lemma bind_call_val (c : Call) (k : unit -> M B) s b s' :
  bind (call env c) k s = (Val b, s') ->
  raises env (length (trace s)) c = false /\ k tt (log c s) = (Val b, s').
Proof.
  unfold bind, call. now destruct (raises env (length (trace s)) c).
Qed.

Lemma bind_find_val (id : string) (k : Blueprint -> M B) s b s' :
  bind (find env id) k s = (Val b, s') ->
  raises env (length (trace s)) (Find id) = false /\
  k {| bp_id := id; bp_attributes := [] |} (log (Find id) s) = (Val b, s').
Proof.
  unfold bind, find, bind, ret, call.
  now destruct (raises env (length (trace s)) (Find id)).
Qed.

Lemma bind_get_spawn_points_val (k : list Transform -> M B) s b s' :
  bind (get_spawn_points env) k s = (Val b, s') ->
  raises env (length (trace s)) GetSpawnPoints = false /\
  k (spawn_points env) (log GetSpawnPoints s) = (Val b, s').
Proof.
  unfold bind, get_spawn_points, bind, ret, call.
  now destruct (raises env (length (trace s)) GetSpawnPoints).
Qed.

Lemma bind_try_spawn_actor_val bp t (k : option Actor -> M B) s b s' :
  bind (try_spawn_actor env bp t) k s = (Val b, s') ->
  raises env (length (trace s)) (TrySpawnActor bp t) = false /\
  k (if refuses env (length (trace s)) then None
     else Some (length (trace s)))
    (log (TrySpawnActor bp t) s) = (Val b, s').
Proof.
  unfold bind, try_spawn_actor, call.
  now destruct (raises env (length (trace s)) (TrySpawnActor bp t)).
Qed.

Lemma bind_random_choice_val l (k : string -> M B) s b s' :
  bind (random_choice env l) k s = (Val b, s') ->
  raises env (length (trace s)) RandomChoice = false /\
  k (nth (random env (length (trace s)) mod length l) l EmptyString)
    (log RandomChoice s) = (Val b, s').
Proof.
  unfold bind, random_choice, call.
  now destruct (raises env (length (trace s)) RandomChoice).
Qed.

End Inversion.

Section ReturningSpawner.
Variable env : Env.
Variable sp : list Transform.

(** What is known of a run of the loop that came to its end. *)
Let returned (units : list nat) (acc : list Actor) (s : State)
    (cars : list Actor) (s' : State) : Prop :=
  exists added,
    s' = add_calls added s /\
    cars = acc ++ acquired_from env (length (trace s)) added /\
    spawned env sp units s added /\
    none_raised env (length (trace s)) added.

Lemma AddingTraffic_spawn_loop_returns :
  forall n a acc s cars s',
    AddingTraffic.spawn_loop env sp (seq a n) acc s = (Val cars, s') ->
    returned (seq a n) acc s cars s'.
Proof.
  induction n as [|n IH]; intros a acc s cars s' Hrun.
  - simpl in Hrun. injection Hrun as <- <-. exists [].
    rewrite app_nil_r, add_calls_nil.
    repeat split; try constructor. apply none_raised_nil.
  - simpl seq in *. cbn [AddingTraffic.spawn_loop] in Hrun.
    apply bind_lift_val in Hrun. destruct Hrun as [k [Hk Hrun]].
    apply py_mod_inv in Hk. subst k.
    apply bind_lift_val in Hrun. destruct Hrun as [p [Hp Hrun]].
    apply py_index_inv in Hp.
    apply bind_find_val in Hrun. destruct Hrun as [Hf Hrun].
    apply bind_try_spawn_actor_val in Hrun. destruct Hrun as [Ht Hrun].
    rewrite !length_trace_log in Ht, Hrun.
    set (L := length (trace s)) in *.
    set (bp := {| bp_id := "vehicle.tesla.model3"; bp_attributes := [] |})
      in *.
    assert (Hc : creates env (S L) (TrySpawnActor bp p)
                 = negb (refuses env (S L))) by (simpl; now rewrite Ht).
    destruct (refuses env (S L)) eqn:Href.
    + apply IH in Hrun.
      destruct Hrun as [added [-> [-> [[Hposes [Hauto [Hrel Hcalls]]] Hnr]]]].
      rewrite !length_trace_log in Hauto, Hnr |- *. fold L in Hauto, Hnr |- *.
      exists (Find "vehicle.tesla.model3" :: TrySpawnActor bp p :: added).
      rewrite !log_add_calls. fold L.
      cbn [acquired_from app]. rewrite Hc. cbn [creates negb app].
      split; [reflexivity|]. split; [reflexivity|]. split.
      * unfold spawned. fold L.
        cbn [requested_poses autopilot_enabled released flat_map map app
             acquired_from].
        rewrite Hc. cbn [creates negb app].
        fold (requested_poses added) (autopilot_enabled added)
          (released added).
        rewrite Hposes, Hp. repeat split; try assumption.
        repeat constructor. exact Hcalls.
      * now repeat apply none_raised_cons.
    + cbv zeta in Hrun.
      apply bind_call_val in Hrun. destruct Hrun as [Ha Hrun].
      rewrite !length_trace_log in Ha. fold L in Ha.
      apply IH in Hrun.
      destruct Hrun as [added [-> [-> [[Hposes [Hauto [Hrel Hcalls]]] Hnr]]]].
      rewrite !length_trace_log in Hauto, Hnr |- *. fold L in Hauto, Hnr |- *.
      exists (Find "vehicle.tesla.model3" :: TrySpawnActor bp p
              :: SetAutopilot (S L) true :: added).
      rewrite !log_add_calls. fold L.
      cbn [acquired_from app]. rewrite Hc. cbn [creates negb app].
      rewrite <- app_assoc.
      split; [reflexivity|]. split; [reflexivity|]. split.
      * unfold spawned. fold L.
        cbn [requested_poses autopilot_enabled released flat_map map app
             acquired_from].
        rewrite Hc. cbn [creates negb app].
        fold (requested_poses added) (autopilot_enabled added)
          (released added).
        rewrite Hposes, Hp, Hauto. repeat split; try assumption.
        repeat constructor. exact Hcalls.
      * now repeat apply none_raised_cons.
Qed.

Lemma BasicEgentFirstTime_spawn_loop_returns :
  forall n a acc s cars s',
    BasicEgentFirstTime.spawn_loop env sp (seq a n) acc s = (Val cars, s') ->
    returned (seq a n) acc s cars s'.
Proof.
  induction n as [|n IH]; intros a acc s cars s' Hrun.
  - simpl in Hrun. injection Hrun as <- <-. exists [].
    rewrite app_nil_r, add_calls_nil.
    repeat split; try constructor. apply none_raised_nil.
  - simpl seq in *. cbn [BasicEgentFirstTime.spawn_loop] in Hrun.
    apply bind_lift_val in Hrun. destruct Hrun as [k [Hk Hrun]].
    apply py_mod_inv in Hk. subst k.
    apply bind_lift_val in Hrun. destruct Hrun as [p [Hp Hrun]].
    apply py_index_inv in Hp.
    apply bind_random_choice_val in Hrun. destruct Hrun as [Hr Hrun].
    apply bind_find_val in Hrun. destruct Hrun as [Hf Hrun].
    apply bind_try_spawn_actor_val in Hrun. destruct Hrun as [Ht Hrun].
    repeat rewrite length_trace_log in Hf.
    repeat rewrite length_trace_log in Ht.
    repeat rewrite length_trace_log in Hrun.
    set (L := length (trace s)) in *.
    set (ty := nth _ BasicEgentFirstTime.vehicle_types EmptyString) in *.
    set (bp := {| bp_id := ty; bp_attributes := [] |}) in *.
    assert (Hc : creates env (S (S L)) (TrySpawnActor bp p)
                 = negb (refuses env (S (S L)))) by (simpl; now rewrite Ht).
    destruct (refuses env (S (S L))) eqn:Href.
    + apply IH in Hrun.
      destruct Hrun as [added [-> [-> [[Hposes [Hauto [Hrel Hcalls]]] Hnr]]]].
      rewrite !length_trace_log in Hauto, Hnr |- *. fold L in Hauto, Hnr |- *.
      exists (RandomChoice :: Find ty :: TrySpawnActor bp p :: added).
      rewrite !log_add_calls. fold L.
      cbn [acquired_from app]. rewrite Hc. cbn [creates negb app].
      split; [reflexivity|]. split; [reflexivity|]. split.
      * unfold spawned. fold L.
        cbn [requested_poses autopilot_enabled released flat_map map app
             acquired_from].
        rewrite Hc. cbn [creates negb app].
        fold (requested_poses added) (autopilot_enabled added)
          (released added).
        rewrite Hposes, Hp. repeat split; try assumption.
        repeat constructor. exact Hcalls.
      * now repeat apply none_raised_cons.
    + cbv zeta in Hrun.
      apply bind_call_val in Hrun. destruct Hrun as [Ha Hrun].
      rewrite !length_trace_log in Ha. fold L in Ha.
      apply IH in Hrun.
      destruct Hrun as [added [-> [-> [[Hposes [Hauto [Hrel Hcalls]]] Hnr]]]].
      rewrite !length_trace_log in Hauto, Hnr |- *. fold L in Hauto, Hnr |- *.
      exists (RandomChoice :: Find ty :: TrySpawnActor bp p
              :: SetAutopilot (S (S L)) true :: added).
      rewrite !log_add_calls. fold L.
      cbn [acquired_from app]. rewrite Hc. cbn [creates negb app].
      rewrite <- app_assoc.
      split; [reflexivity|]. split; [reflexivity|]. split.
      * unfold spawned. fold L.
        cbn [requested_poses autopilot_enabled released flat_map map app
             acquired_from].
        rewrite Hc. cbn [creates negb app].
        fold (requested_poses added) (autopilot_enabled added)
          (released added).
        rewrite Hposes, Hp, Hauto. repeat split; try assumption.
        repeat constructor. exact Hcalls.
      * now repeat apply none_raised_cons.
Qed.

End ReturningSpawner.

Lemma AddingTraffic_spawn_traffic_cars_returns (env : Env) (num_cars : nat)
    (s : State) (cars : list Actor) (s' : State) :
  AddingTraffic.spawn_traffic_cars env num_cars s = (Val cars, s') ->
  exists added,
    s' = add_calls added s /\
    spawner_report env num_cars s cars added /\
    none_raised env (length (trace s)) added.
Proof.
  unfold AddingTraffic.spawn_traffic_cars. intros Hrun.
  apply bind_get_spawn_points_val in Hrun. destruct Hrun as [Hg Hrun].
  apply AddingTraffic_spawn_loop_returns in Hrun.
  destruct Hrun as [added [-> [-> [Hsp Hnr]]]].
  rewrite length_trace_log in Hnr |- *.
  exists (GetSpawnPoints :: added). rewrite log_add_calls.
  split; [reflexivity|]. split.
  - now apply spawned_report.
  - now apply none_raised_cons.
Qed.

Lemma BasicEgentFirstTime_spawn_traffic_cars_returns (env : Env)
    (num_cars : nat) (s : State) (cars : list Actor) (s' : State) :
  BasicEgentFirstTime.spawn_traffic_cars env num_cars s = (Val cars, s') ->
  exists added,
    s' = add_calls added s /\
    spawner_report env num_cars s cars added /\
    none_raised env (length (trace s)) added.
Proof.
  unfold BasicEgentFirstTime.spawn_traffic_cars. intros Hrun.
  apply bind_get_spawn_points_val in Hrun. destruct Hrun as [Hg Hrun].
  apply BasicEgentFirstTime_spawn_loop_returns in Hrun.
  destruct Hrun as [added [-> [-> [Hsp Hnr]]]].
  rewrite length_trace_log in Hnr |- *.
  exists (GetSpawnPoints :: added). rewrite log_add_calls.
  split; [reflexivity|]. split.
  - now apply spawned_report.
  - now apply none_raised_cons.
Qed.

(** Claim C7, as the code has it.  Whenever [spawn_traffic_cars] returns,
    it has made one creation request for each of the [num_cars] units (a
    refusal, [try_spawn_actor] returning [None], made it go on to the
    next unit), it has called [set_autopilot(True)] on exactly the actors
    created, the list it returns is exactly these actors, at most
    [num_cars] of them, and none of the calls it made raised: a call that
    raises is fatal.  With a pose list that is not empty, it does return
    in every run in which none of the calls it makes raises, whatever
    creation requests are refused. *)
Theorem spawner_returns_created_handles (env : Env) (num_cars : nat) (s : State) :
  (forall cars s',
     AddingTraffic.spawn_traffic_cars env num_cars s = (Val cars, s') ->
     exists added,
       s' = add_calls added s /\
       spawner_report env num_cars s cars added /\
       none_raised env (length (trace s)) added) /\
  (forall cars s',
     BasicEgentFirstTime.spawn_traffic_cars env num_cars s = (Val cars, s') ->
     exists added,
       s' = add_calls added s /\
       spawner_report env num_cars s cars added /\
       none_raised env (length (trace s)) added) /\
  (spawn_points env <> [] ->
   (calls_quiet env spawner_call (length (trace s))
      (trace (snd (AddingTraffic.spawn_traffic_cars env num_cars s))) ->
    exists cars,
      fst (AddingTraffic.spawn_traffic_cars env num_cars s) = Val cars) /\
   (calls_quiet env spawner_call (length (trace s))
      (trace (snd (BasicEgentFirstTime.spawn_traffic_cars env num_cars s))) ->
    exists cars,
      fst (BasicEgentFirstTime.spawn_traffic_cars env num_cars s)
      = Val cars)).
Proof.
  split; [|split].
  - apply AddingTraffic_spawn_traffic_cars_returns.
  - apply BasicEgentFirstTime_spawn_traffic_cars_returns.
  - intros Hsp. split; intros Hq.
    + pose proof (AddingTraffic_raising_spawner env (length (trace s))
                    num_cars Hsp s (Nat.le_refl _)) as Hx.
      unfold post in Hx.
      destruct (fst (AddingTraffic.spawn_traffic_cars env num_cars s))
        as [cars| |e|]; [now exists cars | ..];
        now elim (calls_quiet_not_raised _ _ _ _ Hq Hx).
    + pose proof (BasicEgentFirstTime_raising_spawner env (length (trace s))
                    num_cars Hsp s (Nat.le_refl _)) as Hx.
      unfold post in Hx.
      destruct (fst (BasicEgentFirstTime.spawn_traffic_cars env num_cars s))
        as [cars| |e|]; [now exists cars | ..];
        now elim (calls_quiet_not_raised _ _ _ _ Hq Hx).
Qed.

(* ================================================================== *)
(** * Keeping an invariant *)

Section Keep.
Variable env : Env.
Variable I : State -> Prop.
Variable E : stop -> State -> Prop.
Hypothesis HE : forall w s, I s -> E w s.

Lemma keep_call (c : Call) :
  stable I c -> triple I (call env c) (fun _ => I) E.
Proof. intros H. apply triple_call; intros s Hs _; auto. Qed.

Lemma keep_find (id : string) :
  stable I (Find id) -> triple I (find env id) (fun _ => I) E.
Proof. intros H. apply triple_find; intros s Hs _; auto. Qed.

Lemma keep_get_spawn_points :
  stable I GetSpawnPoints -> triple I (get_spawn_points env) (fun _ => I) E.
Proof. intros H. apply triple_get_spawn_points; intros s Hs _; auto. Qed.

Lemma keep_try_spawn_actor bp t :
  stable I (TrySpawnActor bp t) ->
  triple I (try_spawn_actor env bp t) (fun _ => I) E.
Proof. intros H. apply triple_try_spawn_actor; intros s Hs _; auto. Qed.

Lemma keep_spawn_actor bp t parent :
  stable I (SpawnActor bp t parent) ->
  triple I (spawn_actor env bp t parent) (fun _ => I) E.
Proof.
  intros H. apply triple_spawn_actor; [intros s Hs _ _ | intros s Hs _]; auto.
Qed.

Lemma keep_destroy a :
  stable I (Destroy a) -> triple I (destroy env a) (fun _ => I) E.
Proof. intros H. apply triple_destroy; intros s Hs _; auto. Qed.

Lemma keep_random_choice l :
  stable I RandomChoice -> triple I (random_choice env l) (fun _ => I) E.
Proof. intros H. apply triple_random_choice; intros s Hs _; auto. Qed.

Lemma keep_run_step :
  stable I RunStep -> triple I (run_step env) (fun _ => I) E.
Proof. intros H. apply triple_run_step; intros s Hs _; auto. Qed.

Lemma keep_event_get (t : Tick) :
  stable I (EventGet (events t)) -> triple I (event_get t) (fun _ => I) E.
Proof. intros H. apply triple_event_get; auto. Qed.

Lemma keep_lift {A : Type} (r : result A) : triple I (lift r) (fun _ => I) E.
Proof. apply triple_lift; auto. Qed.

Lemma keep_store {A : Type} (set : A -> State -> State) (m : M A) :
  blind I set ->
  triple I m (fun _ => I) E -> triple I (store set m) (fun _ => I) E.
Proof. intros Hb Hm. eapply triple_store; [exact Hm | auto]. Qed.

Lemma keep_assign {A : Type} (set : A -> State -> State) (v : A) :
  blind I set -> triple I (assign set v) (fun _ => I) E.
Proof. intros Hb. apply triple_assign; auto. Qed.

Lemma keep_return {A : Type} : triple I (@return_ A) (fun _ => I) E.
Proof. apply triple_return; auto. Qed.

Lemma keep_ret {A : Type} (a : A) : triple I (ret a) (fun _ => I) E.
Proof. now apply triple_ret. Qed.

Lemma keep_bind {A B : Type} (m : M A) (k : A -> M B) :
  triple I m (fun _ => I) E ->
  (forall a, triple I (k a) (fun _ => I) E) ->
  triple I (bind m k) (fun _ => I) E.
Proof. intros Hm Hk. eapply triple_bind; [exact Hm | exact Hk]. Qed.

Lemma keep_for_each {A : Type} (l : list A) (body : A -> M unit) :
  (forall x, triple I (body x) (fun _ => I) E) ->
  triple I (for_each l body) (fun _ => I) E.
Proof. intros H. apply triple_for_each. auto. Qed.

Lemma keep_deliver (fs : list Image) :
  blind I set_latest_image -> triple I (deliver fs) (fun _ => I) E.
Proof.
  intros Hb. apply keep_for_each. intros x s Hs. simpl. now apply Hb.
Qed.

Lemma keep_poll_quit (evs : list EventType) :
  triple I (poll_quit evs) (fun _ => I) E.
Proof.
  induction evs as [|e evs IH]; cbn [poll_quit].
  - apply keep_ret.
  - destruct (is_quit e); [apply keep_return | exact IH].
Qed.

Lemma keep_render_latest :
  (forall a, stable I (MakeSurface a)) -> stable I Blit ->
  triple I (render_latest env) (fun _ => I) E.
Proof.
  intros H1 H2. unfold render_latest.
  eapply triple_bind with (Q := fun _ => I); [now apply triple_read|].
  intros [image|]; [|apply keep_ret].
  destruct (image_truth image); [|apply keep_ret].
  apply keep_bind; [apply keep_lift|]. intros a.
  apply keep_bind; [now apply keep_call|]. intros _.
  now apply keep_call.
Qed.

Lemma keep_connect :
  (forall c, In c [NewClient "ce-gpu.informatik.tu-chemnitz.de" 2110;
                   SetTimeout 10; LoadWorld "Town03"; GetWorld; Sleep 2] ->
             stable I c) ->
  triple I (connect env) (fun _ => I) E.
Proof.
  intros H. unfold connect.
  repeat (apply keep_bind; [apply keep_call, H; simpl; tauto | intros _]).
  apply keep_call, H; simpl; tauto.
Qed.

Lemma keep_pygame_setup :
  (forall c, In c [PygameInit; SetMode 1000 800;
                   SetCaption "CARLA Simulation"; NewClock] -> stable I c) ->
  triple I (pygame_setup env) (fun _ => I) E.
Proof.
  intros H. unfold pygame_setup.
  repeat (apply keep_bind; [apply keep_call, H; simpl; tauto | intros _]).
  apply keep_call, H; simpl; tauto.
Qed.

Lemma keep_destroy_if_set (get : State -> option Actor) :
  (forall a, stable I (Destroy a)) ->
  triple I (destroy_if_set env get) (fun _ => I) E.
Proof.
  intros H. unfold destroy_if_set.
  eapply triple_bind with (Q := fun _ => I); [now apply triple_read|].
  intros [a|]; [|apply keep_ret].
  apply keep_bind; [now apply keep_destroy | intros _; apply keep_ret].
Qed.

Lemma keep_destroy_traffic :
  (forall a, stable I (Destroy a)) ->
  triple I (destroy_traffic env) (fun _ => I) E.
Proof.
  intros H. unfold destroy_traffic.
  eapply triple_bind with (Q := fun _ => I); [now apply triple_read|].
  intros cars. apply keep_for_each. intros a.
  apply keep_bind; [now apply keep_destroy | intros _; apply keep_ret].
Qed.

Lemma AddingTraffic_keep_spawn_traffic_cars (num_cars : nat) :
  (forall c, spawner_call c = true -> stable I c) ->
  triple I (AddingTraffic.spawn_traffic_cars env num_cars) (fun _ => I) E.
Proof.
  intros H. unfold AddingTraffic.spawn_traffic_cars.
  apply keep_bind; [now apply keep_get_spawn_points, H|]. intros sp.
  generalize (@nil Actor). generalize (seq 0 num_cars).
  induction l as [|i units IH]; intros acc; cbn [AddingTraffic.spawn_loop].
  - apply keep_ret.
  - apply keep_bind; [apply keep_lift|]. intros k.
    apply keep_bind; [apply keep_lift|]. intros p.
    apply keep_bind; [now apply keep_find, H|]. intros bp.
    apply keep_bind; [now apply keep_try_spawn_actor, H|]. intros [v|].
    + apply keep_bind; [now apply keep_call, H|]. intros _. apply IH.
    + apply IH.
Qed.

Lemma BasicEgentFirstTime_keep_spawn_traffic_cars (num_cars : nat) :
  (forall c, spawner_call c = true -> stable I c) ->
  triple I (BasicEgentFirstTime.spawn_traffic_cars env num_cars)
    (fun _ => I) E.
Proof.
  intros H. unfold BasicEgentFirstTime.spawn_traffic_cars.
  apply keep_bind; [now apply keep_get_spawn_points, H|]. intros sp.
  generalize (@nil Actor). generalize (seq 0 num_cars).
  induction l as [|i units IH]; intros acc;
    cbn [BasicEgentFirstTime.spawn_loop].
  - apply keep_ret.
  - apply keep_bind; [apply keep_lift|]. intros k.
    apply keep_bind; [apply keep_lift|]. intros p.
    apply keep_bind; [now apply keep_random_choice, H|]. intros ty.
    apply keep_bind; [now apply keep_find, H|]. intros bp.
    apply keep_bind; [now apply keep_try_spawn_actor, H|]. intros [v|].
    + apply keep_bind; [now apply keep_call, H|]. intros _. apply IH.
    + apply IH.
Qed.

Lemma keep_setup_traffic_lights :
  (forall l, stable I (SetState l Red) /\ stable I (SetGreenTime l 5)
             /\ stable I (SetRedTime l 5) /\ stable I (GetTransform l)) ->
  stable I (GetActors "traffic.traffic_light") ->
  triple I (BasicEgentFirstTime.setup_traffic_lights env) (fun _ => I) E.
Proof.
  intros H H0. unfold BasicEgentFirstTime.setup_traffic_lights.
  apply keep_bind; [now apply keep_call|]. intros _.
  generalize (@nil Actor). generalize (traffic_lights env).
  induction l as [|x l IH]; intros acc;
    cbn [BasicEgentFirstTime.lights_loop].
  - apply keep_ret.
  - destruct (H x) as [H1 [H2 [H3 H4]]].
    repeat (apply keep_bind; [now apply keep_call | intros _]).
    apply IH.
Qed.

End Keep.

Section KeepLoopAndSetup.
Variable env : Env.
Variable I : State -> Prop.
Variable E : stop -> State -> Prop.
Hypothesis HE : forall w s, I s -> E w s.
Hypothesis Hsetup : forall c, setup_call c = true -> stable I c.
Hypothesis Himage : blind I set_latest_image.

Lemma keep_while_true (body : Tick -> M unit) (ticks : list Tick) :
  (forall t, triple I (body t) (fun _ => I) E) ->
  triple I (while_true body ticks) (fun _ => I) E.
Proof.
  intros H. induction ticks as [|t ticks IH]; cbn [while_true].
  - apply triple_pending. auto.
  - apply keep_bind; [now apply keep_deliver | intros _].
    apply keep_bind; [apply H | intros _; exact IH].
Qed.

Lemma keep_connect_setup : triple I (connect env) (fun _ => I) E.
Proof.
  apply keep_connect; [assumption|]. intros c Hc. apply Hsetup.
  simpl in Hc. intuition (subst; reflexivity).
Qed.

End KeepLoopAndSetup.

(** The [try] blocks keep an invariant that their calls and their
    assignments keep. *)
Section KeepBody.
Variable env : Env.
Variable I : State -> Prop.
Variable E : stop -> State -> Prop.
Hypothesis HE : forall w s, I s -> E w s.
Hypothesis Hsetup : forall c, setup_call c = true -> stable I c.
Hypothesis Himage : blind I set_latest_image.
Hypothesis Hvehicle : forall bp t,
  triple I (store set_vehicle (try_spawn_actor env bp t)) (fun _ => I) E.
Hypothesis Hcamera : forall bp t parent,
  triple I (store (fun c => set_camera (Some c)) (spawn_actor env bp t parent))
    (fun _ => I) E.
Hypothesis Hbus : forall bp t,
  triple I (store set_bus (try_spawn_actor env bp t)) (fun _ => I) E.

Ltac keep_step :=
  first
    [ apply keep_bind;
      [ first
          [ apply keep_call; [assumption | apply Hsetup; reflexivity]
          | apply keep_find; [assumption | apply Hsetup; reflexivity]
          | apply keep_get_spawn_points;
            [assumption | apply Hsetup; reflexivity]
          | apply keep_assign; assumption ]
      | ] ].

Lemma AddingTraffic_body_keeps (ticks : list Tick) :
  triple I (store set_traffic_cars (AddingTraffic.spawn_traffic_cars env 10))
    (fun _ => I) E ->
  triple I (while_true (AddingTraffic.tick env) ticks) (fun _ => I) E ->
  triple I (AddingTraffic.body env ticks) (fun _ => I) E.
Proof.
  intros Hcars Hloop. unfold AddingTraffic.body.
  apply keep_bind; [now apply keep_connect_setup | intros _].
  keep_step; intros _. keep_step; intros _. keep_step; intros vehicle_bp.
  keep_step; intros sps.
  destruct sps as [|spawn_point sps]; [now apply keep_return|].
  apply keep_bind; [apply Hvehicle | intros [vehicle|]];
    [ | now apply keep_return].
  keep_step; intros camera_bp.
  apply keep_bind; [apply Hcamera | intros camera].
  keep_step; intros _. keep_step; intros _.
  apply keep_bind; [exact Hcars | intros _; exact Hloop].
Qed.

Lemma BasicEgentFirstTime_body_keeps (ticks : list Tick) :
  triple I (BasicEgentFirstTime.setup_traffic_lights env) (fun _ => I) E ->
  triple I (store set_traffic_cars
              (BasicEgentFirstTime.spawn_traffic_cars env 10))
    (fun _ => I) E ->
  (forall v, triple I (while_true (BasicEgentFirstTime.tick env v) ticks)
               (fun _ => I) E) ->
  triple I (BasicEgentFirstTime.body env ticks) (fun _ => I) E.
Proof.
  intros Hlights Hcars Hloop. unfold BasicEgentFirstTime.body.
  apply keep_bind; [now apply keep_connect_setup | intros _].
  keep_step; intros sps.
  destruct sps as [|start_point sps]; [now apply keep_return|].
  cbv zeta. keep_step; intros _. keep_step; intros vehicle_bp.
  apply keep_bind; [apply Hvehicle | intros [vehicle|]];
    [ | now apply keep_return].
  keep_step; intros camera_bp.
  apply keep_bind; [apply Hcamera | intros camera].
  keep_step; intros _. keep_step; intros _. keep_step; intros bus_bp.
  apply keep_bind; [apply Hbus | intros _].
  apply keep_bind; [exact Hlights | intros _].
  apply keep_bind; [exact Hcars | intros _].
  keep_step; intros _. keep_step; intros _. apply Hloop.
Qed.

Lemma SpwnSpcfcLocCamOk_body_keeps (ticks : list Tick) :
  triple I (while_true (SpwnSpcfcLocCamOk.tick env) ticks) (fun _ => I) E ->
  triple I (SpwnSpcfcLocCamOk.body env ticks) (fun _ => I) E.
Proof.
  intros Hloop. unfold SpwnSpcfcLocCamOk.body.
  apply keep_bind; [now apply keep_connect_setup | intros _].
  keep_step; intros _. keep_step; intros _. keep_step; intros vehicle_bp.
  keep_step; intros sps.
  destruct sps as [|spawn_point sps]; [now apply keep_return|].
  apply keep_bind; [apply Hvehicle | intros [vehicle|]];
    [ | now apply keep_return].
  keep_step; intros camera_bp.
  apply keep_bind; [apply Hcamera | intros camera].
  keep_step; intros _. keep_step; intros _. exact Hloop.
Qed.

End KeepBody.

(** The same for an invariant that does not depend on the variables. *)
Section KeepBodyBlind.
Variable env : Env.
Variable I : State -> Prop.
Variable E : stop -> State -> Prop.
Hypothesis HE : forall w s, I s -> E w s.
Hypothesis Hsetup : forall c, setup_call c = true -> stable I c.
Hypothesis Hvehicle : blind I set_vehicle.
Hypothesis Hcamera : blind I set_camera.
Hypothesis Hbus : blind I set_bus.
Hypothesis Hcars : blind I set_traffic_cars.
Hypothesis Himage : blind I set_latest_image.

Lemma keep_store_vehicle bp t :
  triple I (store set_vehicle (try_spawn_actor env bp t)) (fun _ => I) E.
Proof.
  apply keep_store; [assumption|].
  apply keep_try_spawn_actor; [assumption | now apply Hsetup].
Qed.

Lemma keep_store_camera bp t parent :
  triple I (store (fun c => set_camera (Some c)) (spawn_actor env bp t parent))
    (fun _ => I) E.
Proof.
  apply keep_store; [intros c s Hs; now apply Hcamera|].
  apply keep_spawn_actor; [assumption | now apply Hsetup].
Qed.

Lemma keep_store_bus bp t :
  triple I (store set_bus (try_spawn_actor env bp t)) (fun _ => I) E.
Proof.
  apply keep_store; [assumption|].
  apply keep_try_spawn_actor; [assumption | now apply Hsetup].
Qed.

Lemma spawner_call_setup (c : Call) :
  spawner_call c = true -> stable I c.
Proof. intros Hc. apply Hsetup. now destruct c. Qed.

Lemma AddingTraffic_keep_body (ticks : list Tick) :
  triple I (while_true (AddingTraffic.tick env) ticks) (fun _ => I) E ->
  triple I (AddingTraffic.body env ticks) (fun _ => I) E.
Proof.
  intros Hloop.
  apply AddingTraffic_body_keeps; auto using keep_store_vehicle, keep_store_camera.
  apply keep_store; [assumption|].
  apply AddingTraffic_keep_spawn_traffic_cars;
    [assumption | apply spawner_call_setup].
Qed.

Lemma BasicEgentFirstTime_keep_body (ticks : list Tick) :
  (forall v, triple I (while_true (BasicEgentFirstTime.tick env v) ticks)
               (fun _ => I) E) ->
  triple I (BasicEgentFirstTime.body env ticks) (fun _ => I) E.
Proof.
  intros Hloop.
  apply BasicEgentFirstTime_body_keeps;
    auto using keep_store_vehicle, keep_store_camera, keep_store_bus.
  - apply keep_setup_traffic_lights; [assumption | | now apply Hsetup].
    intros l. repeat split; now apply Hsetup.
  - apply keep_store; [assumption|].
    apply BasicEgentFirstTime_keep_spawn_traffic_cars;
      [assumption | apply spawner_call_setup].
Qed.

Lemma SpwnSpcfcLocCamOk_keep_body (ticks : list Tick) :
  triple I (while_true (SpwnSpcfcLocCamOk.tick env) ticks) (fun _ => I) E ->
  triple I (SpwnSpcfcLocCamOk.body env ticks) (fun _ => I) E.
Proof.
  intros Hloop.
  apply SpwnSpcfcLocCamOk_body_keeps;
    auto using keep_store_vehicle, keep_store_camera.
Qed.

End KeepBodyBlind.

(* ================================================================== *)
(** * The [finally] blocks *)

Lemma released_map_Destroy (l : list Actor) : released (map Destroy l) = l.
Proof. induction l as [|a l IH]; simpl; [reflexivity | now rewrite IH]. Qed.

Section Teardown.
Variable env : Env.

Lemma destroy_state (a : Actor) (s : State) :
  snd (destroy env a s) = log (Destroy a) s.
Proof.
  unfold destroy, call.
  now destruct (raises env (length (trace s)) (Destroy a)).
Qed.

Lemma release_list_cons (a : Actor) (l : list Actor) (s : State) :
  release_list env (a :: l) s
  = if raises env (length (trace s)) (Destroy a)
    then (Exc RuntimeError, log (Destroy a) s)
    else release_list env l (log (Destroy a) s).
Proof.
  unfold release_list. cbn [for_each]. unfold bind at 1 2.
  unfold destroy, call.
  now destruct (raises env (length (trace s)) (Destroy a)).
Qed.

(** What a run of [release_list] amounts to: [destroy] was called on the
    first handles of the list, up to the first call that raised. *)
Lemma release_list_spec (l : list Actor) (s : State) :
  exists done rest,
    l = done ++ rest /\
    snd (release_list env l s) = add_calls (map Destroy done) s /\
    (fst (release_list env l s) = Val tt
     \/ fst (release_list env l s) = Exc RuntimeError) /\
    (fst (release_list env l s) = Val tt -> rest = []) /\
    (teardown_quiet env -> fst (release_list env l s) = Val tt).
Proof.
  revert s; induction l as [|a l IH]; intros s.
  - exists [], []. simpl. rewrite add_calls_nil. auto.
  - rewrite release_list_cons.
    destruct (raises env (length (trace s)) (Destroy a)) eqn:Hr.
    + exists [a], l. simpl. split; [reflexivity|]. split; [reflexivity|].
      split; [now right|]. split; [discriminate|].
      intros Hq. rewrite (Hq _ (Destroy a) eq_refl) in Hr. discriminate.
    + destruct (IH (log (Destroy a) s))
        as [done [rest [Hl [Hs [Ho [Hv Hq]]]]]].
      exists (a :: done), rest. rewrite Hs, log_add_calls.
      split; [simpl; now f_equal|]. split; [reflexivity|].
      split; [exact Ho|]. split; [exact Hv | exact Hq].
Qed.

Lemma quit_then_release_spec (l : list Actor) (s : State) :
  let r := (call env PygameQuit ;; release_list env l)%script s in
  exists done rest,
    l = done ++ rest /\
    snd r = add_calls (PygameQuit :: map Destroy done) s /\
    (fst r = Val tt \/ fst r = Exc RuntimeError) /\
    (fst r = Val tt -> rest = []) /\
    (teardown_quiet env -> fst r = Val tt).
Proof.
  cbv zeta. unfold bind, call.
  destruct (raises env (length (trace s)) PygameQuit) eqn:Hr; simpl.
  - exists [], l. split; [reflexivity|]. split; [reflexivity|].
    split; [now right|]. split; [discriminate|].
    intros Hq. rewrite (Hq _ PygameQuit eq_refl) in Hr. discriminate.
  - destruct (release_list_spec l (log PygameQuit s))
      as [done [rest [Hl [Hs [Ho [Hv Hq]]]]]].
    exists done, rest. rewrite Hs, log_add_calls. repeat split; auto.
Qed.

Lemma release_list_app (l1 l2 : list Actor) (s : State) :
  release_list env (l1 ++ l2) s
  = (release_list env l1 ;; release_list env l2)%script s.
Proof.
  revert s; induction l1 as [|a l1 IH]; intros s; [reflexivity|].
  cbn [app]. unfold bind. rewrite !release_list_cons.
  destruct (raises env (length (trace s)) (Destroy a)); [reflexivity|].
  apply IH.
Qed.

Lemma destroy_if_set_release (get : State -> option Actor) (s : State) :
  destroy_if_set env get s = release_list env (opt_list (get s)) s.
Proof.
  change (destroy_if_set env get s)
    with (match get s with
          | Some a => (destroy env a ;; ret tt)%script
          | None => ret tt
          end s).
  destruct (get s) as [a|]; simpl; [|reflexivity].
  rewrite release_list_cons. unfold bind, destroy, call.
  now destruct (raises env (length (trace s)) (Destroy a)).
Qed.

Lemma destroy_traffic_release (s : State) :
  destroy_traffic env s = release_list env (traffic_cars s) s.
Proof. reflexivity. Qed.

(** The variables of [main] after some more calls. *)
Lemma release_list_variables (l : list Actor) (s : State) :
  let s' := snd (release_list env l s) in
  camera s' = camera s /\ vehicle s' = vehicle s /\ bus s' = bus s
  /\ traffic_cars s' = traffic_cars s.
Proof.
  destruct (release_list_spec l s) as [done [rest [_ [Hs _]]]].
  cbv zeta. rewrite Hs. now repeat split.
Qed.

Lemma bind_destroy_if_set (get : State -> option Actor) (k : M unit)
    (l : list Actor) (s : State) :
  (forall s', camera s' = camera s -> vehicle s' = vehicle s ->
              bus s' = bus s -> traffic_cars s' = traffic_cars s ->
              k s' = release_list env l s') ->
  (destroy_if_set env get ;; k)%script s
  = release_list env (opt_list (get s) ++ l) s.
Proof.
  intros H. rewrite release_list_app. unfold bind.
  rewrite destroy_if_set_release.
  destruct (release_list_variables (opt_list (get s)) s) as [H1 [H2 [H3 H4]]].
  destruct (release_list env (opt_list (get s)) s) as [[[]| |e|] s'];
    try reflexivity.
  now apply H.
Qed.

Lemma quit_then (k k' : M unit) (s : State) :
  (forall s', camera s' = camera s -> vehicle s' = vehicle s ->
              bus s' = bus s -> traffic_cars s' = traffic_cars s ->
              k s' = k' s') ->
  (call env PygameQuit ;; k)%script s = (call env PygameQuit ;; k')%script s.
Proof.
  intros H. unfold bind, call.
  destruct (raises env (length (trace s)) PygameQuit); [reflexivity|].
  now apply H.
Qed.

Lemma SpwnSpcfcLocCamOk_teardown_release (s : State) :
  SpwnSpcfcLocCamOk.teardown env s
  = (call env PygameQuit ;;
     release_list env (SpwnSpcfcLocCamOk.release_order s))%script s.
Proof.
  unfold SpwnSpcfcLocCamOk.teardown, SpwnSpcfcLocCamOk.release_order.
  apply quit_then. intros s1 Hcam Hveh _ _. rewrite <- Hcam, <- Hveh.
  rewrite <- (app_nil_r (opt_list (vehicle s1))).
  apply bind_destroy_if_set. intros s2 _ Hveh2 _ _.
  rewrite <- Hveh2, app_nil_r. apply destroy_if_set_release.
Qed.

Lemma AddingTraffic_teardown_release (s : State) :
  AddingTraffic.teardown env s
  = (call env PygameQuit ;;
     release_list env (AddingTraffic.release_order s))%script s.
Proof.
  unfold AddingTraffic.teardown, AddingTraffic.release_order.
  apply quit_then. intros s1 Hcam Hveh _ Hcars.
  rewrite <- Hcam, <- Hveh, <- Hcars.
  apply bind_destroy_if_set. intros s2 _ Hveh2 _ Hcars2.
  rewrite <- Hveh2, <- Hcars2.
  apply bind_destroy_if_set. intros s3 _ _ _ Hcars3.
  rewrite <- Hcars3. apply destroy_traffic_release.
Qed.

Lemma BasicEgentFirstTime_teardown_release (s : State) :
  BasicEgentFirstTime.teardown env s
  = (call env PygameQuit ;;
     release_list env (BasicEgentFirstTime.release_order s))%script s.
Proof.
  unfold BasicEgentFirstTime.teardown, BasicEgentFirstTime.release_order.
  apply quit_then. intros s1 Hcam Hveh Hbus Hcars.
  rewrite <- Hcam, <- Hveh, <- Hbus, <- Hcars.
  apply bind_destroy_if_set. intros s2 _ Hveh2 Hbus2 Hcars2.
  rewrite <- Hveh2, <- Hbus2, <- Hcars2.
  apply bind_destroy_if_set. intros s3 _ _ Hbus3 Hcars3.
  rewrite <- Hbus3, <- Hcars3.
  apply bind_destroy_if_set. intros s4 _ _ _ Hcars4.
  rewrite <- Hcars4. apply destroy_traffic_release.
Qed.

End Teardown.

(* ================================================================== *)
(** * The display loops keep what their calls keep *)

Section KeepLoop.
Variable env : Env.
Variable I : State -> Prop.
Variable E : stop -> State -> Prop.
Hypothesis HE : forall w s, I s -> E w s.
Hypothesis Hloop : forall c, loop_call c = true -> stable I c.
Hypothesis Himage : blind I set_latest_image.

Lemma keep_render_latest_loop : triple I (render_latest env) (fun _ => I) E.
Proof.
  apply keep_render_latest; [assumption | intros a | ]; now apply Hloop.
Qed.

Lemma SpwnSpcfcLocCamOk_keep_tick (t : Tick) :
  triple I (SpwnSpcfcLocCamOk.tick env t) (fun _ => I) E.
Proof.
  unfold SpwnSpcfcLocCamOk.tick.
  apply keep_bind; [now apply keep_event_get, Hloop | intros evs].
  apply keep_bind; [now apply keep_poll_quit | intros _].
  apply keep_bind; [apply keep_render_latest_loop | intros _].
  apply keep_bind; [now apply keep_call, Hloop | intros _].
  now apply keep_call, Hloop.
Qed.

Lemma AddingTraffic_keep_tick (t : Tick) :
  triple I (AddingTraffic.tick env t) (fun _ => I) E.
Proof. exact (SpwnSpcfcLocCamOk_keep_tick t). Qed.

Lemma BasicEgentFirstTime_keep_tick (v : Actor) (t : Tick) :
  triple I (BasicEgentFirstTime.tick env v t) (fun _ => I) E.
Proof.
  unfold BasicEgentFirstTime.tick.
  apply keep_bind; [now apply keep_event_get, Hloop | intros evs].
  apply keep_bind; [now apply keep_poll_quit | intros _].
  apply keep_bind; [now apply keep_run_step, Hloop | intros control].
  apply keep_bind; [now apply keep_call, Hloop | intros _].
  apply keep_bind; [apply keep_render_latest_loop | intros _].
  apply keep_bind; [now apply keep_call, Hloop | intros _].
  now apply keep_call, Hloop.
Qed.

End KeepLoop.

Lemma keep_except_print (I : State -> Prop) (body : M unit) :
  triple I body (fun _ => I) (fun _ => I) ->
  triple I (except_print body) (fun _ => I) (fun _ => I).
Proof.
  intros H s Hs. specialize (H s Hs). unfold except_print.
  destruct (body s) as [[[]| |e|] s']; exact H.
Qed.

(* ================================================================== *)
(** * Order of release *)

Lemma none_released_stable (c : Call) :
  teardown_call c = false -> stable none_released c.
Proof.
  intros Hc s Hs. unfold none_released, log in *. simpl.
  rewrite released_app, Hs. now destruct c.
Qed.

Section ReleaseOrder.
Variable env : Env.
Variable order : State -> list Actor.
Hypothesis order_calls : forall l s, order (add_calls l s) = order s.

Lemma finally_released_in_order (body teardown : M unit) (s : State) :
  (forall s', teardown s'
              = (call env PygameQuit ;; release_list env (order s'))%script s') ->
  triple none_released body (fun _ => none_released) (fun _ => none_released) ->
  none_released s ->
  released_in_order env order
    (fst (finally (except_print body) teardown s))
    (snd (finally (except_print body) teardown s)).
Proof.
  intros Ht Hbody Hs.
  pose proof (keep_except_print _ _ Hbody s Hs) as H1.
  unfold finally.
  destruct (except_print body s) as [o s1] eqn:Hb. simpl in H1.
  assert (Hs1 : none_released s1) by (destruct o; exact H1). clear H1.
  assert (Hpending : released_in_order env order Pending s1).
  { split; [exists (order s1); now rewrite Hs1 | intros _ H; now elim H]. }
  assert (Hrun : forall o' : outcome unit,
            released_in_order env order
              (fst (match teardown s1 with
                    | (Val _, s2) => (o', s2)
                    | r => r
                    end))
              (snd (match teardown s1 with
                    | (Val _, s2) => (o', s2)
                    | r => r
                    end))).
  { intros o'. rewrite Ht.
    destruct (quit_then_release_spec env (order s1) s1)
      as [done [rest [Hl [Hs2 [Ho [Hv Hq]]]]]].
    destruct ((call env PygameQuit ;; release_list env (order s1))%script s1)
      as [o2 s2].
    simpl in Hs2, Ho, Hv, Hq. subst s2.
    assert (Hrel : released (trace (add_calls (PygameQuit :: map Destroy done) s1))
                   = done).
    { rewrite trace_add_calls, released_app, Hs1. simpl.
      apply released_map_Destroy. }
    assert (Hgoal : released_in_order env order o2
                      (add_calls (PygameQuit :: map Destroy done) s1)
                    /\ (o2 = Val tt -> rest = [])).
    { split; [|exact Hv]. split.
      - exists rest. now rewrite Hrel, order_calls.
      - intros Hquiet _. rewrite Hrel, order_calls, Hl.
        rewrite (Hv (Hq Hquiet)). now rewrite app_nil_r. }
    destruct Hgoal as [[Hg1 Hg2] Hg3].
    destruct o2 as [[]| |e|]; simpl; split; try assumption.
    intros Hquiet _. rewrite Hrel, order_calls, Hl, (Hg3 eq_refl).
    now rewrite app_nil_r. }
  destruct o; [apply Hrun | apply Hrun | apply Hrun | exact Hpending].
Qed.

End ReleaseOrder.

Lemma none_released_blind {A : Type} (set : A -> State -> State) :
  (forall a s, trace (set a s) = trace s) -> blind none_released set.
Proof. intros H a s Hs. unfold none_released. now rewrite H. Qed.



Lemma in_order_initially (env : Env) (order : State -> list Actor)
    (o : outcome unit) (s : State) :
  none_released s -> order s = [] -> released_in_order env order o s.
Proof.
  intros H1 H2. unfold released_in_order. rewrite H1, H2.
  split; [now exists [] | reflexivity].
Qed.

Lemma triple_finally_in_order (env : Env) (order : State -> list Actor)
    (body teardown : M unit) :
  (forall l s, order (add_calls l s) = order s) ->
  (forall s', teardown s'
              = (call env PygameQuit ;; release_list env (order s'))%script s') ->
  triple none_released body (fun _ => none_released) (fun _ => none_released) ->
  triple none_released (finally (except_print body) teardown)
    (fun _ s => released_in_order env order (Val tt) s)
    (fun w s => released_in_order env order (stopped w) s).
Proof.
  intros Ho Ht Hb s Hs.
  pose proof (finally_released_in_order env order Ho body teardown s Ht Hb Hs)
    as H.
  destruct (fst (finally (except_print body) teardown s)) as [[]| |e|];
    exact H.
Qed.


(* ================================================================== *)
(** * Quitting the display loop *)

Lemma quit_seen_app (l1 l2 : list Call) :
  quit_seen (l1 ++ l2) = quit_seen l1 || quit_seen l2.
Proof. apply existsb_app. Qed.

Lemma no_quit_yet_stable (c : Call) :
  observes_quit c = false -> stable no_quit_yet c.
Proof.
  intros Hc s Hs. unfold no_quit_yet, log in *. simpl.
  rewrite quit_seen_app, Hs. simpl. now rewrite Hc.
Qed.

Lemma no_quit_yet_blind {A : Type} (set : A -> State -> State) :
  (forall a s, trace (set a s) = trace s) -> blind no_quit_yet set.
Proof. intros H a s Hs. unfold no_quit_yet. now rewrite H. Qed.

Lemma poll_quit_spec (evs : list EventType) (s : State) :
  poll_quit evs s = (if existsb is_quit evs then Return else Val tt, s).
Proof.
  induction evs as [|e evs IH]; simpl; [reflexivity|].
  destruct (is_quit e); [reflexivity | exact IH].
Qed.

Lemma no_quit_stops (w : stop) (s : State) : no_quit_yet s -> stops_on_quit w s.
Proof. now left. Qed.

(** The first two statements of every turn: poll the events, leave on a
    quit event. *)
Lemma triple_poll (t : Tick) (rest : M unit) :
  triple no_quit_yet rest (fun _ => no_quit_yet) stops_on_quit ->
  triple no_quit_yet (evs <- event_get t ;; poll_quit evs ;; rest)%script
    (fun _ => no_quit_yet) stops_on_quit.
Proof.
  intros Hrest s Hs.
  assert (Heq : (evs <- event_get t ;; poll_quit evs ;; rest)%script s
                = if existsb is_quit (events t)
                  then (Return, log (EventGet (events t)) s)
                  else rest (log (EventGet (events t)) s)).
  { unfold bind, event_get. rewrite poll_quit_spec.
    now destruct (existsb is_quit (events t)). }
  rewrite Heq. clear Heq.
  destruct (existsb is_quit (events t)) eqn:Hq.
  - simpl. right. split; [reflexivity|].
    exists (trace s), (events t).
    split; [reflexivity | split; [exact Hs | exact Hq]].
  - apply Hrest. apply no_quit_yet_stable; [exact Hq | exact Hs].
Qed.

Lemma loop_call_no_quit (c : Call) :
  loop_call c = true -> (forall evs, c <> EventGet evs) -> stable no_quit_yet c.
Proof.
  intros Hc Hne. apply no_quit_yet_stable. destruct c; try reflexivity.
  now elim (Hne evs).
Qed.

Section QuitLoop.
Variable env : Env.

Lemma keep_no_quit_call (c : Call) :
  observes_quit c = false ->
  triple no_quit_yet (call env c) (fun _ => no_quit_yet) stops_on_quit.
Proof.
  intros Hc. apply keep_call; [apply no_quit_stops|].
  now apply no_quit_yet_stable.
Qed.

Lemma keep_no_quit_render :
  triple no_quit_yet (render_latest env) (fun _ => no_quit_yet) stops_on_quit.
Proof.
  apply keep_render_latest; [apply no_quit_stops | intros a | ];
    now apply no_quit_yet_stable.
Qed.

Lemma AddingTraffic_tick_quit (t : Tick) :
  triple no_quit_yet (AddingTraffic.tick env t)
    (fun _ => no_quit_yet) stops_on_quit.
Proof.
  unfold AddingTraffic.tick. apply triple_poll.
  apply keep_bind; [apply keep_no_quit_render | intros _].
  apply keep_bind; [now apply keep_no_quit_call | intros _].
  now apply keep_no_quit_call.
Qed.

Lemma BasicEgentFirstTime_tick_quit (v : Actor) (t : Tick) :
  triple no_quit_yet (BasicEgentFirstTime.tick env v t)
    (fun _ => no_quit_yet) stops_on_quit.
Proof.
  unfold BasicEgentFirstTime.tick. apply triple_poll.
  apply keep_bind; [|intros control].
  { apply keep_run_step; [apply no_quit_stops|].
    now apply no_quit_yet_stable. }
  apply keep_bind; [now apply keep_no_quit_call | intros _].
  apply keep_bind; [apply keep_no_quit_render | intros _].
  apply keep_bind; [now apply keep_no_quit_call | intros _].
  now apply keep_no_quit_call.
Qed.

Lemma setup_call_no_quit (c : Call) :
  setup_call c = true -> stable no_quit_yet c.
Proof. intros Hc. apply no_quit_yet_stable. now destruct c. Qed.

Lemma AddingTraffic_body_quit (ticks : list Tick) :
  triple no_quit_yet (AddingTraffic.body env ticks)
    (fun _ => no_quit_yet) stops_on_quit.
Proof.
  apply AddingTraffic_keep_body;
    try (now apply no_quit_yet_blind); try apply no_quit_stops;
    try apply setup_call_no_quit.
  apply keep_while_true;
    [apply no_quit_stops | now apply no_quit_yet_blind |].
  apply AddingTraffic_tick_quit.
Qed.

Lemma BasicEgentFirstTime_body_quit (ticks : list Tick) :
  triple no_quit_yet (BasicEgentFirstTime.body env ticks)
    (fun _ => no_quit_yet) stops_on_quit.
Proof.
  apply BasicEgentFirstTime_keep_body;
    try (now apply no_quit_yet_blind); try apply no_quit_stops;
    try apply setup_call_no_quit.
  intros v. apply keep_while_true;
    [apply no_quit_stops | now apply no_quit_yet_blind |].
  apply BasicEgentFirstTime_tick_quit.
Qed.

Lemma no_quit_teardown_calls (l : list Call) (s : State) :
  Forall (fun c => teardown_call c = true) l ->
  no_quit_yet s -> no_quit_yet (add_calls l s).
Proof.
  intros Hl Hs. unfold no_quit_yet in *. rewrite trace_add_calls, quit_seen_app, Hs.
  simpl. induction Hl as [|c l Hc _ IH]; [reflexivity|].
  simpl. rewrite IH. now destruct c.
Qed.

Lemma teardown_calls_released (done : list Actor) :
  Forall (fun c => teardown_call c = true) (PygameQuit :: map Destroy done).
Proof.
  constructor; [reflexivity|]. apply Forall_forall. intros c Hc.
  apply in_map_iff in Hc. now destruct Hc as [a [<- _]].
Qed.

Lemma finally_stopped_on_quit (order : State -> list Actor)
    (body teardown : M unit) (s : State) :
  (forall s', teardown s'
              = (call env PygameQuit ;; release_list env (order s'))%script s') ->
  triple no_quit_yet body (fun _ => no_quit_yet) stops_on_quit ->
  no_quit_yet s ->
  stopped_on_quit (fst (finally (except_print body) teardown s))
                  (snd (finally (except_print body) teardown s)).
Proof.
  intros Ht Hbody Hs. specialize (Hbody s Hs).
  unfold finally, except_print.
  destruct (body s) as [o s1]. simpl in Hbody.
  assert (Hdown : forall o' : outcome unit,
            exists done o2,
              (match teardown s1 with
               | (Val _, s2) => (o', s2)
               | r => r
               end) = (o2, add_calls (PygameQuit :: map Destroy done) s1)
              /\ (o' <> Pending -> o2 <> Pending)).
  { intros o'. rewrite Ht.
    destruct (quit_then_release_spec env (order s1) s1)
      as [done [rest [_ [Hs2 [Ho _]]]]].
    destruct ((call env PygameQuit ;; release_list env (order s1))%script s1)
      as [o2 s2]. simpl in Hs2, Ho. subst s2.
    exists done. destruct Ho as [-> | ->]; eexists; split;
      try reflexivity; auto; discriminate. }
  assert (Hkeep : forall o' : outcome unit, no_quit_yet s1 ->
            stopped_on_quit
              (fst (match teardown s1 with
                    | (Val _, s2) => (o', s2)
                    | r => r
                    end))
              (snd (match teardown s1 with
                    | (Val _, s2) => (o', s2)
                    | r => r
                    end))).
  { intros o' H1. destruct (Hdown o') as [done [o2 [-> _]]]. left. simpl.
    apply no_quit_teardown_calls; [apply teardown_calls_released | exact H1]. }
  destruct o as [[]| |e|]; simpl in Hbody.
  - now apply Hkeep.
  - destruct Hbody as [H1 | [_ [tr [evs [Htr [Hq _]]]]]]; [now apply Hkeep|].
    destruct (Hdown Return) as [done [o2 [-> Ho2]]]. right. simpl. split.
    + apply Ho2. discriminate.
    + exists tr, evs, (PygameQuit :: map Destroy done).
      rewrite Htr, <- app_assoc. repeat split; auto.
      apply teardown_calls_released.
  - destruct Hbody as [H1 | [Hw _]]; [now apply Hkeep | discriminate].
  - destruct Hbody as [H1 | [Hw _]]; [now left | discriminate].
Qed.

End QuitLoop.

Lemma first_quit_unique (tr pre tcalls post : list Call) (evs evs' : list EventType) :
  tr ++ EventGet evs :: tcalls = pre ++ EventGet evs' :: post ->
  quit_seen tr = false ->
  Forall (fun c => teardown_call c = true) tcalls ->
  existsb is_quit evs' = true ->
  post = tcalls.
Proof.
  revert pre; induction tr as [|c tr IH]; intros pre Heq Hq Ht Hevs.
  - destruct pre as [|c' pre]; simpl in Heq.
    + now inversion Heq.
    + inversion Heq; subst. rewrite Forall_forall in Ht.
      assert (Hin : In (EventGet evs') (pre ++ EventGet evs' :: post))
        by (apply in_or_app; right; now left).
      now specialize (Ht _ Hin).
  - simpl in Hq. apply orb_false_iff in Hq. destruct Hq as [Hc Hq].
    destruct pre as [|c' pre]; simpl in Heq.
    + inversion Heq; subst. simpl in Hc. congruence.
    + inversion Heq; subst. now apply (IH pre).
Qed.

Lemma existsb_is_quit (evs : list EventType) :
  In QUIT evs -> existsb is_quit evs = true.
Proof. intros H. apply existsb_exists. now exists QUIT. Qed.

Lemma triple_finally_quit (env : Env) (order : State -> list Actor)
    (body teardown : M unit) :
  (forall s', teardown s'
              = (call env PygameQuit ;; release_list env (order s'))%script s') ->
  triple no_quit_yet body (fun _ => no_quit_yet) stops_on_quit ->
  triple no_quit_yet (finally (except_print body) teardown)
    (fun _ s => stopped_on_quit (Val tt) s)
    (fun w s => stopped_on_quit (stopped w) s).
Proof.
  intros Ht Hb s Hs.
  pose proof (finally_stopped_on_quit env order body teardown s Ht Hb Hs) as H.
  destruct (fst (finally (except_print body) teardown s)) as [[]| |e|];
    exact H.
Qed.

Lemma stopped_on_quit_after (o : outcome unit) (s : State)
    (pre post : list Call) (evs : list EventType) :
  stopped_on_quit o s ->
  trace s = pre ++ EventGet evs :: post ->
  In QUIT evs ->
  exited o /\
  Forall (fun c => is_render c = false /\ is_control c = false) post /\
  Forall (fun c => teardown_call c = true) post.
Proof.
  intros [Hno | [Hex [tr [evs' [tcalls [Htr [Hq Ht]]]]]]] Hs Hin.
  - unfold no_quit_yet in Hno. rewrite Hs, quit_seen_app in Hno.
    apply orb_false_iff in Hno. destruct Hno as [_ Hno]. simpl in Hno.
    rewrite (existsb_is_quit _ Hin) in Hno. discriminate.
  - rewrite Htr in Hs.
    pose proof (first_quit_unique _ _ _ _ _ _ Hs Hq Ht
                  (existsb_is_quit _ Hin)) as ->.
    repeat split; try assumption.
    eapply Forall_impl; [|exact Ht]. intros c Hc. now destruct c.
Qed.

(** Claim C5: in a trace of [main], the calls that come after a
    [pygame.event.get()] that returned a quit event are calls of the
    [finally] block only: no rendering call, no control call (and no
    further poll); and [main] has been left. *)
Theorem quit_stops_display_loop (env : Env) (ticks : list Tick)
    (pre post : list Call) (evs : list EventType) :
  In QUIT evs ->
  (trace (snd (AddingTraffic.main env ticks initial))
     = pre ++ EventGet evs :: post ->
   exited (fst (AddingTraffic.main env ticks initial)) /\
   Forall (fun c => is_render c = false /\ is_control c = false) post /\
   Forall (fun c => teardown_call c = true) post) /\
  (trace (snd (BasicEgentFirstTime.main env ticks initial))
     = pre ++ EventGet evs :: post ->
   exited (fst (BasicEgentFirstTime.main env ticks initial)) /\
   Forall (fun c => is_render c = false /\ is_control c = false) post /\
   Forall (fun c => teardown_call c = true) post).
Proof.
  intros Hin.
  assert (Hsetup : forall E : stop -> State -> Prop,
            (forall w s, no_quit_yet s -> E w s) ->
            triple no_quit_yet (pygame_setup env) (fun _ => no_quit_yet) E).
  { intros E HE. apply keep_pygame_setup; [exact HE|].
    intros c Hc. apply no_quit_yet_stable.
    simpl in Hc. intuition (subst; reflexivity). }
  split; intros Htr.
  - assert (H : triple no_quit_yet (AddingTraffic.main env ticks)
                  (fun _ s => stopped_on_quit (Val tt) s)
                  (fun w s => stopped_on_quit (stopped w) s)).
    { unfold AddingTraffic.main.
      eapply triple_bind with (Q := fun _ => no_quit_yet);
        [apply Hsetup; now left | intros _].
      eapply triple_bind with (Q := fun _ => no_quit_yet);
        [now apply triple_assign | intros _].
      apply triple_finally_quit
        with (env := env) (order := AddingTraffic.release_order).
      - apply AddingTraffic_teardown_release.
      - apply AddingTraffic_body_quit. }
    specialize (H initial eq_refl).
    apply stopped_on_quit_after with (s := snd (AddingTraffic.main env ticks initial))
                                     (pre := pre) (evs := evs); auto.
    destruct (fst (AddingTraffic.main env ticks initial)) as [[]| |e|];
      exact H.
  - assert (H : triple no_quit_yet (BasicEgentFirstTime.main env ticks)
                  (fun _ s => stopped_on_quit (Val tt) s)
                  (fun w s => stopped_on_quit (stopped w) s)).
    { unfold BasicEgentFirstTime.main.
      eapply triple_bind with (Q := fun _ => no_quit_yet);
        [apply Hsetup; now left | intros _].
      do 4 (eapply triple_bind with (Q := fun _ => no_quit_yet);
            [now apply triple_assign | intros _]).
      apply triple_finally_quit
        with (env := env) (order := BasicEgentFirstTime.release_order).
      - apply BasicEgentFirstTime_teardown_release.
      - apply BasicEgentFirstTime_body_quit. }
    specialize (H initial eq_refl).
    apply stopped_on_quit_after
      with (s := snd (BasicEgentFirstTime.main env ticks initial))
           (pre := pre) (evs := evs); auto.
    destruct (fst (BasicEgentFirstTime.main env ticks initial)) as [[]| |e|];
      exact H.
Qed.

(* ================================================================== *)
(** * Traffic lights *)

Lemma no_poll_yet_stable (c : Call) :
  is_poll c = false -> stable no_poll_yet c.
Proof.
  intros Hc s Hs. unfold no_poll_yet, log in *. simpl.
  apply Forall_app. split; [exact Hs | now constructor].
Qed.

Lemma lights_ready_stable (env : Env) (c : Call) : stable (lights_ready env) c.
Proof.
  intros s [pre [post [Htr [Hl Hp]]]].
  exists pre, (post ++ [c]). unfold log; simpl.
  rewrite Htr, <- app_assoc. split; [reflexivity | split; assumption].
Qed.

Lemma no_poll_before_loop (env : Env) (s : State) :
  no_poll_yet s -> lights_before_loop env (trace s).
Proof.
  intros Hs pre evs post Htr. unfold no_poll_yet in Hs. rewrite Htr in Hs.
  apply Forall_app in Hs. destruct Hs as [_ Hs]. now inversion Hs.
Qed.

Lemma lights_set_app (ls : list Actor) (tr more : list Call) :
  lights_set ls tr -> lights_set ls (tr ++ more).
Proof.
  intros H l Hl. destruct (H l Hl) as [H1 [H2 H3]].
  repeat split; apply in_or_app; now left.
Qed.

Lemma prefix_without_poll (pre0 post0 pre post : list Call) (evs : list EventType) :
  pre0 ++ post0 = pre ++ EventGet evs :: post ->
  Forall (fun c => is_poll c = false) pre0 ->
  exists mid, pre = pre0 ++ mid.
Proof.
  revert pre; induction pre0 as [|c pre0 IH]; intros pre Heq Hp.
  - now exists pre.
  - inversion Hp as [|c' l' Hc Hp']; subst.
    destruct pre as [|c' pre]; simpl in Heq.
    + inversion Heq; subst. discriminate.
    + inversion Heq; subst. destruct (IH pre H1 Hp') as [mid ->].
      now exists mid.
Qed.

Lemma lights_ready_before_loop (env : Env) (s : State) :
  lights_ready env s -> lights_before_loop env (trace s).
Proof.
  intros [pre0 [post0 [Htr [Hl Hp]]]] pre evs post Heq.
  rewrite Htr in Heq.
  destruct (prefix_without_poll _ _ _ _ _ Heq Hp) as [mid ->].
  now apply lights_set_app.
Qed.

Section Lights.
Variable env : Env.

Let E : stop -> State -> Prop := fun _ s => lights_ok env s.

Lemma E_no_poll (w : stop) (s : State) : no_poll_yet s -> E w s.
Proof. now left. Qed.

Lemma E_ready (w : stop) (s : State) : lights_ready env s -> E w s.
Proof. now right. Qed.

(** The loop of [setup_traffic_lights]: the lights already done are
    [done], those still to do [todo]. *)
Lemma lights_loop_sets (todo done acc : list Actor) :
  triple (fun s => no_poll_yet s /\ lights_set done (trace s))
    (BasicEgentFirstTime.lights_loop env todo acc)
    (fun _ s => no_poll_yet s /\ lights_set (done ++ todo) (trace s))
    E.
Proof.
  revert done acc; induction todo as [|l todo IH]; intros done acc.
  - cbn [BasicEgentFirstTime.lights_loop]. apply triple_ret.
    intros s Hs. now rewrite app_nil_r.
  - cbn [BasicEgentFirstTime.lights_loop].
    set (I1 := fun s => no_poll_yet s /\ lights_set done (trace s)
                        /\ In (SetState l Red) (trace s)).
    set (I2 := fun s => I1 s /\ In (SetGreenTime l 5) (trace s)).
    set (I3 := fun s => I2 s /\ In (SetRedTime l 5) (trace s)).
    assert (Hgrow : forall (c : Call) (s : State) ls,
              lights_set ls (trace s) -> lights_set ls (trace (log c s))).
    { intros c s ls H. now apply lights_set_app. }
    assert (Hin : forall (c d : Call) (s : State),
              In d (trace s) -> In d (trace (log c s))).
    { intros c d s H. simpl. apply in_or_app. now left. }
    assert (Hnew : forall (c : Call) (s : State), In c (trace (log c s))).
    { intros c s. simpl. apply in_or_app. right. now left. }
    assert (Hnp : forall (c : Call) (s : State),
              is_poll c = false -> no_poll_yet s -> no_poll_yet (log c s)).
    { intros c s Hc H. now apply no_poll_yet_stable. }
    eapply triple_bind with (Q := fun _ => I1).
    { apply triple_call.
      - intros s [H1 H2] _.
        split; [now apply Hnp | split; [now apply Hgrow | apply Hnew]].
      - intros s [H1 H2] _. apply E_no_poll. now apply Hnp. }
    intros _. eapply triple_bind with (Q := fun _ => I2).
    { apply triple_call.
      - intros s [H1 [H2 H3]] _.
        split; [split; [now apply Hnp | split; [now apply Hgrow | now apply Hin]]
               | apply Hnew].
      - intros s [H1 _] _. apply E_no_poll. now apply Hnp. }
    intros _. eapply triple_bind with (Q := fun _ => I3).
    { apply triple_call.
      - intros s [[H1 [H2 H3]] H4] _.
        split; [split; [split; [now apply Hnp
                               | split; [now apply Hgrow | now apply Hin]]
                       | now apply Hin]
               | apply Hnew].
      - intros s [[H1 _] _] _. apply E_no_poll. now apply Hnp. }
    intros _. cbv zeta.
    eapply triple_bind
      with (Q := fun _ s => no_poll_yet s
                            /\ lights_set (done ++ [l]) (trace s)).
    { apply triple_call.
      - intros s [[[H1 [H2 H3]] H4] H5] _. split; [now apply Hnp|].
        intros x Hx. apply in_app_or in Hx.
        destruct Hx as [Hx | [<- | []]].
        + exact (Hgrow _ s _ H2 x Hx).
        + split; [now apply Hin | split; now apply Hin].
      - intros s [[[H1 _] _] _] _. apply E_no_poll. now apply Hnp. }
    intros _. eapply triple_weaken; [apply (IH (done ++ [l])) | | | ]; auto.
    intros a s. now rewrite <- app_assoc.
Qed.

Lemma setup_traffic_lights_sets :
  triple no_poll_yet (BasicEgentFirstTime.setup_traffic_lights env)
    (fun _ => lights_ready env) E.
Proof.
  unfold BasicEgentFirstTime.setup_traffic_lights.
  eapply triple_bind
    with (Q := fun _ s => no_poll_yet s /\ lights_set [] (trace s)).
  - apply triple_call.
    + intros s Hs _. split; [now apply no_poll_yet_stable | intros l []].
    + intros s Hs _. apply E_no_poll. now apply no_poll_yet_stable.
  - intros _.
    apply triple_weaken
      with (P' := fun s => no_poll_yet s /\ lights_set [] (trace s))
           (Q' := fun _ s => no_poll_yet s
                             /\ lights_set ([] ++ traffic_lights env) (trace s))
           (E' := E);
      [apply lights_loop_sets | auto | | auto].
    intros a s [H1 H2]. exists (trace s), []. rewrite app_nil_r.
    split; [reflexivity | split; assumption].
Qed.

Lemma no_poll_yet_blind {A : Type} (set : A -> State -> State) :
  (forall a s, trace (set a s) = trace s) -> blind no_poll_yet set.
Proof. intros H a s Hs. unfold no_poll_yet. now rewrite H. Qed.

Lemma lights_ready_blind {A : Type} (set : A -> State -> State) :
  (forall a s, trace (set a s) = trace s) -> blind (lights_ready env) set.
Proof. intros H a s Hs. unfold lights_ready. now rewrite H. Qed.

Ltac early c :=
  apply keep_call; [exact E_no_poll | now apply (no_poll_yet_stable c)].

Lemma BasicEgentFirstTime_body_lights (ticks : list Tick) :
  triple no_poll_yet (BasicEgentFirstTime.body env ticks)
    (fun _ => lights_ok env) E.
Proof.
  unfold BasicEgentFirstTime.body.
  eapply triple_bind with (Q := fun _ => no_poll_yet).
  { apply keep_connect; [exact E_no_poll|]. intros c Hc.
    apply no_poll_yet_stable. simpl in Hc. intuition (subst; reflexivity). }
  intros _. eapply triple_bind with (Q := fun _ => no_poll_yet).
  { apply keep_get_spawn_points; [exact E_no_poll|].
    now apply no_poll_yet_stable. }
  intros [|start_point sps]; [apply triple_return; apply E_no_poll|].
  cbv zeta. eapply triple_bind with (Q := fun _ => no_poll_yet).
  { apply keep_call; [exact E_no_poll | now apply no_poll_yet_stable]. }
  intros _. eapply triple_bind with (Q := fun _ => no_poll_yet).
  { apply keep_find; [exact E_no_poll | now apply no_poll_yet_stable]. }
  intros vehicle_bp. eapply triple_bind with (Q := fun _ => no_poll_yet).
  { apply keep_store; [now apply no_poll_yet_blind|].
    apply keep_try_spawn_actor;
      [exact E_no_poll | now apply no_poll_yet_stable]. }
  intros [vehicle|]; [|apply triple_return; apply E_no_poll].
  eapply triple_bind with (Q := fun _ => no_poll_yet).
  { apply keep_find; [exact E_no_poll | now apply no_poll_yet_stable]. }
  intros camera_bp. eapply triple_bind with (Q := fun _ => no_poll_yet).
  { apply keep_store; [now apply no_poll_yet_blind|].
    apply keep_spawn_actor;
      [exact E_no_poll | now apply no_poll_yet_stable]. }
  intros camera. eapply triple_bind with (Q := fun _ => no_poll_yet).
  { apply keep_assign. now apply no_poll_yet_blind. }
  intros _. eapply triple_bind with (Q := fun _ => no_poll_yet).
  { apply keep_call; [exact E_no_poll | now apply no_poll_yet_stable]. }
  intros _. eapply triple_bind with (Q := fun _ => no_poll_yet).
  { apply keep_find; [exact E_no_poll | now apply no_poll_yet_stable]. }
  intros bus_bp. eapply triple_bind with (Q := fun _ => no_poll_yet).
  { apply keep_store; [now apply no_poll_yet_blind|].
    apply keep_try_spawn_actor;
      [exact E_no_poll | now apply no_poll_yet_stable]. }
  intros _. eapply triple_bind with (Q := fun _ => lights_ready env).
  { apply setup_traffic_lights_sets. }
  intros _.
  eapply triple_weaken
    with (P' := lights_ready env) (Q' := fun _ => lights_ready env) (E' := E);
    [ | auto | intros a s H; now right | auto].
  apply keep_bind.
  { apply keep_store; [now apply lights_ready_blind|].
    apply BasicEgentFirstTime_keep_spawn_traffic_cars; [exact E_ready|].
    intros c _. apply lights_ready_stable. }
  intros _. apply keep_bind.
  { apply keep_call; [exact E_ready | apply lights_ready_stable]. }
  intros _. apply keep_bind.
  { apply keep_call; [exact E_ready | apply lights_ready_stable]. }
  intros _. apply keep_while_true;
    [exact E_ready | now apply lights_ready_blind |].
  intros t. apply BasicEgentFirstTime_keep_tick; [exact E_ready|].
  intros c _. apply lights_ready_stable.
Qed.

End Lights.

Lemma keep_finally (P I : State -> Prop) (body teardown : M unit) :
  triple P body (fun _ => I) (fun _ => I) ->
  triple I teardown (fun _ => I) (fun _ => I) ->
  triple P (finally (except_print body) teardown) (fun _ => I) (fun _ => I).
Proof.
  intros Hb Ht s Hs. specialize (Hb s Hs).
  unfold finally, except_print. destruct (body s) as [o s1]. simpl in Hb.
  assert (Hs1 : I s1) by (destruct o; exact Hb).
  specialize (Ht s1 Hs1).
  destruct o as [[]| |e|]; try exact Hs1;
    destruct (teardown s1) as [[[]| |e'|] s2]; exact Ht.
Qed.

Lemma lights_ok_stable (env : Env) (c : Call) :
  is_poll c = false -> stable (lights_ok env) c.
Proof.
  intros Hc s [H | H]; [left | right].
  - now apply no_poll_yet_stable.
  - now apply lights_ready_stable.
Qed.

Lemma lights_ok_before_loop (env : Env) (s : State) :
  lights_ok env s -> lights_before_loop env (trace s).
Proof.
  intros [H | H];
    [now apply no_poll_before_loop | now apply lights_ready_before_loop].
Qed.

Lemma setup_traffic_lights_quiet (env : Env) (s : State) :
  lights_quiet env ->
  BasicEgentFirstTime.setup_traffic_lights env s
  = (Val (traffic_lights env),
     add_calls (GetActors "traffic.traffic_light"
                :: light_calls (traffic_lights env)) s).
Proof.
  intros Hq. unfold BasicEgentFirstTime.setup_traffic_lights.
  assert (Hcall : forall c s0,
            (match c with
             | GetActors _ | SetState _ _ | SetGreenTime _ _ | SetRedTime _ _
             | GetTransform _ => True
             | _ => False
             end) ->
            call env c s0 = (Val tt, log c s0)).
  { intros c s0 Hc. apply call_ok. specialize (Hq (length (trace s0)) c).
    destruct c; try contradiction; exact Hq. }
  assert (Hb : forall (c : Call) (k : unit -> M (list Actor)) s0,
            (match c with
             | GetActors _ | SetState _ _ | SetGreenTime _ _ | SetRedTime _ _
             | GetTransform _ => True
             | _ => False
             end) ->
            bind (call env c) k s0 = k tt (log c s0)).
  { intros c k s0 Hc. apply bind_val. now apply Hcall. }
  rewrite Hb by exact I.
  assert (Hloop : forall ls acc s0,
            BasicEgentFirstTime.lights_loop env ls acc s0
            = (Val (acc ++ ls), add_calls (light_calls ls) s0)).
  { induction ls as [|l ls IH]; intros acc s0.
    - simpl. now rewrite app_nil_r, add_calls_nil.
    - cbn [BasicEgentFirstTime.lights_loop].
      do 3 (rewrite Hb by exact I). cbv zeta. rewrite Hb by exact I.
      rewrite IH, !log_add_calls, <- app_assoc. reflexivity. }
  rewrite Hloop, log_add_calls. reflexivity.
Qed.

(** Claim C10: in every run of [main] of [basicEgentFirstTime.py], each
    traffic light of the world has been set to red, and its green time
    and its red time to 5.0 seconds, by calls that come before the first
    [pygame.event.get()], that is before the display loop starts; and
    when none of these calls raises, [setup_traffic_lights] makes them
    for every light, in order, and returns the lights. *)
Theorem traffic_lights_set_before_loop (env : Env) (ticks : list Tick) :
  lights_before_loop env
    (trace (snd (BasicEgentFirstTime.main env ticks initial))) /\
  (lights_quiet env ->
   forall s,
     BasicEgentFirstTime.setup_traffic_lights env s
     = (Val (traffic_lights env),
        add_calls (GetActors "traffic.traffic_light"
                   :: light_calls (traffic_lights env)) s)).
Proof.
  split; [|intros Hq s; now apply setup_traffic_lights_quiet].
  apply lights_ok_before_loop.
  assert (H : triple no_poll_yet (BasicEgentFirstTime.main env ticks)
                (fun _ => lights_ok env) (fun _ => lights_ok env)).
  { unfold BasicEgentFirstTime.main.
    eapply triple_bind with (Q := fun _ => no_poll_yet).
    { apply keep_pygame_setup; [intros w s H; now left|].
      intros c Hc. apply no_poll_yet_stable.
      simpl in Hc. intuition (subst; reflexivity). }
    intros _.
    do 4 (eapply triple_bind with (Q := fun _ => no_poll_yet);
          [now apply triple_assign | intros _]).
    apply keep_finally.
    - apply BasicEgentFirstTime_body_lights.
    - unfold BasicEgentFirstTime.teardown.
      assert (Hd : forall a, stable (lights_ok env) (Destroy a))
        by (intros a; now apply lights_ok_stable).
      apply keep_bind;
        [apply keep_call; [auto | now apply lights_ok_stable] | intros _].
      do 3 (apply keep_bind;
            [apply keep_destroy_if_set; auto | intros _]).
      apply keep_destroy_traffic; auto. }
  specialize (H initial (Forall_nil _)).
  destruct (fst (BasicEgentFirstTime.main env ticks initial)) as [[]| |e|];
    exact H.
Qed.

(* ================================================================== *)
(** * Acquired handles *)

Lemma acquired_app (env : Env) (tr l : list Call) :
  acquired env (tr ++ l) = acquired env tr ++ acquired_from env (length tr) l.
Proof. unfold acquired. now rewrite acquired_from_app. Qed.

Lemma acquired_from_bounds (env : Env) (l : list Call) (n a : nat) :
  In a (acquired_from env n l) -> n <= a.
Proof.
  revert n; induction l as [|c l IH]; intros n H; simpl in H; [easy|].
  apply in_app_or in H. destruct H as [H | H].
  - destruct (creates env n c); simpl in H; [|easy].
    destruct H as [<- | []]. lia.
  - apply IH in H. lia.
Qed.

Lemma NoDup_acquired_from (env : Env) (l : list Call) (n : nat) :
  NoDup (acquired_from env n l).
Proof.
  revert n; induction l as [|c l IH]; intros n; simpl; [constructor|].
  destruct (creates env n c); simpl; [|apply IH].
  constructor; [|apply IH].
  intros H. apply acquired_from_bounds in H. lia.
Qed.

Lemma acquired_from_teardown (env : Env) (l : list Call) (n : nat) :
  Forall (fun c => teardown_call c = true) l -> acquired_from env n l = [].
Proof.
  intros H; revert n; induction H as [|c l Hc _ IH]; intros n; simpl;
    [reflexivity|].
  rewrite IH. now destruct c.
Qed.

Lemma acquired_log (env : Env) (c : Call) (s : State) :
  acquired env (trace (log c s))
  = acquired env (trace s)
    ++ (if creates env (length (trace s)) c then [length (trace s)] else []).
Proof.
  unfold log. simpl. rewrite acquired_app. simpl. now rewrite app_nil_r.
Qed.

(* ================================================================== *)
(** * What [try: ... except: ... finally: ...] amounts to *)

Lemma finally_cases (env : Env) (order : State -> list Actor)
    (body teardown : M unit) (s : State) :
  (forall s', teardown s'
              = (call env PygameQuit ;; release_list env (order s'))%script s') ->
  let r := finally (except_print body) teardown s in
  (fst (body s) = Pending /\ r = body s) \/
  (fst (body s) <> Pending /\
   exists done rest,
     order (snd (body s)) = done ++ rest /\
     snd r = add_calls (PygameQuit :: map Destroy done) (snd (body s)) /\
     exited (fst r) /\
     (teardown_quiet env -> rest = [])).
Proof.
  intros Ht. cbv zeta. unfold finally, except_print.
  destruct (body s) as [o s1]. simpl.
  assert (Hdown : forall o' : outcome unit, o' <> Pending ->
            exists done rest,
              order s1 = done ++ rest /\
              snd (match teardown s1 with
                   | (Val _, s2) => (o', s2)
                   | r => r
                   end) = add_calls (PygameQuit :: map Destroy done) s1 /\
              exited (fst (match teardown s1 with
                           | (Val _, s2) => (o', s2)
                           | r => r
                           end)) /\
              (teardown_quiet env -> rest = [])).
  { intros o' Ho'. rewrite Ht.
    destruct (quit_then_release_spec env (order s1) s1)
      as [done [rest [Hl [Hs2 [Ho [Hv Hq]]]]]].
    destruct ((call env PygameQuit ;; release_list env (order s1))%script s1)
      as [o2 s2]. simpl in Hs2, Ho, Hv, Hq. subst s2.
    exists done, rest. split; [exact Hl|].
    destruct Ho as [-> | ->]; simpl.
    - split; [reflexivity | split; [exact Ho' | intros _; now apply Hv]].
    - split; [reflexivity | split; [discriminate|]].
      intros Hquiet. specialize (Hq Hquiet). discriminate. }
  destruct o as [[]| |e|].
  - right. split; [discriminate | apply Hdown; discriminate].
  - right. split; [discriminate | apply Hdown; discriminate].
  - right. split; [discriminate | apply Hdown; discriminate].
  - left. now split.
Qed.

(* ================================================================== *)
(** * Every handle held was acquired *)

Section HoldsAcquired.
Variable env : Env.

Let U : State -> Prop := holds_acquired env.

Lemma acquired_log_incl (c : Call) (s : State) (l : list Actor) :
  incl l (acquired env (trace s)) -> incl l (acquired env (trace (log c s))).
Proof.
  intros H a Ha. rewrite acquired_log. apply in_or_app. left. now apply H.
Qed.

Lemma holds_acquired_stable (c : Call) :
  teardown_call c = false -> stable U c.
Proof.
  intros Hc s [H1 H2]. split.
  - now apply none_released_stable.
  - now apply acquired_log_incl.
Qed.

Lemma created_acquired (c : Call) (s : State) :
  creates env (length (trace s)) c = true ->
  In (length (trace s)) (acquired env (trace (log c s))).
Proof.
  intros H. rewrite acquired_log, H. apply in_or_app. right. now left.
Qed.

Lemma holds_acquired_image : blind U set_latest_image.
Proof. intros i s H. exact H. Qed.

Lemma incl_app3 {A : Type} (l1 l2 l3 l4 m : list A) :
  incl l1 m -> incl l2 m -> incl l3 m -> incl l4 m ->
  incl (l1 ++ l2 ++ l3 ++ l4) m.
Proof. intros. repeat apply incl_app; assumption. Qed.

Lemma incl_app3_inv {A : Type} (l1 l2 l3 l4 m : list A) :
  incl (l1 ++ l2 ++ l3 ++ l4) m ->
  incl l1 m /\ incl l2 m /\ incl l3 m /\ incl l4 m.
Proof.
  intros H. repeat split; intros a Ha; apply H;
    repeat (apply in_or_app; first [now left | right]); assumption.
Qed.

Lemma incl_opt_created (c : Call) (s : State) (raised refused : bool) :
  creates env (length (trace s)) c = negb raised && negb refused ->
  raised = false ->
  incl (opt_list (if refused then None else Some (length (trace s))))
       (acquired env (trace (log c s))).
Proof.
  intros Hc ->. destruct refused; simpl; [easy|].
  intros a [<- | []]. now apply created_acquired.
Qed.

Lemma holds_acquired_vehicle bp t :
  triple U (store set_vehicle (try_spawn_actor env bp t))
    (fun _ => U) (fun _ => U).
Proof.
  eapply triple_store with (Q' := fun v s =>
    U s /\ incl (opt_list v) (acquired env (trace s))).
  - apply triple_try_spawn_actor.
    + intros s Hs Hr. split; [now apply holds_acquired_stable|].
      apply incl_opt_created with (raised := false); [|reflexivity].
      simpl. now rewrite Hr.
    + intros s Hs _. now apply holds_acquired_stable.
  - intros v s [[H1 H2] Hv]. split; [exact H1|].
    apply incl_app3_inv in H2. destruct H2 as [Hc [_ [Hb Ht]]].
    now apply incl_app3.
Qed.

Lemma holds_acquired_bus bp t :
  triple U (store set_bus (try_spawn_actor env bp t))
    (fun _ => U) (fun _ => U).
Proof.
  eapply triple_store with (Q' := fun v s =>
    U s /\ incl (opt_list v) (acquired env (trace s))).
  - apply triple_try_spawn_actor.
    + intros s Hs Hr. split; [now apply holds_acquired_stable|].
      apply incl_opt_created with (raised := false); [|reflexivity].
      simpl. now rewrite Hr.
    + intros s Hs _. now apply holds_acquired_stable.
  - intros v s [[H1 H2] Hv]. split; [exact H1|].
    apply incl_app3_inv in H2. destruct H2 as [Hc [Hveh [_ Ht]]].
    now apply incl_app3.
Qed.

Lemma holds_acquired_camera bp t parent :
  triple U (store (fun c => set_camera (Some c)) (spawn_actor env bp t parent))
    (fun _ => U) (fun _ => U).
Proof.
  eapply triple_store with (Q' := fun c s =>
    U s /\ In c (acquired env (trace s))).
  - apply triple_spawn_actor.
    + intros s Hs Hr Hf. split; [now apply holds_acquired_stable|].
      apply created_acquired. simpl. now rewrite Hr, Hf.
    + intros s Hs _. now apply holds_acquired_stable.
  - intros c s [[H1 H2] Hc]. split; [exact H1|].
    apply incl_app3_inv in H2. destruct H2 as [_ [Hveh [Hb Ht]]].
    apply incl_app3; try assumption. intros a [<- | []]. exact Hc.
Qed.

(** The cars the spawner has collected were acquired. *)
Let W (acc : list Actor) : State -> Prop :=
  fun s => U s /\ incl acc (acquired env (trace s)).

Lemma W_stable (acc : list Actor) (c : Call) :
  teardown_call c = false -> stable (W acc) c.
Proof.
  intros Hc s [H1 H2]. split.
  - now apply holds_acquired_stable.
  - now apply acquired_log_incl.
Qed.

Lemma W_U (acc : list Actor) (w : stop) (s : State) : W acc s -> U s.
Proof. now intros [H _]. Qed.

Lemma W_try_spawn_actor (acc : list Actor) bp t :
  triple (W acc) (try_spawn_actor env bp t)
    (fun v s => W (acc ++ opt_list v) s) (fun _ => U).
Proof.
  apply triple_try_spawn_actor.
  - intros s [H1 H2] Hr. split; [now apply holds_acquired_stable|].
    apply incl_app; [now apply acquired_log_incl|].
    apply incl_opt_created with (raised := false); [|reflexivity].
    simpl. now rewrite Hr.
  - intros s [H1 _] _. now apply holds_acquired_stable.
Qed.

Lemma holds_acquired_store_cars (m : M (list Actor)) :
  triple U m (fun cars s => W cars s) (fun _ => U) ->
  triple U (store set_traffic_cars m) (fun _ => U) (fun _ => U).
Proof.
  intros H. eapply triple_store; [exact H|].
  intros cars s [[H1 H2] Hc]. split; [exact H1|].
  apply incl_app3_inv in H2. destruct H2 as [Hcam [Hveh [Hb _]]].
  now apply incl_app3.
Qed.

Lemma AddingTraffic_spawn_loop_holds (sp : list Transform) (units : list nat) :
  forall acc,
    triple (W acc) (AddingTraffic.spawn_loop env sp units acc)
      (fun cars s => W cars s) (fun _ => U).
Proof.
  induction units as [|i units IH]; intros acc;
    cbn [AddingTraffic.spawn_loop].
  - now apply triple_ret.
  - apply triple_bind with (Q := fun _ => W acc);
      [apply keep_lift; apply W_U | intros k].
    apply triple_bind with (Q := fun _ => W acc);
      [apply keep_lift; apply W_U | intros p].
    apply triple_bind with (Q := fun _ => W acc);
      [apply keep_find; [apply W_U | now apply W_stable] | intros bp].
    eapply triple_bind; [apply W_try_spawn_actor | intros [v|]]; simpl.
    + apply triple_bind with (Q := fun _ => W (acc ++ [v]));
        [apply keep_call; [apply W_U | now apply W_stable] | intros _].
      apply IH.
    + rewrite app_nil_r. apply IH.
Qed.

Lemma BasicEgentFirstTime_spawn_loop_holds (sp : list Transform)
    (units : list nat) :
  forall acc,
    triple (W acc) (BasicEgentFirstTime.spawn_loop env sp units acc)
      (fun cars s => W cars s) (fun _ => U).
Proof.
  induction units as [|i units IH]; intros acc;
    cbn [BasicEgentFirstTime.spawn_loop].
  - now apply triple_ret.
  - apply triple_bind with (Q := fun _ => W acc);
      [apply keep_lift; apply W_U | intros k].
    apply triple_bind with (Q := fun _ => W acc);
      [apply keep_lift; apply W_U | intros p].
    apply triple_bind with (Q := fun _ => W acc);
      [apply keep_random_choice; [apply W_U | now apply W_stable] | intros ty].
    apply triple_bind with (Q := fun _ => W acc);
      [apply keep_find; [apply W_U | now apply W_stable] | intros bp].
    eapply triple_bind; [apply W_try_spawn_actor | intros [v|]]; simpl.
    + apply triple_bind with (Q := fun _ => W (acc ++ [v]));
        [apply keep_call; [apply W_U | now apply W_stable] | intros _].
      apply IH.
    + rewrite app_nil_r. apply IH.
Qed.

Lemma holds_acquired_setup (c : Call) : setup_call c = true -> stable U c.
Proof.
  intros Hc. apply holds_acquired_stable.
  unfold setup_call in Hc. now destruct (teardown_call c), (loop_call c).
Qed.

Lemma holds_acquired_loop (c : Call) : loop_call c = true -> stable U c.
Proof. intros Hc. apply holds_acquired_stable. now destruct c. Qed.

Lemma AddingTraffic_body_holds_acquired (ticks : list Tick) :
  triple U (AddingTraffic.body env ticks) (fun _ => U) (fun _ => U).
Proof.
  apply AddingTraffic_body_keeps; auto.
  - apply holds_acquired_setup.
  - apply holds_acquired_image.
  - apply holds_acquired_vehicle.
  - apply holds_acquired_camera.
  - apply holds_acquired_store_cars.
    unfold AddingTraffic.spawn_traffic_cars.
    apply triple_bind with (Q := fun _ => W []).
    + apply triple_get_spawn_points.
      * intros s Hs _. split; [now apply holds_acquired_setup | easy].
      * intros s Hs _. now apply holds_acquired_setup.
    + intros sp. apply AddingTraffic_spawn_loop_holds.
  - apply keep_while_true; [auto | apply holds_acquired_image |].
    intros t. apply AddingTraffic_keep_tick; auto.
    apply holds_acquired_loop.
Qed.

Lemma BasicEgentFirstTime_body_holds_acquired (ticks : list Tick) :
  triple U (BasicEgentFirstTime.body env ticks) (fun _ => U) (fun _ => U).
Proof.
  apply BasicEgentFirstTime_body_keeps; auto.
  - apply holds_acquired_setup.
  - apply holds_acquired_image.
  - apply holds_acquired_vehicle.
  - apply holds_acquired_camera.
  - apply holds_acquired_bus.
  - apply keep_setup_traffic_lights; auto.
    + intros l. repeat split; now apply holds_acquired_setup.
    + now apply holds_acquired_setup.
  - apply holds_acquired_store_cars.
    unfold BasicEgentFirstTime.spawn_traffic_cars.
    apply triple_bind with (Q := fun _ => W []).
    + apply triple_get_spawn_points.
      * intros s Hs _. split; [now apply holds_acquired_setup | easy].
      * intros s Hs _. now apply holds_acquired_setup.
    + intros sp. apply BasicEgentFirstTime_spawn_loop_holds.
  - intros v. apply keep_while_true; [auto | apply holds_acquired_image |].
    intros t. apply BasicEgentFirstTime_keep_tick; auto.
    apply holds_acquired_loop.
Qed.

End HoldsAcquired.

(* ================================================================== *)
(** * The handles held are all the handles acquired *)

Section HoldsAll.
Variable env : Env.

Let A : State -> Prop := holds_all env.
Let E : stop -> State -> Prop := fun _ => holds_all env.

Lemma plain_not_created (c : Call) (n : nat) :
  plain_call c = true -> creates env n c = false.
Proof. now destruct c. Qed.

Lemma plain_not_teardown (c : Call) :
  plain_call c = true -> released [c] = [].
Proof. now destruct c. Qed.

Lemma holds_all_stable (c : Call) : plain_call c = true -> stable A c.
Proof.
  intros Hc s [H1 H2]. split.
  - unfold none_released in *. simpl. rewrite released_app, H1.
    now apply plain_not_teardown.
  - rewrite acquired_log, plain_not_created by assumption.
    now rewrite app_nil_r.
Qed.

Lemma holds_so_far_stable (vo co bo : option Actor) (c : Call) :
  plain_call c = true -> stable (holds_so_far env vo co bo) c.
Proof.
  intros Hc s [H1 [H2 H3]]. split; [|split; [|exact H3]].
  - unfold none_released in *. simpl. rewrite released_app, H1.
    now apply plain_not_teardown.
  - rewrite acquired_log, plain_not_created by assumption.
    now rewrite app_nil_r.
Qed.

Lemma so_far_all (vo co bo : option Actor) (w : stop) (s : State) :
  holds_so_far env vo co bo s -> E w s.
Proof.
  intros [H1 [H2 [H3 [H4 [H5 H6]]]]]. split; [exact H1|].
  now rewrite H2, H3, H4, H5, H6, app_nil_r.
Qed.

Lemma all_all (w : stop) (s : State) : A s -> E w s.
Proof. easy. Qed.

Lemma holds_so_far_vehicle bp t :
  triple (holds_so_far env None None None)
    (store set_vehicle (try_spawn_actor env bp t))
    (fun v => holds_so_far env v None None) E.
Proof.
  eapply triple_store
    with (Q' := fun v s =>
                  none_released s /\ acquired env (trace s) = opt_list v /\
                  camera s = None /\ bus s = None /\ traffic_cars s = []).
  - apply triple_try_spawn_actor.
    + intros s [H1 [H2 [H3 [H4 [H5 H6]]]]] Hr. split; [|split].
      * now apply none_released_stable.
      * rewrite acquired_log, H2. simpl. rewrite Hr. simpl.
        now destruct (refuses env (length (trace s))).
      * now repeat split.
    + intros s Hs Hr. apply (so_far_all None None None).
      destruct Hs as [H1 [H2 H3]]. split; [|split; [|exact H3]].
      * now apply none_released_stable.
      * rewrite acquired_log, H2. simpl. now rewrite Hr.
  - intros v s [H1 [H2 [H3 [H4 H5]]]]. unfold holds_so_far. simpl.
    rewrite app_nil_r. now repeat split.
Qed.

Lemma holds_so_far_camera (v : Actor) bp t parent :
  triple (holds_so_far env (Some v) None None)
    (store (fun c => set_camera (Some c)) (spawn_actor env bp t parent))
    (fun c => holds_so_far env (Some v) (Some c) None) E.
Proof.
  eapply triple_store
    with (Q' := fun c s =>
                  none_released s /\ acquired env (trace s) = [v; c] /\
                  vehicle s = Some v /\ bus s = None /\ traffic_cars s = []).
  - apply triple_spawn_actor.
    + intros s [H1 [H2 [H3 [H4 [H5 H6]]]]] Hr Hf. split; [|split].
      * now apply none_released_stable.
      * rewrite acquired_log, H2. simpl. now rewrite Hr, Hf.
      * now repeat split.
    + intros s Hs Hr. apply (so_far_all (Some v) None None).
      destruct Hs as [H1 [H2 H3]]. split; [|split; [|exact H3]].
      * now apply none_released_stable.
      * rewrite acquired_log, H2. simpl.
        destruct Hr as [-> | ->]; simpl; [reflexivity|].
        now rewrite andb_false_r.
  - intros c s [H1 [H2 [H3 [H4 H5]]]]. unfold holds_so_far. simpl.
    now repeat split.
Qed.



Lemma holds_all_loop (c : Call) : loop_call c = true -> stable A c.
Proof. intros Hc. apply holds_all_stable. now destruct c. Qed.

Lemma holds_all_image : blind A set_latest_image.
Proof. intros i s H. exact H. Qed.

Lemma holds_so_far_image (vo co bo : option Actor) :
  blind (holds_so_far env vo co bo) set_latest_image.
Proof. intros i s H. exact H. Qed.

Lemma connect_so_far (vo co bo : option Actor) :
  triple (holds_so_far env vo co bo) (connect env)
    (fun _ => holds_so_far env vo co bo) E.
Proof.
  apply keep_connect; [apply (so_far_all vo co bo)|].
  intros c Hc. apply holds_so_far_stable.
  simpl in Hc. intuition (subst; reflexivity).
Qed.

Lemma spawn_points_so_far (vo co bo : option Actor) :
  triple (holds_so_far env vo co bo) (get_spawn_points env)
    (fun sps s => holds_so_far env vo co bo s /\ sps = spawn_points env) E.
Proof.
  apply triple_get_spawn_points.
  - intros s Hs _. split; [now apply holds_so_far_stable | reflexivity].
  - intros s Hs _. apply (so_far_all vo co bo).
    now apply holds_so_far_stable.
Qed.

End HoldsAll.

Section HeldCars.
Variable env : Env.
Variable n0 : nat.



End HeldCars.

(* ================================================================== *)
(** * Counting the calls made before the spawner *)

Section Counting.
Variable env : Env.

Let T : stop -> State -> Prop := fun _ _ => True.







Lemma counted_assign {A : Type} (set : A -> State -> State) (v : A) (k : nat) :
  (forall a s, trace (set a s) = trace s) ->
  triple (calls_made k) (assign set v) (fun _ => calls_made k) T.
Proof.
  intros Hset. apply triple_assign. intros s Hs.
  unfold calls_made in *. now rewrite Hset.
Qed.





End Counting.


Section HoldsAllBodies.
Variable env : Env.
Variable n0 : nat.

(** Either [main] holds exactly the handles acquired, or a call of the
    spawner raised. *)
Let A : State -> Prop := holds_all env.
Let E : stop -> State -> Prop :=
  fun _ s => holds_all env s \/ raised_in env spawner_call n0 (trace s).

Let P (vo co bo : option Actor) (k : nat) : State -> Prop :=
  fun s => holds_so_far env vo co bo s /\ calls_made k s.














End HoldsAllBodies.

(* ================================================================== *)
(** * Release of every handle, once *)

Section ReleasedOnce.
Variable env : Env.
Variable order : State -> list Actor.
Variable body teardown : M unit.
Hypothesis teardown_order : forall s',
  teardown s' = (call env PygameQuit ;; release_list env (order s'))%script s'.

Lemma finally_only_acquired (s : State) :
  holds_acquired env (snd (body s)) ->
  (forall s', incl (order s')
                (opt_list (camera s') ++ opt_list (vehicle s')
                 ++ opt_list (bus s') ++ traffic_cars s')) ->
  only_acquired_released env
    (trace (snd (finally (except_print body) teardown s))).
Proof.
  intros [Hnone Hincl] Horder a Ha.
  destruct (finally_cases env order body teardown s teardown_order)
    as [[_ Hr] | [_ [done [rest [Hd [Hs [_ _]]]]]]].
  - rewrite Hr in Ha. rewrite Hnone in Ha. easy.
  - rewrite Hs in *. rewrite trace_add_calls in *.
    rewrite released_app, Hnone in Ha. simpl in Ha.
    rewrite released_map_Destroy in Ha.
    rewrite acquired_app. apply in_or_app. left.
    apply Hincl, Horder. rewrite Hd. apply in_or_app. now left.
Qed.

Lemma finally_all_released (s : State) :
  none_released (snd (body s)) ->
  Permutation (order (snd (body s))) (acquired env (trace (snd (body s)))) ->
  teardown_quiet env ->
  exited (fst (finally (except_print body) teardown s)) ->
  all_released_once env
    (trace (snd (finally (except_print body) teardown s))).
Proof.
  intros Hnone Hperm Hquiet Hex a Ha.
  destruct (finally_cases env order body teardown s teardown_order)
    as [[Hp Hr] | [_ [done [rest [Hd [Hs [_ Hrest]]]]]]].
  - rewrite Hr in Hex. now elim Hex.
  - rewrite (Hrest Hquiet), app_nil_r in Hd. subst done.
    rewrite Hs in *. rewrite trace_add_calls in *.
    rewrite released_app, Hnone. simpl. rewrite released_map_Destroy.
    rewrite acquired_app, acquired_from_teardown, app_nil_r in Ha
      by apply teardown_calls_released.
    apply NoDup_count_occ'.
    + apply (Permutation_NoDup (Permutation_sym Hperm)).
      apply NoDup_acquired_from.
    + apply (Permutation_in _ (Permutation_sym Hperm)), Ha.
Qed.




End ReleasedOnce.

Lemma triple_state {A : Type} (P : State -> Prop) (m : M A)
    (I : State -> Prop) (s : State) :
  triple P m (fun _ => I) (fun _ => I) -> P s -> I (snd (m s)).
Proof.
  intros H Hs. specialize (H s Hs). now destruct (fst (m s)).
Qed.

Lemma so_far_acquired (env : Env) (s : State) :
  holds_so_far env None None None s -> holds_acquired env s.
Proof.
  intros [H1 [_ [H3 [H4 [H5 H6]]]]]. split; [exact H1|].
  rewrite H3, H4, H5, H6. easy.
Qed.

Lemma call_cases (env : Env) (c : Call) (s : State) :
  call env c s = (Exc RuntimeError, log c s) \/ call env c s = (Val tt, log c s).
Proof. unfold call. destruct (raises env _ c); auto. Qed.

Lemma bind_assign {A B : Type} (set : A -> State -> State) (v : A)
    (k : unit -> M B) (s : State) :
  bind (assign set v) k s = k tt (set v s).
Proof. reflexivity. Qed.

Lemma pygame_setup_cases (env : Env) (s : State) :
  holds_so_far env None None None s ->
  exists s0,
    holds_so_far env None None None s0 /\
    (pygame_setup env s = (Exc RuntimeError, s0) \/
     pygame_setup env s = (Val tt, s0)).
Proof.
  intros Hs. unfold pygame_setup.
  assert (Hst : forall c s', plain_call c = true ->
            holds_so_far env None None None s' ->
            holds_so_far env None None None (log c s')).
  { intros c s' Hc. now apply holds_so_far_stable. }
  destruct (call_cases env PygameInit s) as [H | H];
    [rewrite (bind_exc _ _ _ _ _ H); eexists; split; [|left; reflexivity]; auto
    | rewrite (bind_val _ _ _ _ _ H); cbv beta].
  destruct (call_cases env (SetMode 1000 800) (log PygameInit s)) as [H1 | H1];
    [rewrite (bind_exc _ _ _ _ _ H1); eexists; split; [|left; reflexivity];
     auto
    | rewrite (bind_val _ _ _ _ _ H1); cbv beta].
  destruct (call_cases env (SetCaption "CARLA Simulation")
              (log (SetMode 1000 800) (log PygameInit s))) as [H2 | H2];
    [rewrite (bind_exc _ _ _ _ _ H2); eexists; split; [|left; reflexivity];
     auto
    | rewrite (bind_val _ _ _ _ _ H2); cbv beta].
  destruct (call_cases env NewClock
              (log (SetCaption "CARLA Simulation")
                 (log (SetMode 1000 800) (log PygameInit s)))) as [H3 | H3];
    rewrite H3; eexists; (split; [|first [left; reflexivity
                                         | right; reflexivity]]); auto 6.
Qed.

Lemma holds_so_far_initial (env : Env) :
  holds_so_far env None None None initial.
Proof. now repeat split. Qed.

(** Before the [try]: either one of the pygame calls raises and [main]
    is left at once, or the [try] statement is run; nothing is held or
    acquired at that point. *)
Lemma AddingTraffic_main_cases (env : Env) (ticks : list Tick) :
  exists s0,
    holds_so_far env None None None s0 /\
    (AddingTraffic.main env ticks initial = (Exc RuntimeError, s0) \/
     AddingTraffic.main env ticks initial
     = finally (except_print (AddingTraffic.body env ticks))
         (AddingTraffic.teardown env) s0).
Proof.
  unfold AddingTraffic.main.
  destruct (pygame_setup_cases env initial (holds_so_far_initial env))
    as [s0 [Hs0 [H | H]]].
  - exists s0. split; [exact Hs0 | left]. now rewrite (bind_exc _ _ _ _ _ H).
  - exists (set_traffic_cars [] s0). split; [|right].
    + destruct Hs0 as [H1 [H2 [H3 [H4 [H5 H6]]]]]. now repeat split.
    + now rewrite (bind_val _ _ _ _ _ H), bind_assign.
Qed.

Lemma BasicEgentFirstTime_main_cases (env : Env) (ticks : list Tick) :
  exists s0,
    holds_so_far env None None None s0 /\
    (BasicEgentFirstTime.main env ticks initial = (Exc RuntimeError, s0) \/
     BasicEgentFirstTime.main env ticks initial
     = finally (except_print (BasicEgentFirstTime.body env ticks))
         (BasicEgentFirstTime.teardown env) s0).
Proof.
  unfold BasicEgentFirstTime.main.
  destruct (pygame_setup_cases env initial (holds_so_far_initial env))
    as [s0 [Hs0 [H | H]]].
  - exists s0. split; [exact Hs0 | left]. now rewrite (bind_exc _ _ _ _ _ H).
  - exists (set_bus None (set_vehicle None (set_camera None
              (set_traffic_cars [] s0)))).
    split; [|right].
    + destruct Hs0 as [H1 [H2 [H3 [H4 [H5 H6]]]]]. now repeat split.
    + now rewrite (bind_val _ _ _ _ _ H), !bind_assign.
Qed.


Lemma nothing_released_yet (env : Env) (s : State) :
  holds_so_far env None None None s ->
  only_acquired_released env (trace s) /\ all_released_once env (trace s).
Proof.
  intros [H1 [H2 _]]. split; intros a Ha.
  - rewrite H1 in Ha. easy.
  - rewrite H2 in Ha. easy.
Qed.











(* ================================================================== *)
(** * The latest frame, read by the display loop *)

Lemma deliver_val (fs : list Image) (s : State) :
  fst (deliver fs s) = Val tt /\ trace (snd (deliver fs s)) = trace s.
Proof.
  revert s; induction fs as [|x fs IH]; intros s; [now split|].
  unfold deliver in *. cbn [for_each]. unfold bind, process_image. simpl.
  apply (IH (set_latest_image (Some x) s)).
Qed.

Lemma deliver_last (fs : list Image) (f : Image) (s : State) :
  latest_image (snd (deliver (fs ++ [f]) s)) = Some f.
Proof. now rewrite deliver_app. Qed.

Lemma slot_stable (v : option Image) (c : Call) :
  stable (fun s => latest_image s = v) c.
Proof. intros s Hs. exact Hs. Qed.

Lemma ticks_keep_slot (env : Env) (v : option Image) (t : Tick) (s : State) :
  latest_image s = v ->
  latest_image (snd (SpwnSpcfcLocCamOk.tick env t s)) = v /\
  latest_image (snd (AddingTraffic.tick env t s)) = v /\
  (forall a, latest_image (snd (BasicEgentFirstTime.tick env a t s)) = v).
Proof.
  intros Hs. repeat split; [| |intros a];
    apply (triple_state (fun s => latest_image s = v)); try exact Hs.
  - apply SpwnSpcfcLocCamOk_keep_tick; [easy | intros c _; apply slot_stable].
  - apply AddingTraffic_keep_tick; [easy | intros c _; apply slot_stable].
  - apply BasicEgentFirstTime_keep_tick;
      [easy | intros c _; apply slot_stable].
Qed.

(** Claim C8: after the callback has run on the frames [F1 .. FN] in
    this order, the slot holds [FN], whatever it held before: the calls
    were all completed, reading the slot gives [FN], and it still holds
    [FN] after a turn of the display loop of any of the three files, which
    reads the slot and never writes it. *)
Theorem latest_frame_is_last (env : Env) (fs : list Image) (f : Image)
    (t : Tick) (s : State) :
  let s' := snd (deliver (fs ++ [f]) s) in
  fst (deliver (fs ++ [f]) s) = Val tt /\
  fst (read latest_image s') = Val (Some f) /\
  latest_image (snd (SpwnSpcfcLocCamOk.tick env t s')) = Some f /\
  latest_image (snd (AddingTraffic.tick env t s')) = Some f /\
  (forall a, latest_image (snd (BasicEgentFirstTime.tick env a t s')) = Some f).
Proof.
  cbv zeta. split; [apply deliver_val|].
  split; [simpl; now rewrite deliver_last|].
  apply ticks_keep_slot, deliver_last.
Qed.

(* ================================================================== *)
(** * Malformed frames *)

Lemma decoder_error (image : Image) :
  carla_image_to_pygame image = Raise ValueError <->
  length (raw_data image) <> width image * height image * 4.
Proof.
  unfold carla_image_to_pygame, reshape, frombuffer.
  destruct (length (raw_data image) =? height image * width image * 4) eqn:E.
  - apply Nat.eqb_eq in E. split; [discriminate | lia].
  - apply Nat.eqb_neq in E. split; [lia | reflexivity].
Qed.

Lemma decoder_only_error (image : Image) (e : exn) :
  carla_image_to_pygame image = Raise e -> e = ValueError.
Proof.
  unfold carla_image_to_pygame, reshape, frombuffer.
  destruct (length (raw_data image) =? height image * width image * 4);
    [discriminate | now intros [= <-]].
Qed.

Lemma render_latest_malformed (env : Env) (image : Image) (s : State) :
  latest_image s = Some image ->
  image_truth image = true ->
  carla_image_to_pygame image = Raise ValueError ->
  render_latest env s = (Exc ValueError, s).
Proof.
  intros Hs Ht Hd. unfold render_latest, read, bind. rewrite Hs, Ht, Hd.
  reflexivity.
Qed.

Lemma tick_malformed (env : Env) (t : Tick) (image : Image) (s : State) :
  latest_image s = Some image ->
  image_truth image = true ->
  carla_image_to_pygame image = Raise ValueError ->
  existsb is_quit (events t) = false ->
  SpwnSpcfcLocCamOk.tick env t s = (Exc ValueError, log (EventGet (events t)) s).
Proof.
  intros Hs Ht Hd Hq. unfold SpwnSpcfcLocCamOk.tick.
  unfold bind at 1. unfold event_get. unfold bind at 1.
  rewrite poll_quit_spec, Hq.
  apply bind_exc. now apply render_latest_malformed with (image := image).
Qed.

(** A frame counts as true when it holds at least one whole pixel. *)
Lemma image_truth_spec (image : Image) :
  image_truth image = true <-> 4 <= length (raw_data image).
Proof.
  unfold image_truth. rewrite negb_true_iff, Nat.eqb_neq.
  split; intros H.
  - destruct (Nat.lt_ge_cases (length (raw_data image)) 4) as [Hlt|]; [|easy].
    exfalso. apply H. now apply Nat.div_small.
  - intros H0. apply Nat.div_small_iff in H0; lia.
Qed.

Lemma render_latest_skipped (env : Env) (image : Image) (s : State) :
  latest_image s = Some image ->
  image_truth image = false ->
  render_latest env s = (Val tt, s).
Proof.
  intros Hs Ht. unfold render_latest, read, bind. now rewrite Hs, Ht.
Qed.

Lemma tick_skipped (env : Env) (t : Tick) (image : Image) (s : State) :
  latest_image s = Some image ->
  image_truth image = false ->
  existsb is_quit (events t) = false ->
  SpwnSpcfcLocCamOk.tick env t s
  = (call env Flip ;; call env (ClockTick 30))%script
      (log (EventGet (events t)) s).
Proof.
  intros Hs Ht Hq. unfold SpwnSpcfcLocCamOk.tick.
  unfold bind at 1. unfold event_get. unfold bind at 1.
  rewrite poll_quit_spec, Hq.
  erewrite bind_val;
    [reflexivity | now apply render_latest_skipped with (image := image)].
Qed.

(* ------------------------------------------------------------------ *)
(** ** A session that waits for its next turn *)

Section NeverPending.

Variable env : Env.

Lemma np_ret {A : Type} (a : A) : never_pending (ret a).
Proof. intros s. discriminate. Qed.

Lemma np_call (c : Call) : never_pending (call env c).
Proof. intros s. unfold call. now destruct (raises env _ c). Qed.

Lemma np_bind {A B : Type} (m : M A) (k : A -> M B) :
  never_pending m -> (forall a, never_pending (k a)) ->
  never_pending (bind m k).
Proof.
  intros Hm Hk s. unfold bind. specialize (Hm s).
  destruct (m s) as [[a| |e|] s']; simpl in *; try discriminate.
  - apply Hk.
  - congruence.
Qed.

Lemma np_store {A : Type} (set : A -> State -> State) (m : M A) :
  never_pending m -> never_pending (store set m).
Proof.
  intros Hm s. unfold store. specialize (Hm s).
  now destruct (m s) as [[a| |e|] s'].
Qed.

Lemma np_find (id : string) : never_pending (find env id).
Proof. apply np_bind; [apply np_call | intros; apply np_ret]. Qed.

Lemma np_get_spawn_points : never_pending (get_spawn_points env).
Proof. apply np_bind; [apply np_call | intros; apply np_ret]. Qed.

Lemma np_try_spawn_actor (bp : Blueprint) (t : Transform) :
  never_pending (try_spawn_actor env bp t).
Proof.
  intros s. unfold try_spawn_actor, call.
  now destruct (raises env _ _).
Qed.

Lemma np_spawn_actor (bp : Blueprint) (t : Transform) (parent : Actor) :
  never_pending (spawn_actor env bp t parent).
Proof.
  intros s. unfold spawn_actor, call.
  destruct (raises env _ _); [easy|]. now destruct (refuses env _).
Qed.

Lemma np_connect : never_pending (connect env).
Proof. unfold connect. repeat (apply np_bind; [apply np_call | intros _]). apply np_call. Qed.

Lemma np_pygame_setup : never_pending (pygame_setup env).
Proof.
  unfold pygame_setup.
  repeat (apply np_bind; [apply np_call | intros _]). apply np_call.
Qed.

Lemma np_release_list (l : list Actor) : never_pending (release_list env l).
Proof.
  intros s. destruct (release_list_spec env l s)
    as [done [rest [_ [_ [[H | H] _]]]]]; rewrite H; discriminate.
Qed.

Lemma np_teardown : never_pending (SpwnSpcfcLocCamOk.teardown env).
Proof.
  intros s. rewrite SpwnSpcfcLocCamOk_teardown_release.
  apply np_bind; [apply np_call | intros _; apply np_release_list].
Qed.

Lemma np_deliver (fs : list Image) : never_pending (deliver fs).
Proof. intros s. now rewrite (proj1 (deliver_val fs s)). Qed.

Lemma np_render_latest : never_pending (render_latest env).
Proof.
  intros s. unfold render_latest, read, bind.
  destruct (latest_image s) as [image|]; [|easy].
  destruct (image_truth image); [|easy].
  destruct (carla_image_to_pygame image) as [array|e]; simpl; [|easy].
  unfold call. destruct (raises env _ (MakeSurface _)); [easy|].
  now destruct (raises env _ Blit).
Qed.

Lemma np_tick (t : Tick) : never_pending (SpwnSpcfcLocCamOk.tick env t).
Proof.
  intros s. unfold SpwnSpcfcLocCamOk.tick.
  unfold bind at 1. unfold event_get. unfold bind at 1.
  rewrite poll_quit_spec. destruct (existsb is_quit (events t)); [easy|].
  apply np_bind; [apply np_render_latest | intros _].
  apply np_bind; [apply np_call | intros _; apply np_call].
Qed.

(** Played on more turns, a loop that was waiting goes on from where it
    stopped. *)
Lemma while_true_resumes (pre more : list Tick) (s s1 : State) :
  while_true (SpwnSpcfcLocCamOk.tick env) pre s = (Pending, s1) ->
  while_true (SpwnSpcfcLocCamOk.tick env) (pre ++ more) s
  = while_true (SpwnSpcfcLocCamOk.tick env) more s1.
Proof.
  revert s. induction pre as [|t pre IH]; intros s.
  - now intros [= <-].
  - cbn [while_true app]. unfold bind at 1 3.
    pose proof (np_deliver (frames t) s) as Hd.
    destruct (deliver (frames t) s) as [[[]| |e|] sa]; simpl in Hd;
      try discriminate; [|congruence].
    unfold bind at 1 2.
    pose proof (np_tick t sa) as Ht.
    destruct (SpwnSpcfcLocCamOk.tick env t sa) as [[[]| |e|] sb];
      simpl in Ht; try discriminate; [|congruence].
    apply IH.
Qed.

Lemma resume_bind {A : Type} (m : M A) (k k0 : A -> M unit) (w : M unit)
    (s : State) :
  never_pending m ->
  (forall a s', k a s' = resume (k0 a s') w) ->
  bind m k s = resume (bind m k0 s) w.
Proof.
  intros Hm Hk. unfold bind. specialize (Hm s).
  destruct (m s) as [[a| |e|] s']; simpl in *; try reflexivity.
  - apply Hk.
  - congruence.
Qed.

(** The [try] block played on [ticks] is the one played on no tick at
    all, which goes as far as the display loop, followed by the loop. *)
Lemma body_resumes (ticks : list Tick) (s : State) :
  SpwnSpcfcLocCamOk.body env ticks s
  = resume (SpwnSpcfcLocCamOk.body env [] s)
      (while_true (SpwnSpcfcLocCamOk.tick env) ticks).
Proof.
  unfold SpwnSpcfcLocCamOk.body.
  apply resume_bind; [apply np_connect | intros _ s1].
  apply resume_bind; [apply np_call | intros _ s2].
  apply resume_bind; [apply np_call | intros _ s3].
  apply resume_bind; [apply np_find | intros vehicle_bp s4].
  apply resume_bind; [apply np_get_spawn_points | intros sps s5].
  destruct sps as [|spawn_point sps]; [reflexivity|].
  apply resume_bind; [apply np_store, np_try_spawn_actor | intros v s6].
  destruct v as [v|]; [|reflexivity].
  apply resume_bind; [apply np_find | intros camera_bp s7].
  apply resume_bind; [apply np_store, np_spawn_actor | intros cam s8].
  apply resume_bind; [intros x; discriminate | intros _ s9].
  apply resume_bind; [apply np_call | intros _ s10].
  reflexivity.
Qed.

(** The session played on [ticks] is the session played on no tick,
    followed, if it reached the display loop, by the loop inside the
    [try] statement. *)
Lemma main_resumes (ticks : list Tick) (s : State) :
  SpwnSpcfcLocCamOk.main env ticks s
  = resume (SpwnSpcfcLocCamOk.main env [] s)
      (finally (except_print (while_true (SpwnSpcfcLocCamOk.tick env) ticks))
         (SpwnSpcfcLocCamOk.teardown env)).
Proof.
  unfold SpwnSpcfcLocCamOk.main.
  apply resume_bind; [apply np_pygame_setup | intros _ s0].
  unfold finally, except_print. rewrite body_resumes.
  destruct (SpwnSpcfcLocCamOk.body env [] s0) as [[[]| |e|] s1];
    cbn [resume]; try reflexivity;
    pose proof (np_teardown s1) as Ht;
    destruct (SpwnSpcfcLocCamOk.teardown env s1) as [[[]| |e'|] s2];
    simpl in Ht; try reflexivity; congruence.
Qed.

Lemma finally_pending (body : M unit) (s s1 : State) :
  finally (except_print body) (SpwnSpcfcLocCamOk.teardown env) s
    = (Pending, s1) ->
  body s = (Pending, s1).
Proof.
  unfold finally, except_print.
  destruct (body s) as [[[]| |e|] s'];
    try (now intros [= <-]);
    pose proof (np_teardown s') as Ht;
    destruct (SpwnSpcfcLocCamOk.teardown env s') as [[[]| |e'|] s2];
    simpl in Ht; try discriminate; congruence.
Qed.

(** A session that was waiting for its next turn, played on more turns. *)
Lemma main_goes_on (pre more : list Tick) (s1 : State) :
  SpwnSpcfcLocCamOk.main env pre initial = (Pending, s1) ->
  SpwnSpcfcLocCamOk.main env (pre ++ more) initial
  = finally (except_print (while_true (SpwnSpcfcLocCamOk.tick env) more))
      (SpwnSpcfcLocCamOk.teardown env) s1.
Proof.
  intros Hpre. rewrite main_resumes in Hpre. rewrite main_resumes.
  destruct (SpwnSpcfcLocCamOk.main env [] initial) as [[[]| |e|] s0];
    cbn [resume] in *; try discriminate.
  apply finally_pending in Hpre.
  unfold finally, except_print.
  now rewrite (while_true_resumes pre more s0 s1 Hpre).
Qed.

End NeverPending.

Lemma loop_malformed (env : Env) (t : Tick) (rest : list Tick) (s : State)
    (image : Image) :
  latest_image (snd (deliver (frames t) s)) = Some image ->
  image_truth image = true ->
  length (raw_data image) <> width image * height image * 4 ->
  existsb is_quit (events t) = false ->
  while_true (SpwnSpcfcLocCamOk.tick env) (t :: rest) s
  = (Exc ValueError, log (EventGet (events t)) (snd (deliver (frames t) s))).
Proof.
  intros Hs Ht Hlen Hq. cbn [while_true].
  destruct (deliver_val (frames t) s) as [Hv _].
  assert (Hd : deliver (frames t) s = (Val tt, snd (deliver (frames t) s))).
  { rewrite <- Hv. now destruct (deliver (frames t) s). }
  rewrite (bind_val _ _ _ _ _ Hd). apply bind_exc.
  apply tick_malformed with (image := image); auto.
  now apply decoder_error.
Qed.

Lemma deliver_variables (fs : list Image) (s : State) :
  camera (snd (deliver fs s)) = camera s /\
  vehicle (snd (deliver fs s)) = vehicle s.
Proof.
  revert s; induction fs as [|x fs IH]; intros s; [now split|].
  unfold deliver in *. cbn [for_each]. unfold bind, process_image. simpl.
  apply (IH (set_latest_image (Some x) s)).
Qed.

(** Claim C4, as the code has it.  The decoder raises [ValueError] exactly
    when the size of the buffer is not width x height x 4, and raises
    nothing else.  A frame counts as true when its buffer holds at least
    one whole pixel (four bytes).  A turn of the display loop that finds a
    malformed frame that counts as true in the slot makes no call after
    polling the events, so no rendering call, and ends with this error,
    which ends the loop: the turns that follow are not played.  In
    [main], whatever turns were played before, the error is caught by the
    [except] clause and the [finally] block runs from there: the session
    ends, with the calls of the [finally] block as its only calls after
    the poll, and when none of these raises [main] returns after
    releasing the camera and the vehicle.  A frame that counts as false
    (fewer than four bytes) is not decoded: the turn skips the rendering
    and goes on with [flip]. *)
Theorem malformed_frame_ends_loop :
  (forall image,
     carla_image_to_pygame image = Raise ValueError <->
     length (raw_data image) <> width image * height image * 4) /\
  (forall image e, carla_image_to_pygame image = Raise e -> e = ValueError) /\
  (forall image, image_truth image = true <-> 4 <= length (raw_data image)) /\
  (forall env t rest s image,
     latest_image (snd (deliver (frames t) s)) = Some image ->
     image_truth image = true ->
     length (raw_data image) <> width image * height image * 4 ->
     existsb is_quit (events t) = false ->
     while_true (SpwnSpcfcLocCamOk.tick env) (t :: rest) s
     = (Exc ValueError,
        log (EventGet (events t)) (snd (deliver (frames t) s)))) /\
  (forall env pre t rest s1 image,
     SpwnSpcfcLocCamOk.main env pre initial = (Pending, s1) ->
     latest_image (snd (deliver (frames t) s1)) = Some image ->
     image_truth image = true ->
     length (raw_data image) <> width image * height image * 4 ->
     existsb is_quit (events t) = false ->
     let r := SpwnSpcfcLocCamOk.main env (pre ++ t :: rest) initial in
     r = match SpwnSpcfcLocCamOk.teardown env
                 (log (EventGet (events t)) (snd (deliver (frames t) s1))) with
         | (Val _, s2) => (Val tt, s2)
         | r' => r'
         end /\
     exited (fst r) /\
     (exists done,
        trace (snd r)
        = trace s1 ++ EventGet (events t) :: PygameQuit :: map Destroy done) /\
     (teardown_quiet env ->
      fst r = Val tt /\
      trace (snd r)
      = trace s1 ++ EventGet (events t) :: PygameQuit
          :: map Destroy (SpwnSpcfcLocCamOk.release_order s1))) /\
  (forall env t s image,
     latest_image s = Some image ->
     image_truth image = false ->
     existsb is_quit (events t) = false ->
     render_latest env s = (Val tt, s) /\
     SpwnSpcfcLocCamOk.tick env t s
     = (call env Flip ;; call env (ClockTick 30))%script
         (log (EventGet (events t)) s)).
Proof.
  split; [exact decoder_error|]. split; [exact decoder_only_error|].
  split; [exact image_truth_spec|]. split; [exact loop_malformed|]. split.
  - intros env pre t rest s1 image Hpre Hs Ht Hlen Hq. cbv zeta.
    rewrite (main_goes_on env pre (t :: rest) s1 Hpre).
    unfold finally, except_print.
    rewrite (loop_malformed env t rest s1 image Hs Ht Hlen Hq).
    set (sa := log (EventGet (events t)) (snd (deliver (frames t) s1))).
    assert (Htr : trace sa = trace s1 ++ [EventGet (events t)]).
    { unfold sa. simpl. now rewrite (proj2 (deliver_val (frames t) s1)). }
    assert (Hord : SpwnSpcfcLocCamOk.release_order sa
                   = SpwnSpcfcLocCamOk.release_order s1).
    { unfold SpwnSpcfcLocCamOk.release_order, sa. simpl.
      now destruct (deliver_variables (frames t) s1) as [-> ->]. }
    rewrite SpwnSpcfcLocCamOk_teardown_release.
    destruct (quit_then_release_spec env
                (SpwnSpcfcLocCamOk.release_order sa) sa)
      as [done [rest' [Hl [Hsnd [Ho [Hv Hquiet]]]]]].
    cbv zeta in Hsnd, Ho, Hv, Hquiet.
    destruct ((call env PygameQuit ;;
               release_list env (SpwnSpcfcLocCamOk.release_order sa))%script
                sa) as [o s2] eqn:Hr.
    simpl in Hsnd, Ho, Hv, Hquiet. subst s2.
    assert (Htr2 : trace (add_calls (PygameQuit :: map Destroy done) sa)
                   = trace s1 ++ EventGet (events t) :: PygameQuit
                       :: map Destroy done).
    { unfold add_calls. cbn [trace]. rewrite Htr, <- app_assoc.
      reflexivity. }
    split; [reflexivity|].
    split; [destruct Ho as [-> | ->]; discriminate|].
    split.
    + exists done. destruct Ho as [-> | ->]; exact Htr2.
    + intros Hqt. specialize (Hquiet Hqt). subst o.
      split; [reflexivity|]. cbn [snd]. rewrite Htr2.
      specialize (Hv eq_refl). subst rest'. rewrite app_nil_r in Hl.
      now rewrite <- Hord, Hl.
  - intros env t s image Hs Ht Hq. split.
    + now apply render_latest_skipped with (image := image).
    + now apply tick_skipped with (image := image).
Qed.

(* ================================================================== *)
(** * Sample sessions *)

Lemma calm_is_quiet (n : nat) (c : Call) : raises calm n c = false.
Proof. reflexivity. Defined.

(** A session of [addingTraffic.py] in which [set_autopilot] raises on
    the second traffic car: the two cars already created are held by no
    variable of [main], and the [finally] block, which completes, does
    not release them. *)
Example interrupted_spawner_leaks :
  let env := autopilot_raises_on 22 in
  let r := AddingTraffic.main env [frame_tick; quit_tick] initial in
  fst r = Val tt /\
  acquired env (trace (snd r)) = [13; 15; 19; 22] /\
  traffic_cars (snd r) = [] /\
  released (trace (snd r)) = [15; 13].
Proof. vm_compute. repeat split. Qed.

(** A refused spawn and actors already destroyed change nothing to the
    release of what was acquired. *)
Example crowded_session :
  let r := BasicEgentFirstTime.main crowded [frame_tick; quit_tick] initial in
  fst r = Return /\
  acquired crowded (trace (snd r)) = [12; 14; 17; 33; 37; 41; 45; 49; 53; 57; 61; 65] /\
  released (trace (snd r)) = [14; 12; 17; 33; 37; 41; 45; 49; 53; 57; 61; 65].
Proof. vm_compute. repeat split. Qed.

(** A session of [spwnSpcfcLocCamOk.py] with well-formed frames goes on
    for as long as ticks are played. *)
Example good_frames_session :
  let r := SpwnSpcfcLocCamOk.main calm [frame_tick; idle_tick; idle_tick] initial in
  fst r = Pending /\
  filter is_poll (trace (snd r)) = [EventGet [OtherEvent 4]; EventGet []; EventGet []] /\
  released (trace (snd r)) = [].
Proof. vm_compute. repeat split. Qed.

(* ------------------------------------------------------------------ *)
(** ** Claim C1 *)


(** The position where [main] calls [spawn_traffic_cars]: in a session
    that reaches it, the call before is the last one [main] makes
    itself, and the call at the position is the first of the spawner. *)
Example spawner_start_positions :
  let r1 := AddingTraffic.main calm [quit_tick] initial in
  let r2 := BasicEgentFirstTime.main calm [quit_tick] initial in
  nth_error (trace (snd r1)) (AddingTraffic_spawner_start - 1)
    = Some (Listen 15) /\
  nth_error (trace (snd r1)) AddingTraffic_spawner_start
    = Some GetSpawnPoints /\
  nth_error (trace (snd r2)) (BasicEgentFirstTime_spawner_start calm - 1)
    = Some (GetTransform 101) /\
  nth_error (trace (snd r2)) (BasicEgentFirstTime_spawner_start calm)
    = Some GetSpawnPoints.
Proof. vm_compute. repeat split. Qed.


(* ------------------------------------------------------------------ *)
(** ** Claim C2 *)

Lemma decoder_shape_and_colour_witness :
  length (raw_data good_frame) = width good_frame * height good_frame * 4 /\
  exists array,
    carla_image_to_pygame good_frame = Ok array /\
    length (pixels array) = 2 /\
    Forall (fun px => length px = 3) (pixels array).
Proof.
  split; [reflexivity|].
  destruct (decoder_shape_and_colour good_frame eq_refl)
    as [array [H1 [_ [_ [H2 [H3 _]]]]]].
  exists array. auto.
Defined.

(* ------------------------------------------------------------------ *)
(** ** Claim C3 *)



(* ------------------------------------------------------------------ *)
(** ** Claim C4 *)

(** In [spwnSpcfcLocCamOk.py], a malformed frame at the first turn ends
    the session: the two turns that follow are not played (the events
    are polled once), and the camera and the vehicle are released. *)
Lemma malformed_frame_ends_session :
  let r := SpwnSpcfcLocCamOk.main calm [bad_frame_tick; idle_tick; idle_tick] initial in
  carla_image_to_pygame bad_frame = Raise ValueError /\
  fst r = Val tt /\
  filter is_poll (trace (snd r)) = [EventGet []] /\
  released (trace (snd r)) = [15; 13].
Proof. vm_compute. repeat split. Qed.

(** A frame of three bytes counts as false: the turn does not decode
    it, nothing is drawn, and the session goes on with the turns that
    follow. *)
Example tiny_frame_is_skipped :
  let r := SpwnSpcfcLocCamOk.main calm [tiny_frame_tick; idle_tick] initial in
  carla_image_to_pygame tiny_frame = Raise ValueError /\
  image_truth tiny_frame = false /\
  fst r = Pending /\
  filter is_poll (trace (snd r)) = [EventGet []; EventGet []] /\
  filter is_render (trace (snd r)) = [Flip; Flip] /\
  released (trace (snd r)) = [].
Proof. vm_compute. repeat split. Qed.

Lemma malformed_frame_ends_loop_witness :
  let s1 := snd (SpwnSpcfcLocCamOk.main calm [frame_tick] initial) in
  let r := SpwnSpcfcLocCamOk.main calm
             ([frame_tick] ++ bad_frame_tick :: [idle_tick]) initial in
  SpwnSpcfcLocCamOk.main calm [frame_tick] initial = (Pending, s1) /\
  latest_image (snd (deliver (frames bad_frame_tick) s1)) = Some bad_frame /\
  image_truth bad_frame = true /\
  length (raw_data bad_frame) <> width bad_frame * height bad_frame * 4 /\
  existsb is_quit (events bad_frame_tick) = false /\
  teardown_quiet calm /\
  exited (fst r) /\
  fst r = Val tt /\
  trace (snd r)
  = trace s1 ++ EventGet (events bad_frame_tick) :: PygameQuit
      :: map Destroy (SpwnSpcfcLocCamOk.release_order s1).
Proof.
  cbv zeta.
  assert (H0 : SpwnSpcfcLocCamOk.main calm [frame_tick] initial
               = (Pending,
                  snd (SpwnSpcfcLocCamOk.main calm [frame_tick] initial)))
    by (vm_compute; reflexivity).
  assert (H : length (raw_data bad_frame)
              <> width bad_frame * height bad_frame * 4)
    by (simpl; lia).
  assert (Hq : teardown_quiet calm) by (intros n c _; reflexivity).
  split; [exact H0|]. split; [reflexivity|]. split; [reflexivity|].
  split; [exact H|]. split; [reflexivity|]. split; [exact Hq|].
  destruct malformed_frame_ends_loop as [_ [_ [_ [_ [Hmain _]]]]].
  destruct (Hmain calm [frame_tick] bad_frame_tick [idle_tick]
              (snd (SpwnSpcfcLocCamOk.main calm [frame_tick] initial))
              bad_frame H0 eq_refl eq_refl H eq_refl)
    as [_ [Hex [_ Hend]]].
  split; [exact Hex|]. exact (Hend Hq).
Defined.

(* ------------------------------------------------------------------ *)
(** ** Claim C5 *)

Lemma quit_stops_display_loop_witness :
  let r := AddingTraffic.main calm [frame_tick; quit_tick] initial in
  In QUIT (events quit_tick) /\
  trace (snd r)
  = firstn 53 (trace (snd r)) ++ EventGet (events quit_tick)
    :: skipn 54 (trace (snd r)) /\
  exited (fst r) /\
  Forall (fun c => is_render c = false /\ is_control c = false)
    (skipn 54 (trace (snd r))).
Proof.
  cbv zeta.
  assert (H1 : In QUIT (events quit_tick)) by (right; now left).
  assert (H2 : trace (snd (AddingTraffic.main calm [frame_tick; quit_tick] initial))
               = firstn 53 (trace (snd (AddingTraffic.main calm
                                          [frame_tick; quit_tick] initial)))
                 ++ EventGet (events quit_tick)
                 :: skipn 54 (trace (snd (AddingTraffic.main calm
                                            [frame_tick; quit_tick] initial))))
    by (vm_compute; reflexivity).
  destruct (quit_stops_display_loop calm [frame_tick; quit_tick]
              (firstn 53 (trace (snd (AddingTraffic.main calm
                                        [frame_tick; quit_tick] initial))))
              (skipn 54 (trace (snd (AddingTraffic.main calm
                                       [frame_tick; quit_tick] initial))))
              (events quit_tick) H1)
    as [H _].
  destruct (H H2) as [H3 [H4 _]].
  split; [exact H1|]. split; [exact H2|]. split; [exact H3 | exact H4].
Defined.

(* ------------------------------------------------------------------ *)
(** ** Claims C6, C7 and C9 *)

Lemma spawner_cycles_poses_witness :
  spawn_points calm <> [] /\
  length (spawn_points calm) < 10 /\
  2 + length (spawn_points calm) < 10 /\
  spawner_quiet calm /\
  let reqs := requested_poses
                (calls_of (AddingTraffic.spawn_traffic_cars calm 10) initial) in
  nth_error reqs 2 = Some (pose_at 20 0) /\
  nth_error reqs 5 = Some (pose_at 20 0).
Proof.
  assert (H1 : spawn_points calm <> []) by discriminate.
  assert (H2 : length (spawn_points calm) < 10) by (simpl; lia).
  assert (H3 : 2 + length (spawn_points calm) < 10) by (simpl; lia).
  assert (H4 : spawner_quiet calm) by (intros n c _; reflexivity).
  split; [exact H1|]. split; [exact H2|]. split; [exact H3|].
  split; [exact H4|].
  destruct (spawner_cycles_poses calm 10 2 initial H1 H2 H3 H4)
    as [[p [Ha [Hb Hc]]] _].
  cbv zeta in Ha, Hb. simpl in Hc. injection Hc as <-.
  split; [exact Ha | exact Hb].
Defined.

(** A creation request that raises is fatal: at the second car,
    [try_spawn_actor] raises, [spawn_traffic_cars(10)] is left by the
    exception after two requests and returns no list, and the car it
    had created is handed to nobody.  The same holds when the blueprint
    of the second car is missing and [find] raises. *)
Lemma raising_spawn_is_fatal :
  let env1 := spawn_raises_at 5 in
  let r1 := AddingTraffic.spawn_traffic_cars env1 10 initial in
  let env2 := spawn_raises_at 7 in
  let r2 := BasicEgentFirstTime.spawn_traffic_cars env2 10 initial in
  let env3 := find_raises_at 4 in
  let r3 := AddingTraffic.spawn_traffic_cars env3 10 initial in
  (fst r1 = Exc RuntimeError /\
   acquired env1 (trace (snd r1)) = [2] /\
   length (requested_poses (trace (snd r1))) = 2) /\
  (fst r2 = Exc RuntimeError /\
   acquired env2 (trace (snd r2)) = [3] /\
   length (requested_poses (trace (snd r2))) = 2) /\
  (fst r3 = Exc RuntimeError /\
   acquired env3 (trace (snd r3)) = [2] /\
   length (requested_poses (trace (snd r3))) = 1).
Proof. vm_compute. repeat split. Qed.

Lemma spawner_returns_created_handles_witness :
  let r1 := AddingTraffic.spawn_traffic_cars picky 10 initial in
  let r2 := BasicEgentFirstTime.spawn_traffic_cars picky 10 initial in
  spawn_points picky <> [] /\
  calls_quiet picky spawner_call (length (trace initial)) (trace (snd r1)) /\
  calls_quiet picky spawner_call (length (trace initial)) (trace (snd r2)) /\
  r1 = (Val [4; 9; 14; 19; 24], snd r1) /\
  r2 = (Val [3; 10; 14; 18; 25; 29; 33], snd r2) /\
  (exists added,
     snd r1 = add_calls added initial /\
     spawner_report picky 10 initial [4; 9; 14; 19; 24] added /\
     none_raised picky (length (trace initial)) added) /\
  (exists added,
     snd r2 = add_calls added initial /\
     spawner_report picky 10 initial [3; 10; 14; 18; 25; 29; 33] added /\
     none_raised picky (length (trace initial)) added) /\
  (exists cars, fst r1 = Val cars) /\
  (exists cars, fst r2 = Val cars).
Proof.
  cbv zeta.
  assert (H1 : spawn_points picky <> []) by discriminate.
  assert (H2 : calls_quiet picky spawner_call (length (trace initial))
                 (trace (snd (AddingTraffic.spawn_traffic_cars picky 10
                                initial))))
    by (apply calls_quietb_ok; vm_compute; reflexivity).
  assert (H2' : calls_quiet picky spawner_call (length (trace initial))
                  (trace (snd (BasicEgentFirstTime.spawn_traffic_cars picky 10
                                 initial))))
    by (apply calls_quietb_ok; vm_compute; reflexivity).
  assert (H3 : AddingTraffic.spawn_traffic_cars picky 10 initial
               = (Val [4; 9; 14; 19; 24],
                  snd (AddingTraffic.spawn_traffic_cars picky 10 initial)))
    by (vm_compute; reflexivity).
  assert (H4 : BasicEgentFirstTime.spawn_traffic_cars picky 10 initial
               = (Val [3; 10; 14; 18; 25; 29; 33],
                  snd (BasicEgentFirstTime.spawn_traffic_cars picky 10
                         initial)))
    by (vm_compute; reflexivity).
  destruct (spawner_returns_created_handles picky 10 initial)
    as [Ha [Hb Hc]].
  destruct (Hc H1) as [Hc1 Hc2].
  split; [exact H1|]. split; [exact H2|]. split; [exact H2'|].
  split; [exact H3|]. split; [exact H4|].
  split; [exact (Ha _ _ H3)|]. split; [exact (Hb _ _ H4)|].
  split; [exact (Hc1 H2) | exact (Hc2 H2')].
Defined.

Lemma spawner_empty_poses_raises_witness :
  spawn_points nowhere = [] /\
  1 <= 10 /\
  raises nowhere (length (trace initial)) GetSpawnPoints = false /\
  AddingTraffic.spawn_traffic_cars nowhere 10 initial
    = (Exc ZeroDivisionError, log GetSpawnPoints initial).
Proof.
  assert (H2 : 1 <= 10) by lia.
  split; [reflexivity|]. split; [exact H2|]. split; [reflexivity|].
  exact (proj1 (spawner_empty_poses_raises nowhere 10 initial
                  eq_refl H2 eq_refl)).
Defined.

(* ------------------------------------------------------------------ *)
(** ** Claim C10 *)

Lemma traffic_lights_set_before_loop_witness :
  let r := BasicEgentFirstTime.main calm [frame_tick; quit_tick] initial in
  lights_quiet calm /\
  trace (snd r)
  = firstn 70 (trace (snd r)) ++ EventGet (events frame_tick)
    :: skipn 71 (trace (snd r)) /\
  lights_set (traffic_lights calm) (firstn 70 (trace (snd r))).
Proof.
  cbv zeta.
  assert (H1 : lights_quiet calm) by (intros n c; now destruct c).
  assert (H2 : trace (snd (BasicEgentFirstTime.main calm
                             [frame_tick; quit_tick] initial))
               = firstn 70 (trace (snd (BasicEgentFirstTime.main calm
                                          [frame_tick; quit_tick] initial)))
                 ++ EventGet (events frame_tick)
                 :: skipn 71 (trace (snd (BasicEgentFirstTime.main calm
                                            [frame_tick; quit_tick] initial))))
    by (vm_compute; reflexivity).
  destruct (traffic_lights_set_before_loop calm [frame_tick; quit_tick])
    as [H _].
  split; [exact H1|]. split; [exact H2|]. exact (H _ _ _ H2).
Defined.

(* ================================================================== *)
(** * More on the decoder and on rendering *)

(** Four consecutive elements of a list. *)
Lemma firstn_4_skipn {A : Type} (d : A) (n : nat) (l : list A) :
  n + 4 <= length l ->
  firstn 4 (skipn n l)
  = [nth n l d; nth (n + 1) l d; nth (n + 2) l d; nth (n + 3) l d].
Proof.
  revert l; induction n as [|n IH]; intros l Hl.
  - destruct l as [|a [|b [|c [|e l]]]]; simpl in Hl; try lia. reflexivity.
  - destruct l as [|a l]; simpl in Hl; [lia|].
    simpl. apply IH. lia.
Qed.

(** The pixel in column [c] of row [r] of a flat array of rows of [w]
    pixels. *)
Lemma block_pixel {A : Type} (w r c : nat) (a : list A) :
  c < w ->
  block 4 c (block (w * 4) r a) = firstn 4 (skipn ((r * w + c) * 4) a).
Proof.
  intros Hc. unfold block.
  rewrite skipn_firstn_comm, firstn_firstn, skipn_skipn.
  replace (Nat.min 4 (w * 4 - c * 4)) with 4 by lia.
  f_equal. f_equal. lia.
Qed.

(** The pixel of the decoded array in row [r], column [c]: the first
    three bytes of the pixel of the buffer, in reverse order. *)
Lemma carla_image_to_pygame_nth (image : Image) (r c : nat) :
  length (raw_data image) = width image * height image * 4 ->
  r < height image -> c < width image ->
  exists array row,
    carla_image_to_pygame image = Ok array /\
    length array = height image /\
    nth_error array r = Some row /\
    length row = width image /\
    nth_error row c
    = Some [nth (4 * (r * width image + c) + 2) (raw_data image) x00;
            nth (4 * (r * width image + c) + 1) (raw_data image) x00;
            nth (4 * (r * width image + c)) (raw_data image) x00].
Proof.
  destruct image as [w h data]; cbn [width height raw_data].
  intros Hlen Hr Hc.
  unfold carla_image_to_pygame, reshape, frombuffer;
    cbn [width height raw_data].
  replace (length data =? h * w * 4) with true
    by (symmetry; apply Nat.eqb_eq; lia).
  unfold reverse_channels, take_channels. rewrite !map_map.
  eexists. eexists. split; [reflexivity|].
  split; [now rewrite length_map, length_seq|].
  split.
  { rewrite nth_error_map, nth_error_nth' with (d := 0)
      by (rewrite length_seq; lia).
    rewrite seq_nth by lia. reflexivity. }
  split; [now rewrite !length_map, length_seq|].
  rewrite !map_map, nth_error_map, nth_error_nth' with (d := 0)
    by (rewrite length_seq; lia).
  rewrite seq_nth by lia. cbn [option_map Nat.add].
  rewrite block_pixel by exact Hc.
  assert (Hk : r * w + c < w * h).
  { apply Nat.lt_le_trans with (r * w + w); [lia|].
    replace (r * w + w) with (S r * w) by lia.
    rewrite (Nat.mul_comm w h). apply Nat.mul_le_mono_r. lia. }
  rewrite (firstn_4_skipn x00) by lia.
  cbn [firstn rev app].
  replace (4 * (r * w + c)) with ((r * w + c) * 4) by lia. reflexivity.
Qed.

(** The decoder succeeds on a buffer of the right size. *)
Lemma carla_image_to_pygame_ok (image : Image) :
  length (raw_data image) = width image * height image * 4 ->
  exists array, carla_image_to_pygame image = Ok array.
Proof.
  intros Hlen. destruct (carla_image_to_pygame image) as [array|e] eqn:Hd.
  - now exists array.
  - pose proof (decoder_only_error _ _ Hd) as ->.
    apply decoder_error in Hd. contradiction.
Qed.

(** Pixel [(r, c)] of the decoded frame is made of the bytes R, G, B of
    the pixel number [r * width + c] of the buffer, which holds them in
    the order B, G, R, A: the alpha byte is dropped. *)
Theorem decoder_pixel_at (image : Image) (r c : nat) :
  length (raw_data image) = width image * height image * 4 ->
  r < height image -> c < width image ->
  exists array row,
    carla_image_to_pygame image = Ok array /\
    nth_error array r = Some row /\
    nth_error row c
    = Some [nth (4 * (r * width image + c) + 2) (raw_data image) x00;
            nth (4 * (r * width image + c) + 1) (raw_data image) x00;
            nth (4 * (r * width image + c)) (raw_data image) x00].
Proof.
  intros Hlen Hr Hc.
  destruct (carla_image_to_pygame_nth image r c Hlen Hr Hc)
    as [array [row [H1 [_ [H2 [_ H3]]]]]].
  now exists array, row.
Qed.

Lemma decoder_pixel_at_witness :
  exists array row,
    carla_image_to_pygame good_frame = Ok array /\
    nth_error array 0 = Some row /\
    nth_error row 1 = Some [x06; x05; x04].
Proof.
  assert (H1 : length (raw_data good_frame)
               = width good_frame * height good_frame * 4) by reflexivity.
  assert (H2 : 0 < height good_frame) by (simpl; lia).
  assert (H3 : 1 < width good_frame) by (simpl; lia).
  exact (decoder_pixel_at good_frame 0 1 H1 H2 H3).
Defined.

Section Render.
Variable env : Env.
Hypothesis loop_quiet : forall n c, loop_call c = true -> raises env n c = false.

Lemma bind_loop_call {B : Type} (c : Call) (k : unit -> M B) (s : State) :
  loop_call c = true -> bind (call env c) k s = k tt (log c s).
Proof. intros Hc. apply bind_val, call_ok. now apply loop_quiet. Qed.

Lemma render_latest_ok (image : Image) (array : ndarray3) (s : State) :
  latest_image s = Some image ->
  image_truth image = true ->
  carla_image_to_pygame image = Ok array ->
  render_latest env s
  = (Val tt,
     add_calls [MakeSurface (swapaxes01 (width image) array); Blit] s).
Proof.
  intros Hs Ht Hd. unfold render_latest.
  change (bind (read latest_image) ?k s) with (k (latest_image s) s).
  rewrite Hs, Ht, Hd. cbn [lift]. rewrite bind_ret.
  rewrite bind_loop_call by reflexivity.
  rewrite call_ok by (now apply loop_quiet).
  unfold log. now rewrite add_calls_app.
Qed.

Lemma render_latest_none (s : State) :
  latest_image s = None -> render_latest env s = (Val tt, s).
Proof.
  intros Hs. unfold render_latest.
  change (bind (read latest_image) ?k s) with (k (latest_image s) s).
  now rewrite Hs.
Qed.

End Render.

(** The surface handed to pygame for a well-formed frame of [w] by [h]
    pixels is the decoded frame with its first two axes exchanged: [w]
    columns of [h] pixels, where pixel [y] of column [x] is the colour
    R, G, B of the pixel of the frame in row [y], column [x]; it is then
    drawn on the display. *)
Theorem render_draws_transposed_frame (env : Env) (image : Image) (s : State) :
  latest_image s = Some image ->
  image_truth image = true ->
  length (raw_data image) = width image * height image * 4 ->
  (forall n c, loop_call c = true -> raises env n c = false) ->
  exists surface,
    render_latest env s = (Val tt, add_calls [MakeSurface surface; Blit] s) /\
    length surface = width image /\
    forall x y, x < width image -> y < height image ->
      exists column,
        nth_error surface x = Some column /\
        length column = height image /\
        nth_error column y
        = Some [nth (4 * (y * width image + x) + 2) (raw_data image) x00;
                nth (4 * (y * width image + x) + 1) (raw_data image) x00;
                nth (4 * (y * width image + x)) (raw_data image) x00].
Proof.
  intros Hs Ht Hlen Hq.
  destruct (carla_image_to_pygame_ok image Hlen) as [array Hd].
  exists (swapaxes01 (width image) array).
  split; [now apply render_latest_ok|].
  unfold swapaxes01. split; [now rewrite length_map, length_seq|].
  intros x y Hx Hy.
  destruct (carla_image_to_pygame_nth image y x Hlen Hy Hx)
    as [array' [row [Hd' [Hla [Hrow [Hlr Hpx]]]]]].
  rewrite Hd in Hd'. injection Hd' as <-.
  exists (map (fun row => nth x row []) array).
  split.
  { rewrite nth_error_map, nth_error_nth' with (d := 0)
      by (rewrite length_seq; lia).
    rewrite seq_nth by lia. reflexivity. }
  split; [now rewrite length_map|].
  rewrite nth_error_map, Hrow. cbn [option_map].
  now rewrite (nth_error_nth _ _ _ Hpx).
Qed.

Lemma render_draws_transposed_frame_witness :
  exists surface,
    render_latest calm (set_latest_image (Some good_frame) initial)
    = (Val tt, add_calls [MakeSurface surface; Blit]
                 (set_latest_image (Some good_frame) initial)) /\
    length surface = 2.
Proof.
  assert (H1 : length (raw_data good_frame)
               = width good_frame * height good_frame * 4) by reflexivity.
  destruct (render_draws_transposed_frame calm good_frame
              (set_latest_image (Some good_frame) initial)
              eq_refl eq_refl H1 (fun _ _ _ => eq_refl))
    as [surface [Hr [Hl _]]].
  exists surface. split; [exact Hr | exact Hl].
Defined.

(* ================================================================== *)
(** * One turn of a display loop *)

Section Turn.
Variable env : Env.
Hypothesis loop_quiet : forall n c, loop_call c = true -> raises env n c = false.

Lemma bind_event_get {B : Type} (t : Tick) (k : list EventType -> M B)
    (s : State) :
  bind (event_get t) k s = k (events t) (log (EventGet (events t)) s).
Proof. reflexivity. Qed.

Lemma bind_poll_quit {B : Type} (evs : list EventType) (k : unit -> M B)
    (s : State) :
  existsb is_quit evs = false -> bind (poll_quit evs) k s = k tt s.
Proof.
  intros Hq. apply bind_val. now rewrite poll_quit_spec, Hq.
Qed.

Lemma bind_run_step {B : Type} (k : Control -> M B) (s : State) :
  bind (run_step env) k s
  = k (next_control env (length (trace s))) (log RunStep s).
Proof.
  apply bind_val. unfold run_step.
  now rewrite (call_ok env RunStep s) by (now apply loop_quiet).
Qed.

(** A turn that finds the frame [image] in the slot. *)
Lemma SpwnSpcfcLocCamOk_tick_ok (t : Tick) (image : Image) (array : ndarray3)
    (s : State) :
  existsb is_quit (events t) = false ->
  latest_image s = Some image ->
  image_truth image = true ->
  carla_image_to_pygame image = Ok array ->
  SpwnSpcfcLocCamOk.tick env t s
  = (Val tt,
     add_calls [EventGet (events t);
                MakeSurface (swapaxes01 (width image) array); Blit;
                Flip; ClockTick 30] s).
Proof.
  intros Hq Hs Ht Hd. unfold SpwnSpcfcLocCamOk.tick.
  rewrite bind_event_get, bind_poll_quit by exact Hq.
  rewrite (bind_val _ _ _ _ _
             (render_latest_ok env loop_quiet image array
                (log (EventGet (events t)) s) Hs Ht Hd)).
  rewrite (bind_loop_call env loop_quiet) by reflexivity.
  rewrite call_ok by (now apply loop_quiet).
  unfold log. now rewrite !add_calls_app.
Qed.

Lemma BasicEgentFirstTime_tick_ok (v : Actor) (t : Tick) (image : Image)
    (array : ndarray3) (s : State) :
  existsb is_quit (events t) = false ->
  latest_image s = Some image ->
  image_truth image = true ->
  carla_image_to_pygame image = Ok array ->
  BasicEgentFirstTime.tick env v t s
  = (Val tt,
     add_calls [EventGet (events t); RunStep;
                ApplyControl v (next_control env (S (length (trace s))));
                MakeSurface (swapaxes01 (width image) array); Blit;
                Flip; ClockTick 30] s).
Proof.
  intros Hq Hs Ht Hd. unfold BasicEgentFirstTime.tick.
  rewrite bind_event_get, bind_poll_quit by exact Hq.
  rewrite bind_run_step.
  rewrite (bind_loop_call env loop_quiet) by reflexivity.
  match goal with
  | |- bind (render_latest env) _ ?s1 = _ =>
      rewrite (bind_val _ _ _ _ _
                 (render_latest_ok env loop_quiet image array s1 Hs Ht Hd))
  end.
  rewrite (bind_loop_call env loop_quiet) by reflexivity.
  rewrite call_ok by (now apply loop_quiet).
  unfold log. rewrite !add_calls_app. cbn [app].
  rewrite trace_add_calls, length_app, Nat.add_comm. reflexivity.
Qed.

End Turn.

(** The calls of a turn that starts with the delivery of frames. *)
Lemma calls_of_turn (fs : list Image) (body : M unit) (l : list Call)
    (s : State) :
  body (snd (deliver fs s)) = (Val tt, add_calls l (snd (deliver fs s))) ->
  calls_of (deliver fs ;; body) s = l.
Proof.
  intros Hb. destruct (deliver_val fs s) as [Hv Htr].
  unfold calls_of.
  assert (Hd : deliver fs s = (Val tt, snd (deliver fs s))).
  { rewrite <- Hv. now destruct (deliver fs s). }
  rewrite (bind_val _ _ _ _ _ Hd), Hb. cbn [snd].
  rewrite trace_add_calls, Htr, skipn_app, skipn_all, Nat.sub_diag.
  reflexivity.
Qed.

(** One turn of the display loops of [spwnSpcfcLocCamOk.py] and
    [addingTraffic.py] during which the frames [fs ++ [f]] arrived, [f]
    well formed, and no quit event: the events are polled, the newest
    frame [f] is decoded and drawn, and none of the older ones; then the
    display is flipped and the clock ticks at 30 frames per second. *)
Theorem turn_renders_newest_frame (env : Env) (t : Tick) (fs : list Image)
    (f : Image) (s : State) :
  frames t = fs ++ [f] ->
  existsb is_quit (events t) = false ->
  image_truth f = true ->
  length (raw_data f) = width f * height f * 4 ->
  (forall n c, loop_call c = true -> raises env n c = false) ->
  exists array,
    carla_image_to_pygame f = Ok array /\
    calls_of (deliver (frames t) ;; SpwnSpcfcLocCamOk.tick env t) s
    = [EventGet (events t); MakeSurface (swapaxes01 (width f) array); Blit;
       Flip; ClockTick 30] /\
    calls_of (deliver (frames t) ;; AddingTraffic.tick env t) s
    = [EventGet (events t); MakeSurface (swapaxes01 (width f) array); Blit;
       Flip; ClockTick 30].
Proof.
  intros Hf Hq Ht Hlen Hquiet.
  destruct (carla_image_to_pygame_ok f Hlen) as [array Hd].
  exists array. split; [exact Hd|].
  assert (Hs : latest_image (snd (deliver (frames t) s)) = Some f)
    by (rewrite Hf; apply deliver_last).
  split; apply calls_of_turn;
    now apply SpwnSpcfcLocCamOk_tick_ok with (image := f).
Qed.

Lemma turn_renders_newest_frame_witness :
  exists array,
    carla_image_to_pygame good_frame = Ok array /\
    calls_of (deliver (frames frame_tick) ;;
              SpwnSpcfcLocCamOk.tick calm frame_tick) initial
    = [EventGet (events frame_tick);
       MakeSurface (swapaxes01 (width good_frame) array); Blit;
       Flip; ClockTick 30].
Proof.
  assert (H1 : length (raw_data good_frame)
               = width good_frame * height good_frame * 4) by reflexivity.
  destruct (turn_renders_newest_frame calm frame_tick [] good_frame initial
              eq_refl eq_refl eq_refl H1 (fun _ _ _ => eq_refl))
    as [array [Hd [Hc _]]].
  exists array. split; [exact Hd | exact Hc].
Defined.

(** One such turn of the display loop of [basicEgentFirstTime.py]: after
    the poll, the agent computes a control, which is applied as it is to
    the reference vehicle, before the newest frame is drawn. *)
Theorem agent_turn_controls_then_renders (env : Env) (v : Actor) (t : Tick)
    (fs : list Image) (f : Image) (s : State) :
  frames t = fs ++ [f] ->
  existsb is_quit (events t) = false ->
  image_truth f = true ->
  length (raw_data f) = width f * height f * 4 ->
  (forall n c, loop_call c = true -> raises env n c = false) ->
  exists array,
    carla_image_to_pygame f = Ok array /\
    calls_of (deliver (frames t) ;; BasicEgentFirstTime.tick env v t) s
    = [EventGet (events t); RunStep;
       ApplyControl v (next_control env (S (length (trace s))));
       MakeSurface (swapaxes01 (width f) array); Blit;
       Flip; ClockTick 30].
Proof.
  intros Hf Hq Ht Hlen Hquiet.
  destruct (carla_image_to_pygame_ok f Hlen) as [array Hd].
  exists array. split; [exact Hd|].
  assert (Hs : latest_image (snd (deliver (frames t) s)) = Some f)
    by (rewrite Hf; apply deliver_last).
  apply calls_of_turn.
  rewrite (BasicEgentFirstTime_tick_ok env Hquiet v t f array _ Hq Hs Ht Hd).
  destruct (deliver_val (frames t) s) as [_ ->]. reflexivity.
Qed.

Lemma agent_turn_controls_then_renders_witness :
  exists array,
    carla_image_to_pygame good_frame = Ok array /\
    calls_of (deliver (frames frame_tick) ;;
              BasicEgentFirstTime.tick calm 12 frame_tick) initial
    = [EventGet (events frame_tick); RunStep; ApplyControl 12 1;
       MakeSurface (swapaxes01 (width good_frame) array); Blit;
       Flip; ClockTick 30].
Proof.
  assert (H1 : length (raw_data good_frame)
               = width good_frame * height good_frame * 4) by reflexivity.
  exact (agent_turn_controls_then_renders calm 12 frame_tick [] good_frame
           initial eq_refl eq_refl eq_refl H1 (fun _ _ _ => eq_refl)).
Defined.

Section IdleTurn.
Variable env : Env.
Hypothesis loop_quiet : forall n c, loop_call c = true -> raises env n c = false.

Lemma SpwnSpcfcLocCamOk_tick_idle (t : Tick) (s : State) :
  existsb is_quit (events t) = false ->
  latest_image s = None ->
  SpwnSpcfcLocCamOk.tick env t s
  = (Val tt, add_calls [EventGet (events t); Flip; ClockTick 30] s).
Proof.
  intros Hq Hs. unfold SpwnSpcfcLocCamOk.tick.
  rewrite bind_event_get, bind_poll_quit by exact Hq.
  rewrite (bind_val _ _ _ _ _
             (render_latest_none env (log (EventGet (events t)) s) Hs)).
  rewrite (bind_loop_call env loop_quiet) by reflexivity.
  rewrite call_ok by (now apply loop_quiet).
  unfold log. now rewrite !add_calls_app.
Qed.

Lemma BasicEgentFirstTime_tick_idle (v : Actor) (t : Tick) (s : State) :
  existsb is_quit (events t) = false ->
  latest_image s = None ->
  BasicEgentFirstTime.tick env v t s
  = (Val tt,
     add_calls [EventGet (events t); RunStep;
                ApplyControl v (next_control env (S (length (trace s))));
                Flip; ClockTick 30] s).
Proof.
  intros Hq Hs. unfold BasicEgentFirstTime.tick.
  rewrite bind_event_get, bind_poll_quit by exact Hq.
  rewrite (bind_run_step env loop_quiet).
  rewrite (bind_loop_call env loop_quiet) by reflexivity.
  match goal with
  | |- bind (render_latest env) _ ?s1 = _ =>
      rewrite (bind_val _ _ _ _ _ (render_latest_none env s1 Hs))
  end.
  rewrite (bind_loop_call env loop_quiet) by reflexivity.
  rewrite call_ok by (now apply loop_quiet).
  unfold log. rewrite !add_calls_app. cbn [app].
  rewrite trace_add_calls, length_app, Nat.add_comm. reflexivity.
Qed.

End IdleTurn.

(** A turn of a display loop while the camera has not delivered any
    frame yet: nothing is decoded nor drawn, but the display is flipped
    and the clock ticks as in any turn, and in [basicEgentFirstTime.py]
    the agent drives the vehicle all the same. *)
Theorem turn_without_frame_draws_nothing (env : Env) (t : Tick) (s : State) :
  latest_image s = None ->
  frames t = [] ->
  existsb is_quit (events t) = false ->
  (forall n c, loop_call c = true -> raises env n c = false) ->
  calls_of (deliver (frames t) ;; SpwnSpcfcLocCamOk.tick env t) s
  = [EventGet (events t); Flip; ClockTick 30] /\
  calls_of (deliver (frames t) ;; AddingTraffic.tick env t) s
  = [EventGet (events t); Flip; ClockTick 30] /\
  forall v,
    calls_of (deliver (frames t) ;; BasicEgentFirstTime.tick env v t) s
    = [EventGet (events t); RunStep;
       ApplyControl v (next_control env (S (length (trace s))));
       Flip; ClockTick 30].
Proof.
  intros Hs Hf Hq Hquiet. rewrite Hf.
  split; [|split; [|intros v]]; apply calls_of_turn; cbn [deliver for_each snd ret].
  - now apply SpwnSpcfcLocCamOk_tick_idle.
  - now apply SpwnSpcfcLocCamOk_tick_idle.
  - now apply BasicEgentFirstTime_tick_idle.
Qed.

Lemma turn_without_frame_draws_nothing_witness :
  latest_image initial = None /\
  frames idle_tick = [] /\
  existsb is_quit (events idle_tick) = false /\
  calls_of (deliver (frames idle_tick) ;;
            SpwnSpcfcLocCamOk.tick calm idle_tick) initial
  = [EventGet (events idle_tick); Flip; ClockTick 30].
Proof.
  split; [reflexivity|]. split; [reflexivity|]. split; [reflexivity|].
  exact (proj1 (turn_without_frame_draws_nothing calm idle_tick initial
                  eq_refl eq_refl eq_refl (fun _ _ _ => eq_refl))).
Defined.

(* ================================================================== *)
(** * The session of [spwnSpcfcLocCamOk.py] *)

Lemma SpwnSpcfcLocCamOk_body_none_released (env : Env) (ticks : list Tick) :
  triple none_released (SpwnSpcfcLocCamOk.body env ticks)
    (fun _ => none_released) (fun _ => none_released).
Proof.
  apply SpwnSpcfcLocCamOk_keep_body; auto.
  - intros c Hc. apply none_released_stable.
    unfold setup_call in Hc. now destruct (teardown_call c), (loop_call c).
  - now apply none_released_blind.
  - now apply none_released_blind.
  - now apply none_released_blind.
  - apply keep_while_true; [auto | now apply none_released_blind |].
    intros t. apply SpwnSpcfcLocCamOk_keep_tick; auto.
    intros c Hc. apply none_released_stable. now destruct c.
Qed.

(** When [main] of [spwnSpcfcLocCamOk.py] is left, the handles on which
    [destroy] was called are the first ones of the list camera, vehicle
    (those of them [main] holds), in this order; they are the whole list
    when no call of the [finally] block raises. *)
Theorem camera_session_releases_in_order (env : Env) (ticks : list Tick) :
  released_in_order env SpwnSpcfcLocCamOk.release_order
    (fst (SpwnSpcfcLocCamOk.main env ticks initial))
    (snd (SpwnSpcfcLocCamOk.main env ticks initial)).
Proof.
  set (I0 := fun s => none_released s
                      /\ SpwnSpcfcLocCamOk.release_order s = []).
  assert (H : triple I0 (SpwnSpcfcLocCamOk.main env ticks)
                (fun _ s => released_in_order env
                              SpwnSpcfcLocCamOk.release_order (Val tt) s)
                (fun w s => released_in_order env
                              SpwnSpcfcLocCamOk.release_order (stopped w) s)).
  { unfold SpwnSpcfcLocCamOk.main.
    eapply triple_bind with (Q := fun _ => none_released).
    - eapply triple_weaken with (P' := I0) (Q' := fun _ => I0)
                                (E' := fun _ => I0).
      + apply keep_pygame_setup; [auto|].
        intros c Hc s [H1 H2]. split; [|exact H2].
        apply none_released_stable; [|exact H1].
        simpl in Hc. intuition (subst; reflexivity).
      + auto.
      + now intros _ s [H1 _].
      + intros w s [H1 H2]. now apply in_order_initially.
    - intros _. apply triple_finally_in_order.
      + reflexivity.
      + apply SpwnSpcfcLocCamOk_teardown_release.
      + apply SpwnSpcfcLocCamOk_body_none_released. }
  specialize (H initial (conj eq_refl eq_refl)).
  destruct (fst (SpwnSpcfcLocCamOk.main env ticks initial)) as [[]| |e|];
    exact H.
Qed.

Lemma camera_session_releases_in_order_witness :
  let r := SpwnSpcfcLocCamOk.main crowded [frame_tick; quit_tick] initial in
  teardown_quiet crowded /\ exited (fst r) /\
  released (trace (snd r)) = SpwnSpcfcLocCamOk.release_order (snd r).
Proof.
  cbv zeta.
  assert (H2 : teardown_quiet crowded) by (intros n c _; reflexivity).
  assert (H3 : exited (fst (SpwnSpcfcLocCamOk.main crowded
                              [frame_tick; quit_tick] initial)))
    by (vm_compute; discriminate).
  destruct (camera_session_releases_in_order crowded [frame_tick; quit_tick])
    as [_ H].
  split; [exact H2|]. split; [exact H3 | exact (H H2 H3)].
Defined.

(* ------------------------------------------------------------------ *)

Lemma SpwnSpcfcLocCamOk_body_quit (env : Env) (ticks : list Tick) :
  triple no_quit_yet (SpwnSpcfcLocCamOk.body env ticks)
    (fun _ => no_quit_yet) stops_on_quit.
Proof.
  apply SpwnSpcfcLocCamOk_keep_body;
    try (now apply no_quit_yet_blind); try apply no_quit_stops;
    try apply setup_call_no_quit.
  apply keep_while_true;
    [apply no_quit_stops | now apply no_quit_yet_blind |].
  apply AddingTraffic_tick_quit.
Qed.

(** In a trace of [main] of [spwnSpcfcLocCamOk.py], the calls that come
    after a [pygame.event.get()] that returned a quit event are calls of
    the [finally] block only: nothing is drawn any more, and [main] has
    been left. *)
Theorem camera_session_stops_on_quit (env : Env) (ticks : list Tick)
    (pre post : list Call) (evs : list EventType) :
  In QUIT evs ->
  trace (snd (SpwnSpcfcLocCamOk.main env ticks initial))
    = pre ++ EventGet evs :: post ->
  exited (fst (SpwnSpcfcLocCamOk.main env ticks initial)) /\
  Forall (fun c => is_render c = false /\ is_control c = false) post /\
  Forall (fun c => teardown_call c = true) post.
Proof.
  intros Hin Htr.
  assert (H : triple no_quit_yet (SpwnSpcfcLocCamOk.main env ticks)
                (fun _ s => stopped_on_quit (Val tt) s)
                (fun w s => stopped_on_quit (stopped w) s)).
  { unfold SpwnSpcfcLocCamOk.main.
    eapply triple_bind with (Q := fun _ => no_quit_yet).
    - apply keep_pygame_setup; [intros w s Hs; now left|].
      intros c Hc. apply no_quit_yet_stable.
      simpl in Hc. intuition (subst; reflexivity).
    - intros _. apply triple_finally_quit
        with (env := env) (order := SpwnSpcfcLocCamOk.release_order).
      + apply SpwnSpcfcLocCamOk_teardown_release.
      + apply SpwnSpcfcLocCamOk_body_quit. }
  specialize (H initial eq_refl).
  apply stopped_on_quit_after
    with (s := snd (SpwnSpcfcLocCamOk.main env ticks initial))
         (pre := pre) (evs := evs); auto.
  destruct (fst (SpwnSpcfcLocCamOk.main env ticks initial)) as [[]| |e|];
    exact H.
Qed.

Lemma camera_session_stops_on_quit_witness :
  let r := SpwnSpcfcLocCamOk.main calm [frame_tick; quit_tick] initial in
  In QUIT (events quit_tick) /\
  trace (snd r)
  = firstn 22 (trace (snd r)) ++ EventGet (events quit_tick)
    :: skipn 23 (trace (snd r)) /\
  exited (fst r) /\
  Forall (fun c => teardown_call c = true) (skipn 23 (trace (snd r))).
Proof.
  cbv zeta.
  assert (H1 : In QUIT (events quit_tick)) by (right; now left).
  assert (H2 : trace (snd (SpwnSpcfcLocCamOk.main calm
                             [frame_tick; quit_tick] initial))
               = firstn 22 (trace (snd (SpwnSpcfcLocCamOk.main calm
                                          [frame_tick; quit_tick] initial)))
                 ++ EventGet (events quit_tick)
                 :: skipn 23 (trace (snd (SpwnSpcfcLocCamOk.main calm
                                            [frame_tick; quit_tick] initial))))
    by (vm_compute; reflexivity).
  destruct (camera_session_stops_on_quit calm [frame_tick; quit_tick]
              _ _ _ H1 H2) as [H3 [_ H4]].
  split; [exact H1|]. split; [exact H2|]. split; [exact H3 | exact H4].
Defined.

(* ------------------------------------------------------------------ *)

Lemma SpwnSpcfcLocCamOk_main_cases (env : Env) (ticks : list Tick) :
  exists s0,
    holds_so_far env None None None s0 /\
    (SpwnSpcfcLocCamOk.main env ticks initial = (Exc RuntimeError, s0) \/
     SpwnSpcfcLocCamOk.main env ticks initial
     = finally (except_print (SpwnSpcfcLocCamOk.body env ticks))
         (SpwnSpcfcLocCamOk.teardown env) s0).
Proof.
  unfold SpwnSpcfcLocCamOk.main.
  destruct (pygame_setup_cases env initial (holds_so_far_initial env))
    as [s0 [Hs0 [H | H]]].
  - exists s0. split; [exact Hs0 | left]. now rewrite (bind_exc _ _ _ _ _ H).
  - exists s0. split; [exact Hs0 | right]. now rewrite (bind_val _ _ _ _ _ H).
Qed.

Lemma SpwnSpcfcLocCamOk_body_holds_acquired (env : Env) (ticks : list Tick) :
  triple (holds_acquired env) (SpwnSpcfcLocCamOk.body env ticks)
    (fun _ => holds_acquired env) (fun _ => holds_acquired env).
Proof.
  apply SpwnSpcfcLocCamOk_body_keeps; auto.
  - apply holds_acquired_setup.
  - apply holds_acquired_image.
  - apply holds_acquired_vehicle.
  - apply holds_acquired_camera.
  - apply keep_while_true; [auto | apply holds_acquired_image |].
    intros t. apply SpwnSpcfcLocCamOk_keep_tick; auto.
    apply holds_acquired_loop.
Qed.

(** The handles acquired in the [try] block of [spwnSpcfcLocCamOk.py] are
    those its variables hold. *)
Lemma SpwnSpcfcLocCamOk_body_holds_all (env : Env) (ticks : list Tick) :
  triple (holds_so_far env None None None)
    (SpwnSpcfcLocCamOk.body env ticks)
    (fun _ => holds_all env) (fun _ => holds_all env).
Proof.
  unfold SpwnSpcfcLocCamOk.body.
  assert (Hcall : forall vo co c, plain_call c = true ->
            triple (holds_so_far env vo co None) (call env c)
              (fun _ => holds_so_far env vo co None)
              (fun _ => holds_all env)).
  { intros vo co c Hc. apply keep_call; [intros w; apply (so_far_all env vo co None w)|].
    now apply holds_so_far_stable. }
  assert (Hfind : forall vo co id,
            triple (holds_so_far env vo co None) (find env id)
              (fun _ => holds_so_far env vo co None)
              (fun _ => holds_all env)).
  { intros vo co id. apply keep_find; [intros w; apply (so_far_all env vo co None w)|].
    now apply holds_so_far_stable. }
  eapply triple_bind; [apply connect_so_far | intros ?].
  eapply triple_bind; [now apply Hcall | intros ?].
  eapply triple_bind; [now apply Hcall | intros ?].
  eapply triple_bind; [apply Hfind | intros vehicle_bp].
  eapply triple_bind; [apply spawn_points_so_far | intros sps].
  apply triple_pure. intros _.
  destruct sps as [|spawn_point sps];
    [apply triple_return; apply (so_far_all env None None None ByReturn)|].
  eapply triple_bind; [apply holds_so_far_vehicle | intros [vehicle|]];
    [|apply triple_return; apply (so_far_all env None None None ByReturn)].
  eapply triple_bind; [apply Hfind | intros camera_bp].
  eapply triple_bind; [apply holds_so_far_camera | intros camera].
  eapply triple_bind with (Q := fun _ => holds_all env).
  { apply triple_assign. intros s Hs.
    apply (so_far_all env (Some vehicle) (Some camera) None ByReturn).
    now apply holds_so_far_image. }
  intros ?. eapply triple_bind with (Q := fun _ => holds_all env).
  { apply keep_call; [auto | now apply holds_all_stable]. }
  intros ?. apply keep_while_true; [auto | apply holds_all_image |].
  intros t. apply SpwnSpcfcLocCamOk_keep_tick; [auto|].
  apply holds_all_loop.
Qed.

Lemma SpwnSpcfcLocCamOk_no_bus_no_cars (env : Env) (ticks : list Tick) :
  triple (fun s => bus s = None /\ traffic_cars s = [])
    (SpwnSpcfcLocCamOk.body env ticks)
    (fun _ s => bus s = None /\ traffic_cars s = [])
    (fun _ s => bus s = None /\ traffic_cars s = []).
Proof.
  apply SpwnSpcfcLocCamOk_keep_body; try easy.
  apply keep_while_true; try easy.
  intros t. now apply SpwnSpcfcLocCamOk_keep_tick.
Qed.

Lemma release_order_held_S (s : State) :
  incl (SpwnSpcfcLocCamOk.release_order s)
    (opt_list (camera s) ++ opt_list (vehicle s) ++ opt_list (bus s)
     ++ traffic_cars s).
Proof.
  unfold SpwnSpcfcLocCamOk.release_order. intros a Ha.
  apply in_app_or in Ha. destruct Ha as [Ha | Ha];
    repeat (apply in_or_app; first [now left | right]); assumption.
Qed.

(** In every run of [main] of [spwnSpcfcLocCamOk.py], a handle on which
    [destroy] is called was acquired; and when [main] is left and no call
    of the [finally] block raises, [destroy] has been called exactly once
    on every handle acquired. *)
Theorem camera_session_handles_released_once (env : Env) (ticks : list Tick) :
  only_acquired_released env
    (trace (snd (SpwnSpcfcLocCamOk.main env ticks initial))) /\
  (teardown_quiet env ->
   exited (fst (SpwnSpcfcLocCamOk.main env ticks initial)) ->
   all_released_once env
     (trace (snd (SpwnSpcfcLocCamOk.main env ticks initial)))).
Proof.
  destruct (SpwnSpcfcLocCamOk_main_cases env ticks) as [s0 [Hs0 [-> | ->]]].
  - split; [|intros _ _]; now apply nothing_released_yet.
  - split.
    + apply finally_only_acquired
        with (order := SpwnSpcfcLocCamOk.release_order).
      * apply SpwnSpcfcLocCamOk_teardown_release.
      * apply (triple_state (holds_acquired env));
          [apply SpwnSpcfcLocCamOk_body_holds_acquired
          | now apply so_far_acquired].
      * apply release_order_held_S.
    + intros Hquiet Hex.
      assert (Hall : holds_all env
                       (snd (SpwnSpcfcLocCamOk.body env ticks s0))).
      { apply (triple_state (holds_so_far env None None None));
          [apply SpwnSpcfcLocCamOk_body_holds_all | exact Hs0]. }
      assert (Hno : bus (snd (SpwnSpcfcLocCamOk.body env ticks s0)) = None
                    /\ traffic_cars (snd (SpwnSpcfcLocCamOk.body env ticks s0))
                       = []).
      { apply (triple_state (fun s => bus s = None /\ traffic_cars s = [])
                 (SpwnSpcfcLocCamOk.body env ticks)
                 (fun s => bus s = None /\ traffic_cars s = []));
          [apply SpwnSpcfcLocCamOk_no_bus_no_cars|].
        destruct Hs0 as [_ [_ [_ [_ [H5 H6]]]]]. now split. }
      destruct Hall as [Hnr Hacq]. destruct Hno as [Hbus Hcars].
      apply finally_all_released
        with (order := SpwnSpcfcLocCamOk.release_order); auto.
      * apply SpwnSpcfcLocCamOk_teardown_release.
      * rewrite Hacq, Hbus, Hcars.
        unfold SpwnSpcfcLocCamOk.release_order. cbn [opt_list].
        rewrite !app_nil_r. apply Permutation_app_comm.
Qed.

Lemma camera_session_handles_released_once_witness :
  let r := SpwnSpcfcLocCamOk.main crowded [frame_tick; quit_tick] initial in
  teardown_quiet crowded /\ exited (fst r) /\
  only_acquired_released crowded (trace (snd r)) /\
  all_released_once crowded (trace (snd r)).
Proof.
  cbv zeta.
  assert (H2 : teardown_quiet crowded) by (intros n c _; reflexivity).
  assert (H3 : exited (fst (SpwnSpcfcLocCamOk.main crowded
                              [frame_tick; quit_tick] initial)))
    by (vm_compute; discriminate).
  destruct (camera_session_handles_released_once crowded
              [frame_tick; quit_tick]) as [Ha Hb].
  split; [exact H2|]. split; [exact H3|].
  split; [exact Ha | exact (Hb H2 H3)].
Defined.

(* ================================================================== *)
(** * Errors of the [try] block *)

Lemma pygame_setup_ok (env : Env) (s : State) :
  pygame_setup_quiet env ->
  pygame_setup env s = (Val tt, add_calls pygame_setup_calls s).
Proof.
  intros Hq. unfold pygame_setup.
  assert (Hb : forall (c : Call) (k : unit -> M unit) s0,
            In c pygame_setup_calls ->
            bind (call env c) k s0 = k tt (log c s0)).
  { intros c k s0 Hc. apply bind_val, call_ok. now apply Hq. }
  rewrite !Hb by (simpl; tauto).
  rewrite call_ok by (apply Hq; simpl; tauto).
  unfold log. now rewrite !add_calls_app.
Qed.

Lemma teardown_quiet_val (env : Env) (order : State -> list Actor)
    (teardown : M unit) (s : State) :
  (forall s', teardown s'
              = (call env PygameQuit ;; release_list env (order s'))%script s') ->
  teardown_quiet env -> fst (teardown s) = Val tt.
Proof.
  intros Ht Hq. rewrite Ht.
  destruct (quit_then_release_spec env (order s) s)
    as [done [rest [_ [_ [_ [_ H]]]]]].
  now apply H.
Qed.

(** [try: ... except Exception: ... finally: ...] with a [finally] block
    that completes does not end with an exception that is an instance of
    [Exception], as those of [exn] all are. *)
Lemma finally_catches (body teardown : M unit) (s : State) (e : exn) :
  (forall s', fst (teardown s') = Val tt) ->
  fst (finally (except_print body) teardown s) <> Exc e.
Proof.
  intros Ht. unfold finally, except_print.
  destruct (body s) as [[[]| |e'|] s1]; try discriminate;
    specialize (Ht s1); destruct (teardown s1) as [[[]| |e''|] s2];
    simpl in Ht; try discriminate.
Qed.

(** An exception that is an instance of [Exception] and is raised in the
    [try] block (a failed connection, a missing blueprint, a spawn of the
    camera that fails, the [ZeroDivisionError] of the spawner, the
    [ValueError] of a malformed frame) never leaves [main]: when the
    pygame calls made before the [try] statement and the calls of the
    [finally] block do not raise, [main] does not end with such an
    exception.  The exceptions [e] of the statement are those of [exn]:
    [KeyboardInterrupt] and [SystemExit] are not instances of
    [Exception], [except Exception] does not catch them, and nothing is
    said of them. *)
Theorem session_errors_are_caught (env : Env) (ticks : list Tick) (e : exn) :
  pygame_setup_quiet env ->
  teardown_quiet env ->
  fst (SpwnSpcfcLocCamOk.main env ticks initial) <> Exc e /\
  fst (AddingTraffic.main env ticks initial) <> Exc e /\
  fst (BasicEgentFirstTime.main env ticks initial) <> Exc e.
Proof.
  intros Hp Hq. split; [|split].
  - unfold SpwnSpcfcLocCamOk.main.
    rewrite (bind_val _ _ _ _ _ (pygame_setup_ok env initial Hp)).
    apply finally_catches. intros s'.
    now apply teardown_quiet_val
      with (env := env) (order := SpwnSpcfcLocCamOk.release_order);
      [apply SpwnSpcfcLocCamOk_teardown_release|].
  - unfold AddingTraffic.main.
    rewrite (bind_val _ _ _ _ _ (pygame_setup_ok env initial Hp)).
    rewrite bind_assign.
    apply finally_catches. intros s'.
    now apply teardown_quiet_val
      with (env := env) (order := AddingTraffic.release_order);
      [apply AddingTraffic_teardown_release|].
  - unfold BasicEgentFirstTime.main.
    rewrite (bind_val _ _ _ _ _ (pygame_setup_ok env initial Hp)).
    rewrite !bind_assign.
    apply finally_catches. intros s'.
    now apply teardown_quiet_val
      with (env := env) (order := BasicEgentFirstTime.release_order);
      [apply BasicEgentFirstTime_teardown_release|].
Qed.

Lemma session_errors_are_caught_witness :
  pygame_setup_quiet camera_refused /\
  teardown_quiet camera_refused /\
  fst (SpwnSpcfcLocCamOk.main camera_refused [frame_tick] initial)
  <> Exc RuntimeError.
Proof.
  assert (H1 : pygame_setup_quiet camera_refused) by (intros n c _; reflexivity).
  assert (H2 : teardown_quiet camera_refused) by (intros n c _; reflexivity).
  split; [exact H1|]. split; [exact H2|].
  exact (proj1 (session_errors_are_caught camera_refused [frame_tick]
                  RuntimeError H1 H2)).
Defined.

(** The session of the sample world in which the camera is refused: the
    error is caught, the vehicle, which had been created, is released. *)
Example camera_refused_session :
  let r := SpwnSpcfcLocCamOk.main camera_refused [frame_tick] initial in
  fst r = Val tt /\
  acquired camera_refused (trace (snd r)) = [13] /\
  filter is_poll (trace (snd r)) = [] /\
  released (trace (snd r)) = [13].
Proof. vm_compute. repeat split. Qed.

(** A connection that fails ends the session before anything is
    spawned: when [carla.Client] raises, [main] of each file only closes
    pygame; it requests no blueprint and no actor, releases nothing, and
    ends normally, the error being caught. *)
Theorem connection_failure_ends_session (env : Env) (ticks : list Tick) :
  pygame_setup_quiet env ->
  (forall n, raises env n PygameQuit = false) ->
  (forall n, raises env n (NewClient "ce-gpu.informatik.tu-chemnitz.de" 2110)
             = true) ->
  let session :=
    (Val tt,
     add_calls (pygame_setup_calls
                ++ [NewClient "ce-gpu.informatik.tu-chemnitz.de" 2110;
                    PygameQuit]) initial) in
  SpwnSpcfcLocCamOk.main env ticks initial = session /\
  AddingTraffic.main env ticks initial = session /\
  BasicEgentFirstTime.main env ticks initial = session.
Proof.
  intros Hp Hquit Hconn. cbv zeta.
  assert (Hbody : forall (k : unit -> M unit) s,
            bind (connect env) k s
            = (Exc RuntimeError,
               log (NewClient "ce-gpu.informatik.tu-chemnitz.de" 2110) s)).
  { intros k s. apply bind_exc. unfold connect.
    apply bind_exc, call_raises, Hconn. }
  assert (Hfin : forall (body : M unit) (final : M unit) s s1,
            body s = (Exc RuntimeError, s1) ->
            final s1 = (Val tt, log PygameQuit s1) ->
            finally (except_print body) final s = (Val tt, log PygameQuit s1)).
  { intros body final s s1 Hb Hf. unfold finally, except_print.
    now rewrite Hb, Hf. }
  split; [|split].
  - unfold SpwnSpcfcLocCamOk.main.
    rewrite (bind_val _ _ _ _ _ (pygame_setup_ok env initial Hp)).
    erewrite Hfin; [ | apply Hbody | ]; [reflexivity|].
    unfold SpwnSpcfcLocCamOk.teardown.
    rewrite (bind_val _ _ _ _ _ (call_ok env PygameQuit _ (Hquit _))).
    reflexivity.
  - unfold AddingTraffic.main.
    rewrite (bind_val _ _ _ _ _ (pygame_setup_ok env initial Hp)).
    rewrite bind_assign.
    erewrite Hfin; [ | apply Hbody | ]; [reflexivity|].
    unfold AddingTraffic.teardown.
    rewrite (bind_val _ _ _ _ _ (call_ok env PygameQuit _ (Hquit _))).
    reflexivity.
  - unfold BasicEgentFirstTime.main.
    rewrite (bind_val _ _ _ _ _ (pygame_setup_ok env initial Hp)).
    rewrite !bind_assign.
    erewrite Hfin; [ | apply Hbody | ]; [reflexivity|].
    unfold BasicEgentFirstTime.teardown.
    rewrite (bind_val _ _ _ _ _ (call_ok env PygameQuit _ (Hquit _))).
    reflexivity.
Qed.

Lemma connection_failure_ends_session_witness :
  pygame_setup_quiet unreachable /\
  (forall n, raises unreachable n PygameQuit = false) /\
  (forall n, raises unreachable n
               (NewClient "ce-gpu.informatik.tu-chemnitz.de" 2110) = true) /\
  BasicEgentFirstTime.main unreachable [frame_tick; quit_tick] initial
  = (Val tt,
     add_calls (pygame_setup_calls
                ++ [NewClient "ce-gpu.informatik.tu-chemnitz.de" 2110;
                    PygameQuit]) initial).
Proof.
  assert (H1 : pygame_setup_quiet unreachable).
  { intros n c Hc. simpl in Hc.
    destruct Hc as [<- | [<- | [<- | [<- | []]]]]; reflexivity. }
  assert (H2 : forall n, raises unreachable n PygameQuit = false)
    by reflexivity.
  assert (H3 : forall n, raises unreachable n
                 (NewClient "ce-gpu.informatik.tu-chemnitz.de" 2110) = true)
    by reflexivity.
  split; [exact H1|]. split; [exact H2|]. split; [exact H3|].
  exact (proj2 (proj2 (connection_failure_ends_session unreachable
                         [frame_tick; quit_tick] H1 H2 H3))).
Defined.

(* ================================================================== *)
(** * A world without spawn points *)

Lemma nothing_spawned_log (c : Call) (s : State) :
  plain_call c = true -> loop_call c = false ->
  nothing_spawned s -> nothing_spawned (log c s).
Proof.
  intros H1 H2 [Htr Hv]. split; [|exact Hv].
  unfold log. rewrite trace_add_calls. apply Forall_app. split; [exact Htr|].
  constructor; [now split | constructor].
Qed.

Section NoSpawnPoints.
Variable env : Env.
Hypothesis no_points : spawn_points env = [].

Lemma nothing_spawned_call (c : Call) :
  plain_call c = true -> loop_call c = false ->
  triple nothing_spawned (call env c) (fun _ => nothing_spawned)
    nothing_spawned_stop.
Proof.
  intros H1 H2. apply triple_call; intros s Hs _.
  - now apply nothing_spawned_log.
  - split; [discriminate | now apply nothing_spawned_log].
Qed.

Lemma nothing_spawned_find (id : string) :
  triple nothing_spawned (find env id) (fun _ => nothing_spawned)
    nothing_spawned_stop.
Proof.
  apply triple_find; intros s Hs _.
  - now apply nothing_spawned_log.
  - split; [discriminate | now apply nothing_spawned_log].
Qed.

Lemma nothing_spawned_points :
  triple nothing_spawned (get_spawn_points env)
    (fun sps s => nothing_spawned s /\ sps = []) nothing_spawned_stop.
Proof.
  apply triple_get_spawn_points; intros s Hs _.
  - split; [now apply nothing_spawned_log | exact no_points].
  - split; [discriminate | now apply nothing_spawned_log].
Qed.

Lemma nothing_spawned_connect :
  triple nothing_spawned (connect env) (fun _ => nothing_spawned)
    nothing_spawned_stop.
Proof.
  unfold connect.
  repeat (eapply triple_bind; [now apply nothing_spawned_call | intros ?]).
  now apply nothing_spawned_call.
Qed.

Lemma nothing_spawned_pygame_setup :
  triple nothing_spawned (pygame_setup env) (fun _ => nothing_spawned)
    nothing_spawned_stop.
Proof.
  unfold pygame_setup.
  repeat (eapply triple_bind; [now apply nothing_spawned_call | intros ?]).
  now apply nothing_spawned_call.
Qed.

Lemma SpwnSpcfcLocCamOk_body_no_points (ticks : list Tick) :
  triple nothing_spawned (SpwnSpcfcLocCamOk.body env ticks)
    (fun _ => nothing_spawned) nothing_spawned_stop.
Proof.
  unfold SpwnSpcfcLocCamOk.body.
  eapply triple_bind; [apply nothing_spawned_connect | intros ?].
  eapply triple_bind; [now apply nothing_spawned_call | intros ?].
  eapply triple_bind; [now apply nothing_spawned_call | intros ?].
  eapply triple_bind; [apply nothing_spawned_find | intros vehicle_bp].
  eapply triple_bind; [apply nothing_spawned_points | intros sps].
  apply triple_pure. intros ->. apply triple_return.
  intros s Hs. split; [discriminate | exact Hs].
Qed.

Lemma AddingTraffic_body_no_points (ticks : list Tick) :
  triple nothing_spawned (AddingTraffic.body env ticks)
    (fun _ => nothing_spawned) nothing_spawned_stop.
Proof.
  unfold AddingTraffic.body.
  eapply triple_bind; [apply nothing_spawned_connect | intros ?].
  eapply triple_bind; [now apply nothing_spawned_call | intros ?].
  eapply triple_bind; [now apply nothing_spawned_call | intros ?].
  eapply triple_bind; [apply nothing_spawned_find | intros vehicle_bp].
  eapply triple_bind; [apply nothing_spawned_points | intros sps].
  apply triple_pure. intros ->. apply triple_return.
  intros s Hs. split; [discriminate | exact Hs].
Qed.

Lemma BasicEgentFirstTime_body_no_points (ticks : list Tick) :
  triple nothing_spawned (BasicEgentFirstTime.body env ticks)
    (fun _ => nothing_spawned) nothing_spawned_stop.
Proof.
  unfold BasicEgentFirstTime.body.
  eapply triple_bind; [apply nothing_spawned_connect | intros ?].
  eapply triple_bind; [apply nothing_spawned_points | intros sps].
  apply triple_pure. intros ->. apply triple_return.
  intros s Hs. split; [discriminate | exact Hs].
Qed.

(** With no handle held, the [finally] block only closes pygame. *)
Lemma finally_nothing_spawned (order : State -> list Actor)
    (body teardown : M unit) :
  (forall s', teardown s'
              = (call env PygameQuit ;; release_list env (order s'))%script s') ->
  (forall s', nothing_spawned s' -> order s' = []) ->
  triple nothing_spawned body (fun _ => nothing_spawned)
    nothing_spawned_stop ->
  triple nothing_spawned (finally (except_print body) teardown)
    (fun _ => nothing_spawned) nothing_spawned_stop.
Proof.
  intros Ht Ho Hb s Hs. specialize (Hb s Hs).
  assert (Hs1 : nothing_spawned (snd (body s)) /\ fst (body s) <> Pending).
  { destruct (fst (body s)) as [[]| |e|]; simpl in Hb.
    - split; [exact Hb | discriminate].
    - split; [apply Hb | discriminate].
    - split; [apply Hb | discriminate].
    - now destruct Hb as [Hb _]. }
  destruct Hs1 as [Hs1 Hnp].
  destruct (finally_cases env order body teardown s Ht)
    as [[Hp _] | [_ [done [rest [Hd [Hr [Hex _]]]]]]]; [contradiction|].
  rewrite (Ho _ Hs1) in Hd. symmetry in Hd. apply app_eq_nil in Hd.
  destruct Hd as [-> _]. rewrite Hr.
  assert (Hfin : nothing_spawned (add_calls [PygameQuit] (snd (body s))))
    by (now apply (nothing_spawned_log PygameQuit)).
  destruct (fst (finally (except_print body) teardown s)) as [[]| |e|];
    simpl; try exact Hfin; try (split; [discriminate | exact Hfin]).
  now elim Hex.
Qed.

End NoSpawnPoints.

Lemma nothing_spawned_exited (o : outcome unit) (s : State) :
  post (fun _ => nothing_spawned) nothing_spawned_stop o s ->
  exited o /\ nothing_spawned s.
Proof.
  destruct o as [[]| |e|]; simpl.
  - intros H. split; [discriminate | exact H].
  - intros [_ H]. split; [discriminate | exact H].
  - intros [_ H]. split; [discriminate | exact H].
  - now intros [H _].
Qed.

(** In a world whose map has no spawn point, [main] of each file is left
    without having requested the creation nor the release of any actor,
    and without a single turn of the display loop, whatever calls
    raise. *)
Theorem no_spawn_points_no_session (env : Env) (ticks : list Tick) :
  spawn_points env = [] ->
  (exited (fst (SpwnSpcfcLocCamOk.main env ticks initial)) /\
   Forall (fun c => plain_call c = true /\ loop_call c = false)
     (trace (snd (SpwnSpcfcLocCamOk.main env ticks initial)))) /\
  (exited (fst (AddingTraffic.main env ticks initial)) /\
   Forall (fun c => plain_call c = true /\ loop_call c = false)
     (trace (snd (AddingTraffic.main env ticks initial)))) /\
  (exited (fst (BasicEgentFirstTime.main env ticks initial)) /\
   Forall (fun c => plain_call c = true /\ loop_call c = false)
     (trace (snd (BasicEgentFirstTime.main env ticks initial)))).
Proof.
  intros Hsp.
  assert (H0 : nothing_spawned initial) by (now repeat split).
  assert (Hassign : forall (A : Type) (set : A -> State -> State) (v : A),
            (forall s, nothing_spawned s -> nothing_spawned (set v s)) ->
            triple nothing_spawned (assign set v) (fun _ => nothing_spawned)
              nothing_spawned_stop).
  { intros A set v H. now apply triple_assign. }
  split; [|split].
  - assert (H : triple nothing_spawned (SpwnSpcfcLocCamOk.main env ticks)
                  (fun _ => nothing_spawned) nothing_spawned_stop).
    { unfold SpwnSpcfcLocCamOk.main.
      eapply triple_bind; [apply nothing_spawned_pygame_setup | intros ?].
      apply finally_nothing_spawned
        with (env := env) (order := SpwnSpcfcLocCamOk.release_order).
      - apply SpwnSpcfcLocCamOk_teardown_release.
      - intros s' [_ [Hc [Hv _]]].
        unfold SpwnSpcfcLocCamOk.release_order. now rewrite Hc, Hv.
      - now apply SpwnSpcfcLocCamOk_body_no_points. }
    destruct (nothing_spawned_exited _ _ (H initial H0)) as [H1 [H2 _]].
    now split.
  - assert (H : triple nothing_spawned (AddingTraffic.main env ticks)
                  (fun _ => nothing_spawned) nothing_spawned_stop).
    { unfold AddingTraffic.main.
      eapply triple_bind; [apply nothing_spawned_pygame_setup | intros ?].
      eapply triple_bind; [apply Hassign | intros ?].
      { intros s [H1 [H2 [H3 [H4 H5]]]]. now repeat split. }
      apply finally_nothing_spawned
        with (env := env) (order := AddingTraffic.release_order).
      - apply AddingTraffic_teardown_release.
      - intros s' [_ [Hc [Hv [_ Hcars]]]].
        unfold AddingTraffic.release_order. now rewrite Hc, Hv, Hcars.
      - now apply AddingTraffic_body_no_points. }
    destruct (nothing_spawned_exited _ _ (H initial H0)) as [H1 [H2 _]].
    now split.
  - assert (H : triple nothing_spawned (BasicEgentFirstTime.main env ticks)
                  (fun _ => nothing_spawned) nothing_spawned_stop).
    { unfold BasicEgentFirstTime.main.
      eapply triple_bind; [apply nothing_spawned_pygame_setup | intros ?].
      do 4 (eapply triple_bind;
            [apply Hassign; intros s [H1 [H2 [H3 [H4 H5]]]]; now repeat split
            | intros ?]).
      apply finally_nothing_spawned
        with (env := env) (order := BasicEgentFirstTime.release_order).
      - apply BasicEgentFirstTime_teardown_release.
      - intros s' [_ [Hc [Hv [Hb Hcars]]]].
        unfold BasicEgentFirstTime.release_order.
        now rewrite Hc, Hv, Hb, Hcars.
      - now apply BasicEgentFirstTime_body_no_points. }
    destruct (nothing_spawned_exited _ _ (H initial H0)) as [H1 [H2 _]].
    now split.
Qed.

Lemma no_spawn_points_no_session_witness :
  spawn_points nowhere = [] /\
  exited (fst (AddingTraffic.main nowhere [frame_tick; quit_tick] initial)) /\
  Forall (fun c => plain_call c = true /\ loop_call c = false)
    (trace (snd (AddingTraffic.main nowhere [frame_tick; quit_tick] initial))).
Proof.
  split; [reflexivity|].
  exact (proj1 (proj2 (no_spawn_points_no_session nowhere
                         [frame_tick; quit_tick] eq_refl))).
Defined.

(* ================================================================== *)
(** * What the spawner leaves alone *)

Lemma spawner_calls_since_stable (s : State) (c : Call) :
  spawner_call c = true -> stable (spawner_calls_since s) c.
Proof.
  intros Hc s' [added [-> Hadded]]. exists (added ++ [c]).
  split; [unfold log; now rewrite add_calls_app|].
  apply Forall_app. split; [exact Hadded | now constructor].
Qed.

(** However [spawn_traffic_cars] ends, by returning or with an exception
    of one of its calls, it has only asked for the spawn points, drawn
    vehicle types, looked blueprints up, requested spawns and enabled the
    autopilot: it has released no actor, and the variables of [main] are
    as they were. *)
Theorem spawner_only_spawns (env : Env) (num_cars : nat) (s : State) :
  (exists added,
     snd (AddingTraffic.spawn_traffic_cars env num_cars s) = add_calls added s /\
     Forall (fun c => spawner_call c = true) added /\
     released added = []) /\
  (exists added,
     snd (BasicEgentFirstTime.spawn_traffic_cars env num_cars s)
     = add_calls added s /\
     Forall (fun c => spawner_call c = true) added /\
     released added = []).
Proof.
  assert (Hrel : forall added,
            Forall (fun c => spawner_call c = true) added ->
            released added = []).
  { induction 1 as [|c l Hc _ IH]; [reflexivity|].
    simpl. rewrite IH. now destruct c. }
  assert (H0 : spawner_calls_since s s).
  { exists []. split; [now rewrite add_calls_nil | constructor]. }
  split.
  - destruct (triple_state (spawner_calls_since s)
                (AddingTraffic.spawn_traffic_cars env num_cars)
                (spawner_calls_since s) s) as [added [Hs Hadded]];
      [|exact H0|exists added; auto].
    apply AddingTraffic_keep_spawn_traffic_cars; [auto|].
    apply spawner_calls_since_stable.
  - destruct (triple_state (spawner_calls_since s)
                (BasicEgentFirstTime.spawn_traffic_cars env num_cars)
                (spawner_calls_since s) s) as [added [Hs Hadded]];
      [|exact H0|exists added; auto].
    apply BasicEgentFirstTime_keep_spawn_traffic_cars; [auto|].
    apply spawner_calls_since_stable.
Qed.

(* ================================================================== *)
(** * The blueprints of the traffic *)

Lemma requested_blueprints_app (l1 l2 : list Call) :
  requested_blueprints (l1 ++ l2)
  = requested_blueprints l1 ++ requested_blueprints l2.
Proof. apply flat_map_app. Qed.

Lemma requests_since_stable (good : Blueprint -> Prop) (s : State) (c : Call) :
  (forall bp t, c = TrySpawnActor bp t -> good bp) ->
  stable (requests_since good s) c.
Proof.
  intros Hc s' [added [-> Hadded]]. exists (added ++ [c]).
  split; [unfold log; now rewrite add_calls_app|].
  rewrite requested_blueprints_app. apply Forall_app. split; [exact Hadded|].
  destruct c; simpl; try constructor; [|constructor].
  now apply (Hc bp t).
Qed.

Lemma requests_since_calls {A : Type} (good : Blueprint -> Prop) (m : M A)
    (s : State) :
  requests_since good s (snd (m s)) ->
  Forall good (requested_blueprints (calls_of m s)).
Proof.
  intros [added [Hs Hadded]]. unfold calls_of. rewrite Hs, trace_add_calls.
  now rewrite skipn_app, skipn_all, Nat.sub_diag.
Qed.

Section Blueprints.
Variable env : Env.
Variable good : Blueprint -> Prop.
Variable s0 : State.

Let G : State -> Prop := requests_since good s0.

Lemma G_plain (c : Call) :
  (forall bp t, c <> TrySpawnActor bp t) -> stable G c.
Proof.
  intros Hc. apply requests_since_stable. intros bp t ->. now elim (Hc bp t).
Qed.

Lemma G_request bp t : good bp -> stable G (TrySpawnActor bp t).
Proof.
  intros Hbp. apply requests_since_stable. now intros bp' t' [= <- _].
Qed.

Lemma AddingTraffic_spawn_loop_blueprints (sp : list Transform)
    (units : list nat) :
  good {| bp_id := "vehicle.tesla.model3"; bp_attributes := [] |} ->
  forall acc,
    triple G (AddingTraffic.spawn_loop env sp units acc)
      (fun _ => G) (fun _ => G).
Proof.
  intros Hgood.
  induction units as [|i units IH]; intros acc;
    cbn [AddingTraffic.spawn_loop].
  - now apply keep_ret.
  - apply keep_bind; [now apply keep_lift | intros k].
    apply keep_bind; [now apply keep_lift | intros p].
    eapply triple_bind with (Q := fun bp s => G s /\ good bp).
    { apply triple_find; intros s Hs _.
      - split; [now apply G_plain | exact Hgood].
      - now apply G_plain. }
    intros bp. apply triple_weaken
      with (P' := fun s => G s /\ good bp) (Q' := fun _ => G)
           (E' := fun _ => G); auto.
    apply triple_pure. intros Hbp.
    apply keep_bind;
      [apply keep_try_spawn_actor; [auto | now apply G_request] | ].
    intros [v|]; [|apply IH].
    apply keep_bind; [apply keep_call; [auto | now apply G_plain] | ].
    intros ?. apply IH.
Qed.

Lemma BasicEgentFirstTime_spawn_loop_blueprints (sp : list Transform)
    (units : list nat) :
  (forall id, In id BasicEgentFirstTime.vehicle_types ->
              good {| bp_id := id; bp_attributes := [] |}) ->
  forall acc,
    triple G (BasicEgentFirstTime.spawn_loop env sp units acc)
      (fun _ => G) (fun _ => G).
Proof.
  intros Hgood.
  induction units as [|i units IH]; intros acc;
    cbn [BasicEgentFirstTime.spawn_loop].
  - now apply keep_ret.
  - apply keep_bind; [now apply keep_lift | intros k].
    apply keep_bind; [now apply keep_lift | intros p].
    eapply triple_bind
      with (Q := fun ty s => G s /\ In ty BasicEgentFirstTime.vehicle_types).
    { apply triple_random_choice; intros s Hs _.
      - split; [now apply G_plain|].
        apply nth_In. apply Nat.mod_upper_bound. discriminate.
      - now apply G_plain. }
    intros ty. apply triple_weaken
      with (P' := fun s => G s /\ In ty BasicEgentFirstTime.vehicle_types)
           (Q' := fun _ => G) (E' := fun _ => G); auto.
    apply triple_pure. intros Hty.
    eapply triple_bind with (Q := fun bp s => G s /\ good bp).
    { apply triple_find; intros s Hs _.
      - split; [now apply G_plain | now apply Hgood].
      - now apply G_plain. }
    intros bp. apply triple_weaken
      with (P' := fun s => G s /\ good bp) (Q' := fun _ => G)
           (E' := fun _ => G); auto.
    apply triple_pure. intros Hbp.
    apply keep_bind;
      [apply keep_try_spawn_actor; [auto | now apply G_request] | ].
    intros [v|]; [|apply IH].
    apply keep_bind; [apply keep_call; [auto | now apply G_plain] | ].
    intros ?. apply IH.
Qed.

End Blueprints.

(** Every creation request of [spawn_traffic_cars] is made with a
    blueprint on which no attribute was set: in [addingTraffic.py] always
    that of the Tesla Model 3, in [basicEgentFirstTime.py] one of the six
    vehicle types of the catalog, whatever the draws of the random
    generator. *)
Theorem traffic_blueprints_from_catalog (env : Env) (num_cars : nat)
    (s : State) :
  Forall (fun bp => bp = {| bp_id := "vehicle.tesla.model3";
                            bp_attributes := [] |})
    (requested_blueprints
       (calls_of (AddingTraffic.spawn_traffic_cars env num_cars) s)) /\
  Forall (fun bp => In (bp_id bp) BasicEgentFirstTime.vehicle_types
                    /\ bp_attributes bp = [])
    (requested_blueprints
       (calls_of (BasicEgentFirstTime.spawn_traffic_cars env num_cars) s)).
Proof.
  assert (H0 : forall good, requests_since good s s).
  { intros good. exists []. split; [now rewrite add_calls_nil | constructor]. }
  split; apply requests_since_calls.
  - set (good := fun bp => bp = {| bp_id := "vehicle.tesla.model3";
                                   bp_attributes := [] |}).
    apply (triple_state (requests_since good s) _ (requests_since good s));
      [|apply H0].
    unfold AddingTraffic.spawn_traffic_cars.
    apply keep_bind;
      [apply keep_get_spawn_points; [auto | now apply G_plain] | intros sp].
    now apply AddingTraffic_spawn_loop_blueprints.
  - set (good := fun bp => In (bp_id bp) BasicEgentFirstTime.vehicle_types
                           /\ bp_attributes bp = []).
    apply (triple_state (requests_since good s) _ (requests_since good s));
      [|apply H0].
    unfold BasicEgentFirstTime.spawn_traffic_cars.
    apply keep_bind;
      [apply keep_get_spawn_points; [auto | now apply G_plain] | intros sp].
    apply BasicEgentFirstTime_spawn_loop_blueprints.
    intros id Hid. now split.
Qed.

(* ================================================================== *)
(** * The display loop runs with a vehicle and a camera *)

Lemma setup_only_stable (c : Call) : loop_call c = false -> stable setup_only c.
Proof.
  intros Hc s Hs. unfold setup_only, log. rewrite trace_add_calls.
  apply Forall_app. split; [exact Hs | now constructor].
Qed.

Lemma setup_only_blind {A : Type} (set : A -> State -> State) :
  (forall a s, trace (set a s) = trace s) -> blind setup_only set.
Proof. intros H a s Hs. unfold setup_only. now rewrite H. Qed.

Lemma driving_stable (v cam : Actor) (c : Call) :
  (forall a ctl, c = ApplyControl a ctl -> a = v) -> stable (driving v cam) c.
Proof.
  intros Hc s [Hv [Hcam Hctl]]. split; [exact Hv|]. split; [exact Hcam|].
  intros a ctl Hin. unfold log in Hin. rewrite trace_add_calls in Hin.
  apply in_app_or in Hin. destruct Hin as [Hin | [Hin | []]].
  - now apply (Hctl a ctl).
  - now apply (Hc a ctl).
Qed.

Lemma driving_stable_other (v cam : Actor) (c : Call) :
  is_control c = false -> stable (driving v cam) c.
Proof. intros Hc. apply driving_stable. now intros a ctl ->. Qed.

Lemma loop_ready_stable (c : Call) :
  loop_call c = false -> stable loop_ready c.
Proof.
  intros Hc s [Hs | [v [cam Hs]]]; [left | right].
  - now apply setup_only_stable.
  - exists v, cam. apply driving_stable_other; [|exact Hs]. now destruct c.
Qed.

Lemma setup_only_ready (w : stop) (s : State) : setup_only s -> loop_ready s.
Proof. now left. Qed.

Lemma driving_ready (v cam : Actor) (w : stop) (s : State) :
  driving v cam s -> loop_ready s.
Proof. intros Hs. right. now exists v, cam. Qed.

Lemma setup_only_no_control (s : State) (a : Actor) (ctl : Control) :
  setup_only s -> ~ In (ApplyControl a ctl) (trace s).
Proof.
  intros Hs Hin. unfold setup_only in Hs. rewrite Forall_forall in Hs.
  now specialize (Hs _ Hin).
Qed.

Section Ready.
Variable env : Env.

Let E : stop -> State -> Prop := fun _ => loop_ready.

Lemma ready_call (c : Call) :
  loop_call c = false ->
  triple setup_only (call env c) (fun _ => setup_only) E.
Proof.
  intros Hc. apply keep_call; [apply setup_only_ready|].
  now apply setup_only_stable.
Qed.

Lemma ready_find (id : string) :
  triple setup_only (find env id) (fun _ => setup_only) E.
Proof.
  apply keep_find; [apply setup_only_ready | now apply setup_only_stable].
Qed.

Lemma ready_get_spawn_points :
  triple setup_only (get_spawn_points env) (fun _ => setup_only) E.
Proof.
  apply keep_get_spawn_points;
    [apply setup_only_ready | now apply setup_only_stable].
Qed.

Lemma ready_connect : triple setup_only (connect env) (fun _ => setup_only) E.
Proof.
  apply keep_connect; [apply setup_only_ready|].
  intros c Hc. apply setup_only_stable.
  simpl in Hc. intuition (subst; reflexivity).
Qed.

(** From the spawn of the vehicle to that of the camera. *)
Lemma ready_vehicle_camera (bp : Blueprint) (t : Transform)
    (k : Actor -> Actor -> M unit) :
  (forall v cam, triple (driving v cam) (k v cam) (fun _ => loop_ready) E) ->
  forall camera_transform fov,
  triple setup_only
    (vehicle <- store set_vehicle (try_spawn_actor env bp t) ;;
     match vehicle with
     | None => return_
     | Some vehicle =>
         camera_bp <- find env "sensor.camera.rgb" ;;
         let camera_bp := set_attribute camera_bp "image_size_x" "1000" in
         let camera_bp := set_attribute camera_bp "image_size_y" "800" in
         let camera_bp := set_attribute camera_bp "fov" fov in
         camera <- store (fun c => set_camera (Some c))
                     (spawn_actor env camera_bp camera_transform vehicle) ;;
         k vehicle camera
     end)
    (fun _ => loop_ready) E.
Proof.
  intros Hk camera_transform fov.
  eapply triple_bind
    with (Q := fun v s => setup_only s /\ vehicle s = v).
  { eapply triple_store with (Q' := fun _ => setup_only).
    - apply keep_try_spawn_actor; [apply setup_only_ready|].
      now apply setup_only_stable.
    - intros a s Hs. now split. }
  intros [v|].
  2: { apply triple_return. intros s [Hs _]. now left. }
  set (P1 := fun s => setup_only s /\ vehicle s = Some v).
  assert (HP1 : forall (w : stop) s, P1 s -> E w s)
    by (intros w s [Hs _]; now left).
  assert (HP1s : forall c, loop_call c = false -> stable P1 c).
  { intros c Hc s [Hs Hv]. split; [now apply setup_only_stable | exact Hv]. }
  eapply triple_bind with (Q := fun _ => P1).
  { apply keep_find; [exact HP1 | now apply HP1s]. }
  intros camera_bp. cbv zeta.
  eapply triple_bind with (Q := fun cam s => driving v cam s).
  { eapply triple_store with (Q' := fun _ => P1).
    - apply keep_spawn_actor; [exact HP1 | now apply HP1s].
    - intros cam s [Hs Hv]. split; [exact Hv|]. split; [reflexivity|].
      intros a ctl Hin. now elim (setup_only_no_control s a ctl Hs). }
  intros cam. apply Hk.
Qed.

Section Driving.
Variables v cam : Actor.

Let D : State -> Prop := driving v cam.

Lemma D_ready (w : stop) (s : State) : D s -> E w s.
Proof. apply (driving_ready v cam w). Qed.

Lemma driving_call (c : Call) :
  is_control c = false -> triple D (call env c) (fun _ => D) E.
Proof.
  intros Hc. apply keep_call; [apply D_ready|].
  now apply driving_stable_other.
Qed.

Lemma driving_image : blind D set_latest_image.
Proof. now intros a s Hs. Qed.

Lemma driving_render : triple D (render_latest env) (fun _ => D) E.
Proof.
  apply keep_render_latest; [apply D_ready | intros a | ];
    now apply driving_stable_other.
Qed.

Lemma driving_tick (t : Tick) :
  triple D (SpwnSpcfcLocCamOk.tick env t) (fun _ => D) E.
Proof.
  unfold SpwnSpcfcLocCamOk.tick.
  apply keep_bind; [|intros evs].
  { apply keep_event_get. now apply driving_stable_other. }
  apply keep_bind; [apply keep_poll_quit, D_ready | intros ?].
  apply keep_bind; [apply driving_render | intros ?].
  apply keep_bind; [now apply driving_call | intros ?].
  now apply driving_call.
Qed.

Lemma driving_agent_tick (t : Tick) :
  triple D (BasicEgentFirstTime.tick env v t) (fun _ => D) E.
Proof.
  unfold BasicEgentFirstTime.tick.
  apply keep_bind; [|intros evs].
  { apply keep_event_get. now apply driving_stable_other. }
  apply keep_bind; [apply keep_poll_quit, D_ready | intros ?].
  apply keep_bind; [|intros control].
  { apply keep_run_step; [apply D_ready|].
    apply driving_stable. intros b ctl Hc. discriminate Hc. }
  apply keep_bind; [|intros ?].
  { apply keep_call; [apply D_ready|].
    apply driving_stable. now intros b ctl [= <- _]. }
  apply keep_bind; [apply driving_render | intros ?].
  apply keep_bind; [now apply driving_call | intros ?].
  now apply driving_call.
Qed.

Lemma driving_spawner_call (c : Call) : spawner_call c = true -> stable D c.
Proof. intros Hc. apply driving_stable_other. now destruct c. Qed.

Lemma driving_ready_post {A : Type} (m : M A) :
  triple D m (fun _ => D) E -> triple D m (fun _ => loop_ready) E.
Proof.
  intros H. eapply triple_weaken; [exact H | auto | | auto].
  intros a s Hs. now apply (D_ready ByReturn).
Qed.

End Driving.

Lemma SpwnSpcfcLocCamOk_body_ready (ticks : list Tick) :
  triple setup_only (SpwnSpcfcLocCamOk.body env ticks)
    (fun _ => loop_ready) E.
Proof.
  unfold SpwnSpcfcLocCamOk.body.
  eapply triple_bind; [apply ready_connect | intros ?].
  eapply triple_bind; [now apply ready_call | intros ?].
  eapply triple_bind; [now apply ready_call | intros ?].
  eapply triple_bind; [apply ready_find | intros vehicle_bp].
  eapply triple_bind; [apply ready_get_spawn_points | intros sps].
  destruct sps as [|spawn_point sps];
    [apply triple_return; intros s Hs; now left|].
  apply ready_vehicle_camera. intros v cam.
  apply driving_ready_post.
  apply keep_bind; [apply keep_assign, driving_image | intros ?].
  apply keep_bind; [now apply driving_call | intros ?].
  apply keep_while_true; [apply D_ready | apply driving_image |].
  apply driving_tick.
Qed.

Lemma AddingTraffic_body_ready (ticks : list Tick) :
  triple setup_only (AddingTraffic.body env ticks) (fun _ => loop_ready) E.
Proof.
  unfold AddingTraffic.body.
  eapply triple_bind; [apply ready_connect | intros ?].
  eapply triple_bind; [now apply ready_call | intros ?].
  eapply triple_bind; [now apply ready_call | intros ?].
  eapply triple_bind; [apply ready_find | intros vehicle_bp].
  eapply triple_bind; [apply ready_get_spawn_points | intros sps].
  destruct sps as [|spawn_point sps];
    [apply triple_return; intros s Hs; now left|].
  apply ready_vehicle_camera. intros v cam.
  apply driving_ready_post.
  apply keep_bind; [apply keep_assign, driving_image | intros ?].
  apply keep_bind; [now apply driving_call | intros ?].
  apply keep_bind; [|intros ?].
  { apply keep_store; [now intros x s Hs|].
    apply AddingTraffic_keep_spawn_traffic_cars; [apply D_ready|].
    apply driving_spawner_call. }
  apply keep_while_true; [apply D_ready | apply driving_image |].
  apply driving_tick.
Qed.

Lemma BasicEgentFirstTime_body_ready (ticks : list Tick) :
  triple setup_only (BasicEgentFirstTime.body env ticks)
    (fun _ => loop_ready) E.
Proof.
  unfold BasicEgentFirstTime.body.
  eapply triple_bind; [apply ready_connect | intros ?].
  eapply triple_bind; [apply ready_get_spawn_points | intros sps].
  destruct sps as [|start_point sps];
    [apply triple_return; intros s Hs; now left|].
  cbv zeta.
  eapply triple_bind; [now apply ready_call | intros ?].
  eapply triple_bind; [apply ready_find | intros vehicle_bp].
  apply ready_vehicle_camera. intros v cam.
  apply driving_ready_post.
  apply keep_bind; [apply keep_assign, driving_image | intros ?].
  apply keep_bind; [now apply driving_call | intros ?].
  apply keep_bind; [|intros bus_bp].
  { apply keep_find; [apply D_ready | now apply driving_stable_other]. }
  apply keep_bind; [|intros ?].
  { apply keep_store; [now intros x s Hs|].
    apply keep_try_spawn_actor; [apply D_ready|].
    now apply driving_stable_other. }
  apply keep_bind; [|intros ?].
  { apply keep_setup_traffic_lights; [apply D_ready | | ].
    - intros l. split; [|split; [|split]]; now apply driving_stable_other.
    - now apply driving_stable_other. }
  apply keep_bind; [|intros ?].
  { apply keep_store; [now intros x s Hs|].
    apply BasicEgentFirstTime_keep_spawn_traffic_cars; [apply D_ready|].
    apply driving_spawner_call. }
  apply keep_bind; [now apply driving_call | intros ?].
  apply keep_bind; [now apply driving_call | intros ?].
  apply keep_while_true; [apply D_ready | apply driving_image |].
  apply driving_agent_tick.
Qed.

Lemma teardown_call_ready (c : Call) :
  teardown_call c = true -> stable loop_ready c.
Proof. intros Hc. apply loop_ready_stable. now destruct c. Qed.

Lemma ready_pygame_setup :
  triple setup_only (pygame_setup env) (fun _ => setup_only) E.
Proof.
  apply keep_pygame_setup; [apply setup_only_ready|].
  intros c Hc. apply setup_only_stable.
  simpl in Hc. intuition (subst; reflexivity).
Qed.

Lemma SpwnSpcfcLocCamOk_main_ready (ticks : list Tick) :
  loop_ready (snd (SpwnSpcfcLocCamOk.main env ticks initial)).
Proof.
  apply (triple_state setup_only); [|constructor].
  unfold SpwnSpcfcLocCamOk.main.
  eapply triple_bind; [apply ready_pygame_setup | intros ?].
  apply keep_finally; [apply SpwnSpcfcLocCamOk_body_ready|].
  unfold SpwnSpcfcLocCamOk.teardown.
  assert (Hd : forall a, stable loop_ready (Destroy a))
    by (intros x; now apply teardown_call_ready).
  apply keep_bind;
    [apply keep_call; [auto | now apply teardown_call_ready] | intros ?].
  apply keep_bind; [apply keep_destroy_if_set; auto | intros ?].
  apply keep_destroy_if_set; auto.
Qed.

Lemma AddingTraffic_main_ready (ticks : list Tick) :
  loop_ready (snd (AddingTraffic.main env ticks initial)).
Proof.
  apply (triple_state setup_only); [|constructor].
  unfold AddingTraffic.main.
  eapply triple_bind; [apply ready_pygame_setup | intros ?].
  eapply triple_bind with (Q := fun _ => setup_only);
    [now apply triple_assign | intros ?].
  apply keep_finally; [apply AddingTraffic_body_ready|].
  unfold AddingTraffic.teardown.
  assert (Hd : forall a, stable loop_ready (Destroy a))
    by (intros x; now apply teardown_call_ready).
  apply keep_bind;
    [apply keep_call; [auto | now apply teardown_call_ready] | intros ?].
  do 2 (apply keep_bind; [apply keep_destroy_if_set; auto | intros ?]).
  apply keep_destroy_traffic; auto.
Qed.

Lemma BasicEgentFirstTime_main_ready (ticks : list Tick) :
  loop_ready (snd (BasicEgentFirstTime.main env ticks initial)).
Proof.
  apply (triple_state setup_only); [|constructor].
  unfold BasicEgentFirstTime.main.
  eapply triple_bind; [apply ready_pygame_setup | intros ?].
  do 4 (eapply triple_bind with (Q := fun _ => setup_only);
        [now apply triple_assign | intros ?]).
  apply keep_finally; [apply BasicEgentFirstTime_body_ready|].
  unfold BasicEgentFirstTime.teardown.
  assert (Hd : forall a, stable loop_ready (Destroy a))
    by (intros x; now apply teardown_call_ready).
  apply keep_bind;
    [apply keep_call; [auto | now apply teardown_call_ready] | intros ?].
  do 3 (apply keep_bind; [apply keep_destroy_if_set; auto | intros ?]).
  apply keep_destroy_traffic; auto.
Qed.

End Ready.

Lemma held_acquired_calls (env : Env) (l : list Call) (s : State) :
  held_acquired env s -> held_acquired env (add_calls l s).
Proof.
  intros H a Ha. rewrite trace_add_calls, acquired_app.
  apply in_or_app. left. now apply H.
Qed.

Lemma finally_held_acquired (env : Env) (order : State -> list Actor)
    (body teardown : M unit) (s : State) :
  (forall s', teardown s'
              = (call env PygameQuit ;; release_list env (order s'))%script s') ->
  holds_acquired env (snd (body s)) ->
  held_acquired env (snd (finally (except_print body) teardown s)).
Proof.
  intros Ht [_ Hb].
  destruct (finally_cases env order body teardown s Ht)
    as [[_ Hr] | [_ [done [rest [_ [Hr _]]]]]]; rewrite Hr.
  - exact Hb.
  - now apply held_acquired_calls.
Qed.

Lemma held_acquired_nothing (env : Env) (s : State) :
  holds_so_far env None None None s -> held_acquired env s.
Proof. intros H. now apply so_far_acquired in H as [_ H]. Qed.

Lemma SpwnSpcfcLocCamOk_main_held (env : Env) (ticks : list Tick) :
  held_acquired env (snd (SpwnSpcfcLocCamOk.main env ticks initial)).
Proof.
  destruct (SpwnSpcfcLocCamOk_main_cases env ticks) as [s0 [Hs0 [-> | ->]]].
  - now apply held_acquired_nothing.
  - apply finally_held_acquired
      with (order := SpwnSpcfcLocCamOk.release_order).
    + apply SpwnSpcfcLocCamOk_teardown_release.
    + apply (triple_state (holds_acquired env));
        [apply SpwnSpcfcLocCamOk_body_holds_acquired
        | now apply so_far_acquired].
Qed.

Lemma AddingTraffic_main_held (env : Env) (ticks : list Tick) :
  held_acquired env (snd (AddingTraffic.main env ticks initial)).
Proof.
  destruct (AddingTraffic_main_cases env ticks) as [s0 [Hs0 [-> | ->]]].
  - now apply held_acquired_nothing.
  - apply finally_held_acquired with (order := AddingTraffic.release_order).
    + apply AddingTraffic_teardown_release.
    + apply (triple_state (holds_acquired env));
        [apply AddingTraffic_body_holds_acquired | now apply so_far_acquired].
Qed.

Lemma BasicEgentFirstTime_main_held (env : Env) (ticks : list Tick) :
  held_acquired env (snd (BasicEgentFirstTime.main env ticks initial)).
Proof.
  destruct (BasicEgentFirstTime_main_cases env ticks) as [s0 [Hs0 [-> | ->]]].
  - now apply held_acquired_nothing.
  - apply finally_held_acquired
      with (order := BasicEgentFirstTime.release_order).
    + apply BasicEgentFirstTime_teardown_release.
    + apply (triple_state (holds_acquired env));
        [apply BasicEgentFirstTime_body_holds_acquired
        | now apply so_far_acquired].
Qed.

Lemma held_vehicle_camera (env : Env) (s : State) (v cam : Actor) :
  held_acquired env s -> vehicle s = Some v -> camera s = Some cam ->
  In v (acquired env (trace s)) /\ In cam (acquired env (trace s)).
Proof.
  intros H Hv Hc. unfold held_acquired in H. rewrite Hv, Hc in H.
  split; apply H; simpl; auto.
Qed.

Lemma ready_had_actors (env : Env) (s : State) :
  loop_ready s -> held_acquired env s -> loop_had_actors env s.
Proof.
  intros [Hs | [v [cam [Hv [Hc _]]]]] Hheld Hloop.
  - apply existsb_exists in Hloop. destruct Hloop as [c [Hin Hc]].
    unfold setup_only in Hs. rewrite Forall_forall in Hs.
    specialize (Hs c Hin). congruence.
  - exists v, cam. split; [exact Hv|]. split; [exact Hc|].
    now apply held_vehicle_camera.
Qed.

(** In every run of [main] of each file, if a call of the display loop
    was made (a poll of the events, a drawing call, a control), then
    [main] holds a vehicle and a camera, and both were acquired: the
    loop does not run when there is no spawn point or the vehicle could
    not be spawned. *)
Theorem display_loop_needs_vehicle_and_camera (env : Env) (ticks : list Tick) :
  loop_had_actors env (snd (SpwnSpcfcLocCamOk.main env ticks initial)) /\
  loop_had_actors env (snd (AddingTraffic.main env ticks initial)) /\
  loop_had_actors env (snd (BasicEgentFirstTime.main env ticks initial)).
Proof.
  split; [|split]; apply ready_had_actors.
  - apply SpwnSpcfcLocCamOk_main_ready.
  - apply SpwnSpcfcLocCamOk_main_held.
  - apply AddingTraffic_main_ready.
  - apply AddingTraffic_main_held.
  - apply BasicEgentFirstTime_main_ready.
  - apply BasicEgentFirstTime_main_held.
Qed.

Lemma display_loop_needs_vehicle_and_camera_witness :
  let s := snd (AddingTraffic.main calm [frame_tick; quit_tick] initial) in
  existsb loop_call (trace s) = true /\
  exists v cam,
    vehicle s = Some v /\ camera s = Some cam /\
    In v (acquired calm (trace s)) /\ In cam (acquired calm (trace s)).
Proof.
  cbv zeta.
  assert (H : existsb loop_call
                (trace (snd (AddingTraffic.main calm [frame_tick; quit_tick]
                               initial))) = true)
    by (vm_compute; reflexivity).
  split; [exact H|].
  exact (proj1 (proj2 (display_loop_needs_vehicle_and_camera calm
                         [frame_tick; quit_tick])) H).
Defined.

(** In every run of [main] of [basicEgentFirstTime.py], every control
    is applied to the reference vehicle, the one [main] holds and has
    acquired: never to the marker nor to a traffic car. *)
Theorem controls_go_to_reference_vehicle (env : Env) (ticks : list Tick)
    (a : Actor) (ctl : Control) :
  In (ApplyControl a ctl)
    (trace (snd (BasicEgentFirstTime.main env ticks initial))) ->
  vehicle (snd (BasicEgentFirstTime.main env ticks initial)) = Some a /\
  In a (acquired env
          (trace (snd (BasicEgentFirstTime.main env ticks initial)))).
Proof.
  intros Hin.
  destruct (BasicEgentFirstTime_main_ready env ticks)
    as [Hs | [v [cam [Hv [Hc Hctl]]]]].
  - now elim (setup_only_no_control _ a ctl Hs).
  - rewrite (Hctl a ctl Hin). split; [exact Hv|].
    now apply (held_vehicle_camera env _ v cam
                 (BasicEgentFirstTime_main_held env ticks) Hv Hc).
Qed.

Lemma controls_go_to_reference_vehicle_witness :
  let s := snd (BasicEgentFirstTime.main calm [frame_tick; quit_tick]
                  initial) in
  In (ApplyControl 12 71) (trace s) /\
  vehicle s = Some 12 /\ In 12 (acquired calm (trace s)).
Proof.
  cbv zeta.
  assert (H : In (ApplyControl 12 71)
                (trace (snd (BasicEgentFirstTime.main calm
                               [frame_tick; quit_tick] initial)))).
  { vm_compute. do 72 right. now left. }
  split; [exact H|].
  exact (controls_go_to_reference_vehicle calm [frame_tick; quit_tick]
           12 71 H).
Defined.

(* ================================================================== *)
(** * Closing the session *)

Lemma no_teardown_yet_stable (c : Call) :
  teardown_call c = false -> stable no_teardown_yet c.
Proof.
  intros Hc s Hs. unfold no_teardown_yet, log. rewrite trace_add_calls.
  apply Forall_app. split; [exact Hs | now constructor].
Qed.

Lemma no_teardown_yet_blind {A : Type} (set : A -> State -> State) :
  (forall a s, trace (set a s) = trace s) -> blind no_teardown_yet set.
Proof. intros H a s Hs. unfold no_teardown_yet. now rewrite H. Qed.

Lemma no_teardown_setup (c : Call) :
  setup_call c = true -> stable no_teardown_yet c.
Proof.
  intros Hc. apply no_teardown_yet_stable.
  unfold setup_call in Hc. now destruct (teardown_call c), (loop_call c).
Qed.

Lemma no_teardown_loop (c : Call) :
  loop_call c = true -> stable no_teardown_yet c.
Proof. intros Hc. apply no_teardown_yet_stable. now destruct c. Qed.

Section NoTeardown.
Variable env : Env.

Lemma SpwnSpcfcLocCamOk_body_no_teardown (ticks : list Tick) :
  triple no_teardown_yet (SpwnSpcfcLocCamOk.body env ticks)
    (fun _ => no_teardown_yet) (fun _ => no_teardown_yet).
Proof.
  apply SpwnSpcfcLocCamOk_keep_body; auto using no_teardown_setup;
    try (now apply no_teardown_yet_blind).
  apply keep_while_true; [auto | now apply no_teardown_yet_blind |].
  intros t. apply SpwnSpcfcLocCamOk_keep_tick; auto using no_teardown_loop.
Qed.

Lemma AddingTraffic_body_no_teardown (ticks : list Tick) :
  triple no_teardown_yet (AddingTraffic.body env ticks)
    (fun _ => no_teardown_yet) (fun _ => no_teardown_yet).
Proof.
  apply AddingTraffic_keep_body; auto using no_teardown_setup;
    try (now apply no_teardown_yet_blind).
  apply keep_while_true; [auto | now apply no_teardown_yet_blind |].
  intros t. apply AddingTraffic_keep_tick; auto using no_teardown_loop.
Qed.

Lemma BasicEgentFirstTime_body_no_teardown (ticks : list Tick) :
  triple no_teardown_yet (BasicEgentFirstTime.body env ticks)
    (fun _ => no_teardown_yet) (fun _ => no_teardown_yet).
Proof.
  apply BasicEgentFirstTime_keep_body; auto using no_teardown_setup;
    try (now apply no_teardown_yet_blind).
  intros v. apply keep_while_true; [auto | now apply no_teardown_yet_blind |].
  intros t. apply BasicEgentFirstTime_keep_tick; auto using no_teardown_loop.
Qed.

(** A session that reaches its [try] statement and is left ends with
    the calls of its [finally] block: [pygame.quit()], then releases. *)
Lemma finally_ends_with_teardown (order : State -> list Actor)
    (body teardown : M unit) (s : State) :
  (forall s', teardown s'
              = (call env PygameQuit ;; release_list env (order s'))%script s') ->
  triple no_teardown_yet body
    (fun _ => no_teardown_yet) (fun _ => no_teardown_yet) ->
  no_teardown_yet s ->
  exited (fst (finally (except_print body) teardown s)) ->
  exists pre done,
    trace (snd (finally (except_print body) teardown s))
    = pre ++ PygameQuit :: map Destroy done /\
    Forall (fun c => teardown_call c = false) pre.
Proof.
  intros Ht Hb Hs Hex.
  pose proof (triple_state _ _ _ _ Hb Hs) as Hs1.
  destruct (finally_cases env order body teardown s Ht)
    as [[Hp Hr] | [_ [done [rest [_ [Hr _]]]]]].
  - rewrite Hr in Hex. now elim Hex.
  - exists (trace (snd (body s))), done.
    split; [now rewrite Hr, trace_add_calls | exact Hs1].
Qed.

End NoTeardown.

(** When the pygame calls made before the [try] statement do not raise
    and [main] is left, however it is (quit event, early return, error),
    the trace ends with [pygame.quit()] followed by releases only, and
    holds no other call of these kinds: pygame is closed exactly once,
    before any actor is released, and nothing is done afterwards. *)
Theorem session_ends_with_teardown (env : Env) (ticks : list Tick) :
  pygame_setup_quiet env ->
  (exited (fst (SpwnSpcfcLocCamOk.main env ticks initial)) ->
   exists pre done,
     trace (snd (SpwnSpcfcLocCamOk.main env ticks initial))
     = pre ++ PygameQuit :: map Destroy done /\
     Forall (fun c => teardown_call c = false) pre) /\
  (exited (fst (AddingTraffic.main env ticks initial)) ->
   exists pre done,
     trace (snd (AddingTraffic.main env ticks initial))
     = pre ++ PygameQuit :: map Destroy done /\
     Forall (fun c => teardown_call c = false) pre) /\
  (exited (fst (BasicEgentFirstTime.main env ticks initial)) ->
   exists pre done,
     trace (snd (BasicEgentFirstTime.main env ticks initial))
     = pre ++ PygameQuit :: map Destroy done /\
     Forall (fun c => teardown_call c = false) pre).
Proof.
  intros Hp.
  assert (H0 : forall s, trace s = trace (add_calls pygame_setup_calls initial) ->
                         no_teardown_yet s).
  { intros s Hs. unfold no_teardown_yet. rewrite Hs.
    repeat constructor. }
  split; [|split].
  - unfold SpwnSpcfcLocCamOk.main.
    rewrite (bind_val _ _ _ _ _ (pygame_setup_ok env initial Hp)).
    apply finally_ends_with_teardown
      with (env := env) (order := SpwnSpcfcLocCamOk.release_order).
    + apply SpwnSpcfcLocCamOk_teardown_release.
    + apply SpwnSpcfcLocCamOk_body_no_teardown.
    + now apply H0.
  - unfold AddingTraffic.main.
    rewrite (bind_val _ _ _ _ _ (pygame_setup_ok env initial Hp)).
    rewrite bind_assign.
    apply finally_ends_with_teardown
      with (env := env) (order := AddingTraffic.release_order).
    + apply AddingTraffic_teardown_release.
    + apply AddingTraffic_body_no_teardown.
    + now apply H0.
  - unfold BasicEgentFirstTime.main.
    rewrite (bind_val _ _ _ _ _ (pygame_setup_ok env initial Hp)).
    rewrite !bind_assign.
    apply finally_ends_with_teardown
      with (env := env) (order := BasicEgentFirstTime.release_order).
    + apply BasicEgentFirstTime_teardown_release.
    + apply BasicEgentFirstTime_body_no_teardown.
    + now apply H0.
Qed.

Lemma session_ends_with_teardown_witness :
  let r := SpwnSpcfcLocCamOk.main calm [frame_tick; quit_tick] initial in
  pygame_setup_quiet calm /\ exited (fst r) /\
  exists pre done,
    trace (snd r) = pre ++ PygameQuit :: map Destroy done /\
    Forall (fun c => teardown_call c = false) pre.
Proof.
  cbv zeta.
  assert (H1 : pygame_setup_quiet calm) by (intros n c _; reflexivity).
  assert (H2 : exited (fst (SpwnSpcfcLocCamOk.main calm
                              [frame_tick; quit_tick] initial)))
    by (vm_compute; discriminate).
  split; [exact H1|]. split; [exact H2|].
  exact (proj1 (session_ends_with_teardown calm [frame_tick; quit_tick] H1)
           H2).
Defined.

(* ================================================================== *)
(** * The destination of the agent *)

Lemma no_destination_stable (c : Call) :
  is_destination c = false -> stable no_destination c.
Proof.
  intros Hc s Hs. unfold no_destination, log. rewrite trace_add_calls.
  apply Forall_app. split; [exact Hs | now constructor].
Qed.

Lemma no_destination_none (s : State) (l : Location) :
  no_destination s -> ~ In (SetDestination l) (trace s).
Proof.
  intros Hs Hin. unfold no_destination in Hs. rewrite Forall_forall in Hs.
  now specialize (Hs _ Hin).
Qed.

Lemma no_destination_ok (w : stop) (s : State) :
  no_destination s -> heads_for_marker s.
Proof. intros Hs l Hin. now elim (no_destination_none s l Hs). Qed.

Lemma heads_for_marker_stable (c : Call) :
  is_destination c = false -> stable heads_for_marker c.
Proof.
  intros Hc s Hs l Hin. unfold log in *. rewrite trace_add_calls in *.
  apply in_app_or in Hin. destruct Hin as [Hin | [Heq | []]];
    [|subst c; discriminate Hc].
  apply in_or_app. left. now apply Hs.
Qed.

Section Destination.
Variable env : Env.

Let E : stop -> State -> Prop := fun _ => heads_for_marker.

Lemma BasicEgentFirstTime_body_destination (ticks : list Tick) :
  triple no_destination (BasicEgentFirstTime.body env ticks)
    (fun _ => heads_for_marker) E.
Proof.
  assert (HN : forall (w : stop) s, no_destination s -> E w s)
    by (intros w s; apply (no_destination_ok w)).
  assert (Hcall : forall c, is_destination c = false ->
            triple no_destination (call env c) (fun _ => no_destination) E).
  { intros c Hc. apply keep_call; [exact HN|].
    now apply no_destination_stable. }
  assert (Hfind : forall id,
            triple no_destination (find env id) (fun _ => no_destination) E).
  { intros id. apply keep_find; [exact HN|].
    now apply no_destination_stable. }
  unfold BasicEgentFirstTime.body.
  eapply triple_bind with (Q := fun _ => no_destination).
  { apply keep_connect; [exact HN|]. intros c Hc.
    apply no_destination_stable. simpl in Hc.
    intuition (subst; reflexivity). }
  intros ?.
  eapply triple_bind with (Q := fun _ => no_destination).
  { apply triple_get_spawn_points; intros s Hs _.
    - now apply no_destination_stable.
    - apply HN. now apply no_destination_stable. }
  intros sps.
  destruct sps as [|start_point sps];
    [apply triple_return; intros s Hs; now apply HN|].
  cbv zeta.
  set (endpoint_location :=
         {| loc_x := loc_x (location start_point) + 115;
            loc_y := loc_y (location start_point) + 135;
            loc_z := loc_z (location start_point) |}).
  eapply triple_bind; [now apply Hcall | intros ?].
  eapply triple_bind; [apply Hfind | intros vehicle_bp].
  eapply triple_bind with (Q := fun _ => no_destination).
  { apply keep_store; [now intros x s Hs|].
    apply keep_try_spawn_actor; [exact HN|].
    now apply no_destination_stable. }
  intros [vehicle|]; [|apply triple_return; intros s Hs; now apply HN].
  eapply triple_bind; [apply Hfind | intros camera_bp].
  eapply triple_bind with (Q := fun _ => no_destination).
  { apply keep_store; [now intros x s Hs|].
    apply keep_spawn_actor; [exact HN|].
    now apply no_destination_stable. }
  intros camera.
  eapply triple_bind with (Q := fun _ => no_destination);
    [now apply triple_assign | intros ?].
  eapply triple_bind; [now apply Hcall | intros ?].
  eapply triple_bind
    with (Q := fun bp s =>
                 no_destination s /\
                 bp = {| bp_id := "vehicle.carlamotors.carlacola";
                         bp_attributes := [] |}).
  { apply triple_find; intros s Hs _.
    - split; [now apply no_destination_stable | reflexivity].
    - apply HN. now apply no_destination_stable. }
  intros bus_bp. apply triple_pure. intros ->.
  set (B := fun s => no_destination s
                     /\ In (marker_request endpoint_location) (trace s)).
  assert (HB : forall (w : stop) s, B s -> E w s)
    by (intros w s [Hs _]; now apply HN).
  assert (HBs : forall c, is_destination c = false -> stable B c).
  { intros c Hc s [Hs Hin]. split; [now apply no_destination_stable|].
    unfold log. rewrite trace_add_calls. apply in_or_app. now left. }
  eapply triple_bind with (Q := fun _ => B).
  { eapply triple_store with (Q' := fun _ => B); [|now intros x s Hs].
    apply triple_try_spawn_actor; intros s Hs _.
    - split; [now apply no_destination_stable|].
      unfold log. rewrite trace_add_calls. apply in_or_app. right. now left.
    - apply HN. now apply no_destination_stable. }
  intros ?.
  eapply triple_bind with (Q := fun _ => B).
  { apply keep_setup_traffic_lights; [exact HB | | ].
    - intros l. split; [|split; [|split]]; now apply HBs.
    - now apply HBs. }
  intros ?.
  eapply triple_bind with (Q := fun _ => B).
  { apply keep_store; [now intros x s Hs|].
    apply BasicEgentFirstTime_keep_spawn_traffic_cars; [exact HB|].
    intros c Hc. apply HBs. now destruct c. }
  intros ?.
  eapply triple_bind with (Q := fun _ => B).
  { apply keep_call; [exact HB | now apply HBs]. }
  intros ?.
  assert (HC : forall (w : stop) s, heads_for_marker s -> E w s)
    by (intros w s Hs; exact Hs).
  assert (Hset : forall s, B s ->
            heads_for_marker (log (SetDestination endpoint_location) s)).
  { intros s [Hs Hin] l Hl. unfold log in *. rewrite trace_add_calls in *.
    apply in_app_or in Hl. destruct Hl as [Hl | [[= <-] | []]].
    - now elim (no_destination_none s l Hs).
    - apply in_or_app; now left. }
  eapply triple_bind with (Q := fun _ => heads_for_marker).
  { apply triple_call; intros s Hs _; [|apply HC]; now apply Hset. }
  intros ?.
  eapply triple_weaken
    with (P' := heads_for_marker)
         (Q' := fun _ => heads_for_marker) (E' := E); auto.
  apply keep_while_true; [exact HC | now intros x s Hs |].
  intros t. apply BasicEgentFirstTime_keep_tick; [exact HC|].
  intros c Hc. apply heads_for_marker_stable. now destruct c.
Qed.

Lemma BasicEgentFirstTime_main_destination (ticks : list Tick) :
  heads_for_marker (snd (BasicEgentFirstTime.main env ticks initial)).
Proof.
  apply (triple_state no_destination); [|constructor].
  assert (HN : forall (w : stop) s, no_destination s -> E w s)
    by (intros w s; apply (no_destination_ok w)).
  unfold BasicEgentFirstTime.main.
  eapply triple_bind with (Q := fun _ => no_destination).
  { apply keep_pygame_setup; [exact HN|]. intros c Hc.
    apply no_destination_stable. simpl in Hc.
    intuition (subst; reflexivity). }
  intros ?.
  do 4 (eapply triple_bind with (Q := fun _ => no_destination);
        [now apply triple_assign | intros ?]).
  apply keep_finally; [apply BasicEgentFirstTime_body_destination|].
  unfold BasicEgentFirstTime.teardown.
  assert (Hd : forall x, stable heads_for_marker (Destroy x))
    by (intros x; now apply heads_for_marker_stable).
  apply keep_bind;
    [apply keep_call; [auto | now apply heads_for_marker_stable] | intros ?].
  do 3 (apply keep_bind; [apply keep_destroy_if_set; auto | intros ?]).
  apply keep_destroy_traffic; auto.
Qed.

End Destination.

(** In every run of [main] of [basicEgentFirstTime.py], a destination
    given to the agent is the location of the marker: the run holds the
    creation request of the marker bus, with its blueprint without
    attribute and a zero rotation, at this very location.  (Both calls
    are given [endpoint_location]; what its coordinates are worth is not
    part of the statement.) *)
Theorem agent_heads_for_the_marker (env : Env) (ticks : list Tick)
    (l : Location) :
  In (SetDestination l)
    (trace (snd (BasicEgentFirstTime.main env ticks initial))) ->
  In (marker_request l)
    (trace (snd (BasicEgentFirstTime.main env ticks initial))).
Proof. apply BasicEgentFirstTime_main_destination. Qed.

Lemma agent_heads_for_the_marker_witness :
  let tr := trace (snd (BasicEgentFirstTime.main calm [frame_tick; quit_tick]
                          initial)) in
  let l := {| loc_x := 115; loc_y := 135; loc_z := 0 |} in
  nth_error tr 69 = Some (SetDestination l) /\
  In (marker_request l) tr.
Proof.
  cbv zeta.
  assert (H : nth_error
                (trace (snd (BasicEgentFirstTime.main calm
                               [frame_tick; quit_tick] initial))) 69
              = Some (SetDestination
                        {| loc_x := 115; loc_y := 135; loc_z := 0 |}))
    by (vm_compute; reflexivity).
  split; [exact H|].
  exact (agent_heads_for_the_marker calm [frame_tick; quit_tick] _
           (nth_error_In _ _ H)).
Defined.
